(** * tf2onnx.rewriter.custom_rnn_rewriter: a shallow embedding

    The rewriter turns a TensorFlow [dynamic_rnn] while-loop into one ONNX
    [Scan] node.  [CustomRnnRewriter] classifies a candidate loop
    ([need_rewrite]) and rewrites it ([rewrite]); [CustomRnnLateRewriter]
    later extracts the body graph of every Scan node.

    Python objects mutated in place are modelled by explicit state passing:
    the graph, the loop context and the global name counter live in a
    [World]; the process-wide [BodyGraphDict] is added in [Session].
    Exceptions are values of an error monad over that state. *)

From stdpp Require Import gmap strings list fin_maps pretty.
From Stdlib Require Import ZArith Lia Ascii.

Local Open Scope string_scope.
Local Open Scope list_scope.
Local Open Scope Z_scope.

(** ** Exceptions and the state/error monad *)

Inductive Exception : Type :=
| IndexError
| TypeError
| AttributeError
| KeyError (key : string)
| ValueError (msg : string).

Inductive outcome (A : Type) : Type :=
| Return (a : A)
| Raise (e : Exception).
Arguments Return {A} a.
Arguments Raise {A} e.

(** A computation over a mutable state [S]: the state is returned in both
    cases, since a Python exception does not undo earlier mutations. *)
Definition M (S A : Type) : Type := S -> outcome A * S.

Definition ret {S A} (a : A) : M S A := fun s => (Return a, s).
Definition raise {S A} (e : Exception) : M S A := fun s => (Raise e, s).
Definition bind {S A B} (m : M S A) (k : A -> M S B) : M S B :=
  fun s => match m s with
           | (Return a, s') => k a s'
           | (Raise e, s') => (Raise e, s')
           end.
Definition get {S} : M S S := fun s => (Return s, s).
Definition gets {S A} (f : S -> A) : M S A := fun s => (Return (f s), s).
Definition modify {S} (f : S -> S) : M S unit := fun s => (Return tt, f s).

Declare Scope monad_scope.
Delimit Scope monad_scope with monad.
Notation "x <- m ;; k" := (bind m (fun x => k))
  (at level 100, m at next level, right associativity) : monad_scope.
Notation "m ;;; k" := (bind m (fun _ => k))
  (at level 100, right associativity) : monad_scope.
Local Open Scope monad_scope.

(** [for x in l: body x] *)
Fixpoint for_each {S A} (l : list A) (body : A -> M S unit) : M S unit :=
  match l with
  | [] => ret tt
  | x :: l' => body x ;;; for_each l' body
  end.

(** A loop that threads local variables [acc] through its iterations. *)
Fixpoint for_fold {S A B} (l : list A) (acc : B) (body : B -> A -> M S B) : M S B :=
  match l with
  | [] => ret acc
  | x :: l' => acc' <- body acc x ;; for_fold l' acc' body
  end.

(** [o] when it is not [None], else the exception of using [None]. *)
Definition from_option {S A} (e : Exception) (o : option A) : M S A :=
  match o with Some a => ret a | None => raise e end.

(** ** Python helpers on strings and lists *)

(** [s.split(c)] *)
Fixpoint split_go (c : ascii) (s : string) (cur : string) : list string :=
  match s with
  | EmptyString => [cur]
  | String a s' =>
      if Ascii.eqb a c then cur :: split_go c s' ""
      else split_go c s' (cur +:+ String a "")
  end.
Definition split (c : ascii) (s : string) : list string := split_go c s "".

(** [sep.join(parts)] *)
Fixpoint join (sep : string) (parts : list string) : string :=
  match parts with
  | [] => ""
  | [p] => p
  | p :: ps => p +:+ sep +:+ join sep ps
  end.

(** [s.startswith(p)] *)
Definition startswith (s p : string) : bool := String.prefix p s.

(** [l[0:-2]] *)
Definition drop_last2 {A} (l : list A) : list A := take (length l - 2)%nat l.

(** [l[1:]] and [l[2:]] *)
Definition slice1 {A} (l : list A) : list A := drop 1 l.
Definition slice2 {A} (l : list A) : list A := drop 2 l.

(** [l[i]], raising [IndexError] out of range; [l[-1]]. *)
Definition index {S A} (l : list A) (i : nat) : M S A :=
  from_option IndexError (l !! i).
Definition index_last {S A} (l : list A) : M S A :=
  from_option IndexError (last l).

(** [l.count(x)] on dimension lists *)
Definition count (x : Z) (l : list Z) : nat := length (filter (fun y => y = x) l).

(** Truth value of an optional string: [None] and [""] are false. *)
Definition truthy (o : option string) : bool :=
  match o with
  | Some s => negb (String.eqb s "")
  | None => false
  end.

(** ** Graph substrate *)

(** A tensor shape is a [list Z], with [-1] for an unknown dimension; an
    element type is its ONNX [TensorProto] number. *)
Definition FLOAT : Z := 1.
Definition INT64 : Z := 7.

(** A node with its attributes; an attribute may hold a graph (the body of
    a Scan node), whose nodes are nodes again. *)
Inductive Node : Type :=
| mkNode (name type : string) (input output : list string)
         (attr : list (string * AttributeProto))
with AttributeProto : Type :=
| attr_i (i : Z)
| attr_ints (ints : list Z)
| attr_s (s : string)
| attr_t (t : list Z)
| attr_g (g : GraphProto)
with GraphProto : Type :=
| mkGraphProto (graph_name : string) (node : list Node)
               (graph_input : list (string * option Z * list Z))
               (graph_output : list string)
               (initializer : list (string * list Z)).

Definition name (n : Node) : string := let (x, _, _, _, _) := n in x.
Definition type (n : Node) : string := let (_, x, _, _, _) := n in x.
Definition input (n : Node) : list string := let (_, _, x, _, _) := n in x.
Definition output (n : Node) : list string := let (_, _, _, x, _) := n in x.
Definition attr (n : Node) : list (string * AttributeProto) :=
  let (_, _, _, _, x) := n in x.

Definition graph_node (p : GraphProto) : list Node := let (_, x, _, _, _) := p in x.
Definition graph_input (p : GraphProto) : list (string * option Z * list Z) :=
  let (_, _, x, _, _) := p in x.
Definition graph_output (p : GraphProto) : list string := let (_, _, _, x, _) := p in x.
Definition graph_initializer (p : GraphProto) : list (string * list Z) :=
  let (_, _, _, _, x) := p in x.

(** [node.get_attr(k)]: [None] when the attribute is absent. *)
Fixpoint assoc_get {V} (k : string) (l : list (string * V)) : option V :=
  match l with
  | [] => None
  | (k', v) :: l' => if String.eqb k' k then Some v else assoc_get k l'
  end.
Definition get_attr (n : Node) (k : string) : option AttributeProto :=
  assoc_get k (attr n).

(** [d[k] = v] on an insertion-ordered dict *)
Fixpoint assoc_set {V} (k : string) (v : V) (l : list (string * V)) : list (string * V) :=
  match l with
  | [] => [(k, v)]
  | (k', v') :: l' =>
      if String.eqb k' k then (k, v) :: l' else (k', v') :: assoc_set k v l'
  end.
Definition set_attr (n : Node) (k : string) (v : AttributeProto) : Node :=
  mkNode (name n) (type n) (input n) (output n) (assoc_set k v (attr n)).

(** Protobuf field access [.i] and [.s.decode("utf-8")]: the default value
    when the attribute holds another kind of value. *)
Definition attr_int (a : AttributeProto) : Z :=
  match a with attr_i i => i | _ => 0 end.
Definition attr_str (a : AttributeProto) : string :=
  match a with attr_s s => s | _ => "" end.

(** Modelled from the spec: the graph substrate of [tf2onnx.graph.Graph]
    ("mutable node list, named-edge shape/dtype tables, initializer table,
    consumer lookup, in-place input rewiring").  A table entry may hold
    [None], as [set_shape(name, None)] stores it. *)
Record Graph : Type := mkGraph {
  _nodes : list Node;
  _output_shapes : gmap string (option (list Z));
  _dtypes : gmap string (option Z);
  initializers : gmap string (list Z)
}.

Definition get_nodes (g : Graph) : list Node := _nodes g.
Definition set_nodes (ns : list Node) (g : Graph) : Graph :=
  mkGraph ns (_output_shapes g) (_dtypes g) (initializers g).

Definition get_shape (g : Graph) (n : string) : option (list Z) :=
  mjoin (_output_shapes g !! n).
Definition get_dtype (g : Graph) (n : string) : option Z :=
  mjoin (_dtypes g !! n).
Definition set_shape (n : string) (s : option (list Z)) (g : Graph) : Graph :=
  mkGraph (_nodes g) (<[n := s]> (_output_shapes g)) (_dtypes g) (initializers g).
Definition set_dtype (n : string) (d : option Z) (g : Graph) : Graph :=
  mkGraph (_nodes g) (_output_shapes g) (<[n := d]> (_dtypes g)) (initializers g).
Definition is_initializer (g : Graph) (n : string) : bool :=
  bool_decide (is_Some (initializers g !! n)).
Definition add_initializer (n : string) (t : list Z) (g : Graph) : Graph :=
  mkGraph (_nodes g) (_output_shapes g) (_dtypes g) (<[n := t]> (initializers g)).
Definition del_initializer (n : string) (g : Graph) : Graph :=
  mkGraph (_nodes g) (_output_shapes g) (_dtypes g) (delete n (initializers g)).

(** [utils.node_name]: the part of an edge id before its port. *)
Fixpoint node_name (s : string) : string :=
  match s with
  | EmptyString => ""
  | String a s' => if Ascii.eqb a ":" then "" else String a (node_name s')
  end.

(** Node objects are compared by identity in Python ([n in nodes],
    [nodes.remove(n)], [set(...)]).  Node names are unique in a graph and
    every node made here gets a fresh name, so the name stands for the
    object. *)
Definition same_node (a b : Node) : bool := String.eqb (name a) (name b).
Definition node_in (n : Node) (l : list Node) : bool := existsb (same_node n) l.
Fixpoint remove_node (n : Node) (l : list Node) : list Node :=
  match l with
  | [] => []
  | m :: l' => if same_node n m then l' else m :: remove_node n l'
  end.
(** [set(l)], enumerated in order of first occurrence. *)
Fixpoint node_set (l : list Node) : list Node :=
  match l with
  | [] => []
  | n :: l' => n :: filter (fun m => same_node n m = false) (node_set l')
  end.

(** [g.get_node_by_name(id)]: by node name, else by the node part of an
    edge id; [None] when there is none. *)
Definition get_node_by_name (g : Graph) (id : string) : option Node :=
  match find (fun n => String.eqb (name n) id) (get_nodes g) with
  | Some n => Some n
  | None => find (fun n => String.eqb (name n) (node_name id)) (get_nodes g)
  end.

Definition has_input (id : string) (n : Node) : bool :=
  existsb (String.eqb id) (input n).
(** [g.find_output_consumers(id)] *)
Definition find_output_consumers (g : Graph) (id : string) : list Node :=
  filter (fun n => has_input id n = true) (get_nodes g).

Definition replace_input (old new : string) (n : Node) : Node :=
  mkNode (name n) (type n)
         (map (fun i => if String.eqb i old then new else i) (input n))
         (output n) (attr n).
(** [g.replace_all_inputs(ops, old, new)], where [ops] are the nodes of the
    graph selected by [sel]: their inputs are rewired in place. *)
Definition replace_all_inputs (sel : Node -> bool) (old new : string) (g : Graph) : Graph :=
  set_nodes (map (fun n => if sel n then replace_input old new n else n) (get_nodes g)) g.

Definition is_tensor_array_gather_op (n : Node) : bool :=
  String.eqb (type n) "TensorArrayGatherV3".
Definition is_tensor_array_write_op (n : Node) : bool :=
  String.eqb (type n) "TensorArrayWriteV3".

(** ** Loop context *)

(** Modelled from the spec: the LoopVariable of the loop scaffolding
    collaborator [tf2onnx.rewriter.loop_rewriter_base] ("entry-point edge
    name, pre-loop initial value edge, per-iteration current-value edge,
    per-iteration next-value edge, post-loop exit edge (optional), and a
    flag marking it as an array-accumulator"). *)
Record LoopVariable : Type := mkLoopVariable {
  enter_name : string;
  enter_input_id : string;
  next_iteration_input_id : string;
  switch_true_identity_output_id : string;
  exit_output_id : option string;
  is_tensor_array : bool;
  ta_index_id : option string
}.

Definition set_enter_input_id (x : string) (v : LoopVariable) : LoopVariable :=
  mkLoopVariable (enter_name v) x (next_iteration_input_id v)
    (switch_true_identity_output_id v) (exit_output_id v) (is_tensor_array v)
    (ta_index_id v).
Definition set_next_iteration_input_id (x : string) (v : LoopVariable) : LoopVariable :=
  mkLoopVariable (enter_name v) (enter_input_id v) x
    (switch_true_identity_output_id v) (exit_output_id v) (is_tensor_array v)
    (ta_index_id v).

Record TensorArrayProp : Type := mkTensorArrayProp {
  index_input_id : option string;
  data_input_id : string;
  output_id : option string
}.

Record ScanProperties : Type := mkScanProperties {
  initial_state_and_scan_inputs : list string;
  loop_state_inputs : list string;
  loop_state_outputs : list string;
  loop_scan_inputs : list string;
  loop_scan_outputs : list string
}.

(** [CustomRnnContext]: the first two fields are those of the base class
    [Context], filled in by the loop scaffolding collaborator; the others
    start as [CustomRnnContext.__init__] sets them.  A loop variable stored
    in [time_var], [iteration_var] or [other_loop_vars] is the object held
    by [loop_variables]; it is copied here, and [loop_variables] is not
    read again after a stored variable is changed. *)
Record CustomRnnContext : Type := mkContext {
  while_context_scope : string;
  loop_variables : list (string * LoopVariable);
  other_loop_vars : list (string * LoopVariable);
  rnn_scope : option string;
  output_tas : list TensorArrayProp;
  input_tas : list TensorArrayProp;
  time_var : option LoopVariable;
  iteration_var : option LoopVariable
}.

Definition create_context (scope : string) (vars : list (string * LoopVariable))
  : CustomRnnContext :=
  mkContext scope vars [] None [] [] None None.

Definition set_other_loop_vars (x : list (string * LoopVariable)) (c : CustomRnnContext) :=
  mkContext (while_context_scope c) (loop_variables c) x (rnn_scope c)
    (output_tas c) (input_tas c) (time_var c) (iteration_var c).
Definition set_rnn_scope (x : option string) (c : CustomRnnContext) :=
  mkContext (while_context_scope c) (loop_variables c) (other_loop_vars c) x
    (output_tas c) (input_tas c) (time_var c) (iteration_var c).
Definition set_output_tas (x : list TensorArrayProp) (c : CustomRnnContext) :=
  mkContext (while_context_scope c) (loop_variables c) (other_loop_vars c)
    (rnn_scope c) x (input_tas c) (time_var c) (iteration_var c).
Definition set_input_tas (x : list TensorArrayProp) (c : CustomRnnContext) :=
  mkContext (while_context_scope c) (loop_variables c) (other_loop_vars c)
    (rnn_scope c) (output_tas c) x (time_var c) (iteration_var c).
Definition set_time_var (x : option LoopVariable) (c : CustomRnnContext) :=
  mkContext (while_context_scope c) (loop_variables c) (other_loop_vars c)
    (rnn_scope c) (output_tas c) (input_tas c) x (iteration_var c).
Definition set_iteration_var (x : option LoopVariable) (c : CustomRnnContext) :=
  mkContext (while_context_scope c) (loop_variables c) (other_loop_vars c)
    (rnn_scope c) (output_tas c) (input_tas c) (time_var c) x.

(** ** The mutable world of one rewriter *)

Record World : Type := mkWorld {
  g : Graph;
  context : CustomRnnContext;
  INTERNAL_NAME : nat
}.

Definition modify_g (f : Graph -> Graph) : M World unit :=
  modify (fun w => mkWorld (f (g w)) (context w) (INTERNAL_NAME w)).
Definition modify_context (f : CustomRnnContext -> CustomRnnContext) : M World unit :=
  modify (fun w => mkWorld (g w) (f (context w)) (INTERNAL_NAME w)).

(** [utils.make_name]: the global counter makes the name unique. *)
Definition name_at (basis : string) (c : nat) : string :=
  basis +:+ "__" +:+ pretty c.
Definition make_name (basis : string) : M World string :=
  fun w => let c := S (INTERNAL_NAME w) in
           (Return (name_at basis c), mkWorld (g w) (context w) c).

(** [utils.port_name] *)
Definition port_name (nm : string) (nr : nat) : string :=
  nm +:+ ":" +:+ pretty nr.

(** Modelled from the spec: [rnn_utils.make_onnx_node], which allocates a
    node under a fresh name ("allocates the replacement operator node"),
    with outputs [name:0 .. name:(output_count-1)]; the name is prefixed by
    [op_name_scope] when one is given. *)
Definition make_onnx_node (op_type : string) (inputs : list string)
    (attrs : list (string * AttributeProto)) (output_count : nat)
    (op_name_scope : option string) : M World Node :=
  let op_name_basis :=
    match op_name_scope with
    | Some sc => sc +:+ "_" +:+ op_type
    | None => op_type
    end in
  nm <- make_name op_name_basis ;;
  ret (mkNode nm op_type inputs (map (port_name nm) (seq 0 output_count)) attrs).

(** Modelled from the spec: [Graph.make_const] ("create constant nodes"):
    the value is recorded in the initializer table under the node's only
    output, which bears the node's name. *)
Definition make_const (nm : string) (np_val : list Z) : M World Node :=
  modify_g (add_initializer nm np_val) ;;;
  ret (mkNode nm "Const" [] [nm] [("value", attr_t np_val)]).

Definition INVLAID_INPUT_ID : string := "invalid:0".

(** Modelled from the spec: one result of the pattern matcher ("return, per
    match, the captured node for each declared pattern name"), for the
    names of [rnn_input_pattern]. *)
Record MatchResult : Type := mkMatchResult {
  ta_read : Node;
  ta_enter : Node;
  ta_scatter_enter : Node;
  ta_input_scatter : Node
}.

(** [SubGraphMetadata] of [rnn_utils]: the frontier of a body graph. *)
Record SubGraphMetadata : Type := mkSubGraphMetadata {
  input_ids : list string;
  output_ids : list string;
  initial_input_ids : list string;
  other_enter_input_ids : list string
}.

Inductive REWRITER_RESULT : Type := SKIP | OK | FAIL.

(** ** The conversion session: a world and the process-wide BodyGraphDict *)

Record Session : Type := mkSession {
  world : World;
  BODY_GRAPH_DICT : gmap string SubGraphMetadata
}.

(** A computation on the world alone leaves the dictionary as it is. *)
Definition lift {A} (m : M World A) : M Session A :=
  fun s => let (r, w) := m (world s) in (r, mkSession w (BODY_GRAPH_DICT s)).

(** Modelled from the spec: [rnn_utils.BodyGraphDict], the Boundary
    Registry ("a mapping from synthesized-operator identity to its
    SubgraphBoundaryMetadata"; "registering twice under the same key is a
    logic error (fail fast)"). *)
Definition has_body_graph_info (body_owner_name : string) : M Session bool :=
  gets (fun s => bool_decide (is_Some (BODY_GRAPH_DICT s !! body_owner_name))).
Definition add_body_graph_info (body_owner_name : string) (body_graph : SubGraphMetadata)
  : M Session unit :=
  fun s => match BODY_GRAPH_DICT s !! body_owner_name with
           | None => (Return tt,
                      mkSession (world s) (<[body_owner_name := body_graph]> (BODY_GRAPH_DICT s)))
           | Some _ => (Raise (ValueError ("body_owner_name " +:+ body_owner_name +:+
                                           " already exists as cell graph owner")), s)
           end.
Definition pop_body_graph_info (body_owner_name : string) : M Session SubGraphMetadata :=
  fun s => match BODY_GRAPH_DICT s !! body_owner_name with
           | Some val => (Return val,
                          mkSession (world s) (delete body_owner_name (BODY_GRAPH_DICT s)))
           | None => (Raise (KeyError body_owner_name), s)
           end.

(** ** CustomRnnRewriter *)

Section CustomRnnRewriter.

(** The collaborators whose code lies outside this module: the pattern
    matcher run with [rnn_input_pattern] on a node list, the frontier walk
    [LoopRewriterBase.find_subgraph], and [Graph._extract_sub_graph_nodes]. *)
Variable match_ops : list Node -> list MatchResult.
Variable find_subgraph : SubGraphMetadata -> Graph -> outcome (list Node * list Node).
Variable _extract_sub_graph_nodes : Graph -> option Node -> list Node.

Definition _get_rnn_scope_name (while_scope_name : string) : string :=
  let parts := split "/" while_scope_name in
  join "/" (drop_last2 parts) +:+ "/".

(** The loop of [_parse_rnn_loop]; its local variables are
    [(found_time, is_rnn_out_ta)]. *)
Definition _parse_rnn_loop_body (time_name ta_array_name_prefix iteration_counter_name : string)
    (flags : bool * bool) (item : string * LoopVariable) : M World (bool * bool) :=
  let '(found_time, is_rnn_out_ta) := flags in
  let '(enter_name, val) := item in
  enter_input_node <- gets (fun w => get_node_by_name (g w) (enter_input_id val)) ;;
  if is_tensor_array val then
    n <- from_option AttributeError enter_input_node ;;
    a <- from_option AttributeError (get_attr n "tensor_array_name") ;;
    let ta_name := attr_str a in
    if negb (startswith ta_name ta_array_name_prefix)
    then ret (found_time, false)
    else ret (found_time, is_rnn_out_ta)
  else
    n <- from_option AttributeError enter_input_node ;;
    if String.eqb (name n) time_name then
      modify_context (set_time_var (Some val)) ;;;
      ret (true, is_rnn_out_ta)
    else if String.eqb (name n) iteration_counter_name then
      modify_context (set_iteration_var (Some val)) ;;;
      ret (found_time, is_rnn_out_ta)
    else
      modify_context (fun c => set_other_loop_vars
                                 (assoc_set enter_name val (other_loop_vars c)) c) ;;;
      ret (found_time, is_rnn_out_ta).

Definition _parse_rnn_loop : M World bool :=
  ctx <- gets context ;;
  scope <- from_option TypeError (rnn_scope ctx) ;;
  let time_name := scope +:+ "time" in
  let ta_array_name_prefix := scope +:+ "dynamic_rnn/output_" in
  let iteration_counter_name := while_context_scope ctx +:+ "iteration_counter" in
  flags <- for_fold (loop_variables ctx) (false, true)
             (_parse_rnn_loop_body time_name ta_array_name_prefix iteration_counter_name) ;;
  let '(found_time, is_rnn_out_ta) := flags in
  if negb (found_time && is_rnn_out_ta) then ret false else ret true.

(** [_parse_time_var] only logs; it reads fields of [context.time_var]. *)
Definition _parse_time_var : M World unit :=
  ctx <- gets context ;;
  _ <- from_option AttributeError (time_var ctx) ;;
  ret tt.

(** One iteration of the loop of [_parse_output_ta]. *)
Definition _parse_output_ta_body (item : string * LoopVariable) : M World unit :=
  let loop_var := snd item in
  if negb (is_tensor_array loop_var) then ret tt
  else
    out <- (if truthy (exit_output_id loop_var) then
              exit_consumers <- gets (fun w => find_output_consumers (g w)
                                        (default "" (exit_output_id loop_var))) ;;
              ta_gather_node <- index (filter (fun n => is_tensor_array_gather_op n = true)
                                              exit_consumers) 0 ;;
              o <- index (output ta_gather_node) 0 ;;
              ret (Some o)
            else ret None) ;;
    let output_ta := mkTensorArrayProp (ta_index_id loop_var)
                       (next_iteration_input_id loop_var) out in
    modify_context (fun c => set_output_tas (output_tas c ++ [output_ta]) c).

Definition _parse_output_ta : M World unit :=
  ctx <- gets context ;;
  for_each (loop_variables ctx) _parse_output_ta_body.

Definition _parse_input_ta : M World unit :=
  nodes <- gets (fun w => get_nodes (g w)) ;;
  ctx <- gets context ;;
  scope <- from_option TypeError (rnn_scope ctx) ;;
  let match_results := match_ops nodes in
  let match_results :=
    filter (fun r => startswith (name (ta_input_scatter r)) scope = true) match_results in
  for_each match_results (fun mr =>
    data <- index (input (ta_input_scatter mr)) 2 ;;
    let ta_read_node := ta_read mr in
    idx <- index (input ta_read_node) 1 ;;
    out <- index (output (ta_read mr)) 0 ;;
    let input_ta := mkTensorArrayProp (Some idx) data (Some out) in
    input_shape <- gets (fun w => get_shape (g w) data) ;;
    output_shape <- gets (fun w => get_shape (g w) out) ;;
    match output_shape, input_shape with
    | None, Some s => modify_g (set_shape out (Some (slice1 s)))
    | _, _ => ret tt
    end ;;;
    modify_context (fun c => set_input_tas (input_tas c ++ [input_ta]) c)).

Definition is_empty {A} (l : list A) : bool :=
  match l with [] => true | _ => false end.

Definition need_rewrite : M World bool :=
  modify_context (fun c => set_rnn_scope (Some (_get_rnn_scope_name (while_context_scope c))) c) ;;;
  ok <- _parse_rnn_loop ;;
  if negb ok then ret false
  else
    _parse_time_var ;;;
    _parse_output_ta ;;;
    _parse_input_ta ;;;
    ctx <- gets context ;;
    if negb (negb (is_empty (input_tas ctx)) || negb (is_empty (output_tas ctx)))
    then ret false
    else ret true.

Definition shape_of (id : string) : M World (option (list Z)) :=
  gets (fun w => get_shape (g w) id).
Definition dtype_of (id : string) : M World (option Z) :=
  gets (fun w => get_dtype (g w) id).
Definition all_nodes_sel : Node -> bool := fun _ => true.

Definition _cut_off_connection_for_cell : M World (list (option Node)) :=
  ctx <- gets context ;;
  let all_vars := time_var ctx :: map (fun kv => Some (snd kv)) (other_loop_vars ctx) in
  nodes_to_remove <- for_fold all_vars [] (fun nodes_to_remove v =>
    val <- from_option AttributeError v ;;
    n <- gets (fun w => get_node_by_name (g w) (switch_true_identity_output_id val)) ;;
    modify_g (replace_all_inputs (fun n => String.eqb (type n) "NextIteration")
                (next_iteration_input_id val) INVLAID_INPUT_ID) ;;;
    ret (nodes_to_remove ++ [n])) ;;
  nodes_to_remove <- for_fold (input_tas ctx) nodes_to_remove (fun nodes_to_remove input_ta =>
    n <- gets (fun w => match output_id input_ta with
                        | Some o => get_node_by_name (g w) o
                        | None => None
                        end) ;;
    ret (nodes_to_remove ++ [n])) ;;
  for_each (output_tas ctx) (fun output_ta =>
    modify_g (replace_all_inputs is_tensor_array_write_op
                (data_input_id output_ta) INVLAID_INPUT_ID)) ;;;
  ret nodes_to_remove.

Definition maxsize : Z := 9223372036854775807.

Definition _adapt_scan_sequence_input_or_output (target_name input_id : string)
    (handle_output : bool) : M World (list Node) :=
  shape_node <- make_onnx_node "Shape" [input_id] [] 1 None ;;
  let nodes_to_add := [shape_node] in
  inferred_shape <- shape_of input_id ;;
  r <- (if handle_output then
          r1 <- (match inferred_shape with
                 | Some s =>
                     if bool_decide (count (-1) (slice1 s) <= 1)%nat then
                       nm <- make_name (target_name +:+ "_target_shape") ;;
                       new_shape_node <- make_const nm (slice1 s) ;;
                       ret (new_shape_node, nodes_to_add)
                     else
                       so <- index (output shape_node) 0 ;;
                       origin_shape_node <- make_onnx_node "Cast" [so] [("to", attr_i FLOAT)] 1 None ;;
                       oo <- index (output origin_shape_node) 0 ;;
                       sliced_shape_node <- make_onnx_node "Slice" [oo]
                                              [("axes", attr_ints [0]); ("starts", attr_ints [1]);
                                               ("ends", attr_ints [maxsize])] 1 None ;;
                       sl <- index (output sliced_shape_node) 0 ;;
                       new_shape_node <- make_onnx_node "Cast" [sl] [("to", attr_i INT64)] 1 None ;;
                       ret (new_shape_node,
                            nodes_to_add ++ [origin_shape_node; sliced_shape_node; new_shape_node])
                 | None =>
                     so <- index (output shape_node) 0 ;;
                     origin_shape_node <- make_onnx_node "Cast" [so] [("to", attr_i FLOAT)] 1 None ;;
                     oo <- index (output origin_shape_node) 0 ;;
                     sliced_shape_node <- make_onnx_node "Slice" [oo]
                                            [("axes", attr_ints [0]); ("starts", attr_ints [1]);
                                             ("ends", attr_ints [maxsize])] 1 None ;;
                     sl <- index (output sliced_shape_node) 0 ;;
                     new_shape_node <- make_onnx_node "Cast" [sl] [("to", attr_i INT64)] 1 None ;;
                     ret (new_shape_node,
                          nodes_to_add ++ [origin_shape_node; sliced_shape_node; new_shape_node])
                 end) ;;
          s <- from_option TypeError inferred_shape ;;
          ret (r1, slice1 s)
        else
          r1 <- (match inferred_shape with
                 | Some s =>
                     if bool_decide (count (-1) s <= 1)%nat then
                       nm <- make_name (target_name +:+ "_target_shape") ;;
                       new_shape_node <- make_const nm (1 :: s) ;;
                       ret (new_shape_node, nodes_to_add)
                     else
                       nm <- make_name (target_name +:+ "_target_shape") ;;
                       fake_batch_size_node <- make_const nm [1] ;;
                       fo <- index (output fake_batch_size_node) 0 ;;
                       so <- index (output shape_node) 0 ;;
                       new_shape_node <- make_onnx_node "Concat" [fo; so] [("axis", attr_i 0)] 1 None ;;
                       ret (new_shape_node, nodes_to_add ++ [new_shape_node])
                 | None =>
                     nm <- make_name (target_name +:+ "_target_shape") ;;
                     fake_batch_size_node <- make_const nm [1] ;;
                     fo <- index (output fake_batch_size_node) 0 ;;
                     so <- index (output shape_node) 0 ;;
                     new_shape_node <- make_onnx_node "Concat" [fo; so] [("axis", attr_i 0)] 1 None ;;
                     ret (new_shape_node, nodes_to_add ++ [new_shape_node])
                 end) ;;
          s <- from_option TypeError inferred_shape ;;
          ret (r1, 1 :: s)) ;;
  let new_shape_node := fst (fst r) in
  let nodes_to_add := snd (fst r) in
  let new_shape := snd r in
  no <- index (output new_shape_node) 0 ;;
  reshape_node <- make_onnx_node "Reshape" [input_id; no] [] 1 (Some target_name) ;;
  let nodes_to_add := nodes_to_add ++ [reshape_node] in
  ro <- index (output reshape_node) 0 ;;
  modify_g (set_shape ro (Some new_shape)) ;;;
  d <- dtype_of input_id ;;
  modify_g (set_dtype ro d) ;;;
  ret nodes_to_add.

Definition _create_unsqueeze_node (target_name input_id : string) : M World Node :=
  unsqueeze_node <- make_onnx_node "Unsqueeze" [input_id] [("axes", attr_ints [0])] 1
                      (Some target_name) ;;
  input_shape <- shape_of input_id ;;
  match input_shape with
  | None => raise (ValueError (input_id +:+ " is none"))
  | Some s =>
      let input_shape := 1 :: s in
      o <- index (output unsqueeze_node) 0 ;;
      modify_g (set_shape o (Some input_shape)) ;;;
      d <- dtype_of input_id ;;
      modify_g (set_dtype o d) ;;;
      ret unsqueeze_node
  end.

Definition _create_squeeze_node (target_name input_id : string) : M World Node :=
  squeeze_node <- make_onnx_node "Squeeze" [input_id] [("axes", attr_ints [0])] 1
                    (Some target_name) ;;
  input_shape <- shape_of input_id ;;
  match input_shape with
  | None => raise (ValueError (input_id +:+ " is none"))
  | Some s =>
      let input_shape := slice1 s in
      o <- index (output squeeze_node) 0 ;;
      modify_g (set_shape o (Some input_shape)) ;;;
      d <- dtype_of input_id ;;
      modify_g (set_dtype o d) ;;;
      ret squeeze_node
  end.

(** The variable is changed in place; the changed variable is returned and
    the caller stores it back into the context. *)
Definition _adapt_time_var_as_workaround (var : LoopVariable)
  : M World (LoopVariable * list Node) :=
  time_init_node <- _create_unsqueeze_node "time_var_init" (enter_input_id var) ;;
  o1 <- index (output time_init_node) 0 ;;
  let var := set_enter_input_id o1 var in
  time_output_node <- _create_unsqueeze_node "time_var_output" (next_iteration_input_id var) ;;
  o2 <- index (output time_output_node) 0 ;;
  let var := set_next_iteration_input_id o2 var in
  time_input_node <- _create_squeeze_node "time_var_input" (switch_true_identity_output_id var) ;;
  o3 <- index (output time_input_node) 0 ;;
  modify_g (replace_all_inputs all_nodes_sel (switch_true_identity_output_id var) o3) ;;;
  sh <- shape_of (switch_true_identity_output_id var) ;;
  s <- from_option TypeError sh ;;
  modify_g (set_shape (switch_true_identity_output_id var) (Some (1 :: s))) ;;;
  ret (var, [time_init_node; time_output_node; time_input_node]).

(** [var] is [context.time_var] when [key] is [None], else
    [context.other_loop_vars[key]]. *)
Definition store_var (key : option string) (var : LoopVariable) : M World unit :=
  match key with
  | None => modify_context (set_time_var (Some var))
  | Some k => modify_context (fun c => set_other_loop_vars (assoc_set k var (other_loop_vars c)) c)
  end.

(** One iteration of the loop over the state variables; the loop's
    variables are [(nodes_to_append, loop_state_inputs, loop_state_outputs,
    initial_state_and_scan_inputs)]. *)
Definition compose_state_input
    (acc : list Node * list string * list string * list string)
    (kv : option string * LoopVariable)
  : M World (list Node * list string * list string * list string) :=
  let '(nodes_to_append, loop_state_inputs, loop_state_outputs,
        initial_state_and_scan_inputs) := acc in
  let var := snd kv in
  nodes <- _adapt_scan_sequence_input_or_output "input" (enter_input_id var) false ;;
  lastn <- index_last nodes ;;
  o <- index (output lastn) 0 ;;
  let var := set_enter_input_id o var in
  store_var (fst kv) var ;;;
  ret (nodes_to_append ++ nodes,
       loop_state_inputs ++ [switch_true_identity_output_id var],
       loop_state_outputs ++ [next_iteration_input_id var],
       initial_state_and_scan_inputs ++ [enter_input_id var]).

(** One iteration of the loop over the input arrays; the loop's variables
    are [(nodes_to_append, loop_scan_inputs, initial_state_and_scan_inputs)]
    and the input arrays changed so far.  An input array has its
    [output_id], set by [_parse_input_ta]. *)
Definition compose_scan_input
    (acc : list Node * list string * list string * list TensorArrayProp)
    (input_ta : TensorArrayProp)
  : M World (list Node * list string * list string * list TensorArrayProp) :=
  let '(nodes_to_append, loop_scan_inputs, initial_state_and_scan_inputs, tas) := acc in
  nodes <- _adapt_scan_sequence_input_or_output "input_ta" (data_input_id input_ta) false ;;
  lastn <- index_last nodes ;;
  o <- index (output lastn) 0 ;;
  let input_ta := mkTensorArrayProp (index_input_id input_ta) o (output_id input_ta) in
  out <- from_option TypeError (output_id input_ta) ;;
  ret (nodes_to_append ++ nodes,
       loop_scan_inputs ++ [out],
       initial_state_and_scan_inputs ++ [data_input_id input_ta],
       tas ++ [input_ta]).

Definition _compose_cell_inputs_and_outputs : M World (ScanProperties * list Node) :=
  ctx <- gets context ;;
  tv <- from_option AttributeError (time_var ctx) ;;
  (* change time shape to {1} since current Scan does not support *)
  r <- _adapt_time_var_as_workaround tv ;;
  let time_var := fst r in
  store_var None time_var ;;;
  let nodes_to_append := snd r in
  let vars_to_iterate :=
    (None, time_var) :: map (fun kv => (Some (fst kv), snd kv)) (other_loop_vars ctx) in
  acc <- for_fold vars_to_iterate (nodes_to_append, [], [], []) compose_state_input ;;
  let '(nodes_to_append, loop_state_inputs, loop_state_outputs,
        initial_state_and_scan_inputs) := acc in
  acc <- for_fold (input_tas ctx) (nodes_to_append, [], initial_state_and_scan_inputs, [])
                  compose_scan_input ;;
  let '(nodes_to_append, loop_scan_inputs, initial_state_and_scan_inputs, tas) := acc in
  modify_context (set_input_tas tas) ;;;
  let loop_scan_outputs := map data_input_id (output_tas ctx) in
  let scan_props := mkScanProperties initial_state_and_scan_inputs loop_state_inputs
                      loop_state_outputs loop_scan_inputs loop_scan_outputs in
  ret (scan_props, nodes_to_append).

(** One iteration of the loop over the other state variables of
    [_create_scan_node]; the loop's variable is [index]. *)
Definition set_state_output (scan_node : Node) (state_input_shape : option (list Z))
    (state_input_dtype : option Z) (idx : nat) (i : nat) : M World nat :=
  o <- index (output scan_node) idx ;;
  modify_g (set_shape o state_input_shape) ;;;
  modify_g (set_dtype o state_input_dtype) ;;;
  ret (S idx).

(** One iteration of the loop over the output arrays of
    [_create_scan_node]; the loop's variable is [index]. *)
Definition set_scan_output (scan_node : Node) (scan_props : ScanProperties)
    (batch time : Z) (idx : nat) (i : nat) : M World nat :=
  e <- index (loop_scan_outputs scan_props) i ;;
  scan_out_dtype <- dtype_of e ;;
  output_shape <- shape_of e ;;
  os <- from_option TypeError output_shape ;;
  let scan_output_shape := [batch; time] ++ os in
  o <- index (output scan_node) idx ;;
  modify_g (set_shape o (Some scan_output_shape)) ;;;
  modify_g (set_dtype o scan_out_dtype) ;;;
  ret (S idx).

Definition _create_scan_node (scan_props : ScanProperties) : M World Node :=
  (* here we did not give the sequence_length, because
     current batch size is 1, not original batch size
     original seq_length will be used by the loop body of Scan op. *)
  scan_node <- make_onnx_node "Scan" ("" :: initial_state_and_scan_inputs scan_props)
                 [("num_scan_inputs", attr_i (Z.of_nat (length (loop_scan_inputs scan_props))))]
                 (length (loop_state_outputs scan_props ++ loop_scan_outputs scan_props))
                 None ;;
  (* the first state var is time-iterator. *)
  let index0 := 0%nat in
  i1 <- index (input scan_node) 1 ;;
  time_input_shape <- shape_of i1 ;;
  time_input_dtype <- dtype_of i1 ;;
  o0 <- index (output scan_node) index0 ;;
  modify_g (set_shape o0 time_input_shape) ;;;
  modify_g (set_dtype o0 time_input_dtype) ;;;
  let index1 := S index0 in
  (* for other state vars *)
  i2 <- index (input scan_node) 2 ;;
  state_input_shape <- shape_of i2 ;;
  state_input_dtype <- dtype_of i2 ;;
  index2 <- for_fold (seq 0 (length (loop_state_outputs scan_props) - 1)) index1
              (set_state_output scan_node state_input_shape state_input_dtype) ;;
  il <- index_last (input scan_node) ;;
  last_scan_input_shape <- shape_of il ;;
  ls <- from_option TypeError last_scan_input_shape ;;
  batch <- index ls 0 ;; (* should be 1 *)
  time <- index ls 1 ;;
  _ <- for_fold (seq 0 (length (loop_scan_outputs scan_props))) index2
         (set_scan_output scan_node scan_props batch time) ;;
  ret scan_node.

Definition _extract_and_register_cell_graph_info (scan_props : ScanProperties)
    (scan_node : Node) : M Session (list Node) :=
  let sub_graph_inputs := loop_state_inputs scan_props ++ loop_scan_inputs scan_props in
  let sub_graph_outputs := loop_state_outputs scan_props ++ loop_scan_outputs scan_props in
  let body_graph_meta := mkSubGraphMetadata sub_graph_inputs sub_graph_outputs
                           (initial_state_and_scan_inputs scan_props) [] in
  (* according to input and output, find the body graph *)
  r <- lift (fun w => (find_subgraph body_graph_meta (g w), w)) ;;
  let nodes := fst r in
  let enter_nodes := snd r in
  acc <- lift (for_fold enter_nodes (nodes, [])
    (fun (acc : list Node * list string) enter_node =>
       (* connect Enter's output to Enter's input *)
       eo <- index (output enter_node) 0 ;;
       ei <- index (input enter_node) 0 ;;
       modify_g (replace_all_inputs all_nodes_sel eo ei) ;;;
       nodes <- gets (fun w => _extract_sub_graph_nodes (g w) (get_node_by_name (g w) ei)) ;;
       ret (nodes, snd acc ++ [ei]))) ;;
  let body_graph_meta := mkSubGraphMetadata sub_graph_inputs sub_graph_outputs
                           (initial_state_and_scan_inputs scan_props) (snd acc) in
  add_body_graph_info (name scan_node) body_graph_meta ;;;
  ret (fst acc).

(** One iteration of either loop of [_connect_scan_with_output], for the
    exit edge [out_id] of a state variable or of an output array; the
    loops' variables are [(index, nodes_to_append)]. *)
Definition connect_output (target_name : string) (scan_node : Node)
    (acc : nat * list Node) (out_id : option string) : M World (nat * list Node) :=
  nodes_to_append <-
    (if truthy out_id then
       so <- index (output scan_node) (fst acc) ;;
       nodes <- _adapt_scan_sequence_input_or_output target_name so true ;;
       lastn <- index_last nodes ;;
       lo <- index (output lastn) 0 ;;
       modify_g (replace_all_inputs all_nodes_sel (default "" out_id) lo) ;;;
       ret (snd acc ++ nodes)
     else ret (snd acc)) ;;
  ret (S (fst acc), nodes_to_append).

Definition _connect_scan_with_output (scan_node : Node) : M World (list Node) :=
  ctx <- gets context ;;
  (* ignore the 1st input (time-iterator) *)
  acc <- for_fold (map (fun kv => exit_output_id (snd kv)) (other_loop_vars ctx))
                  (1%nat, [])
                  (connect_output "state_output_reshape" scan_node) ;;
  acc <- for_fold (map output_id (output_tas ctx)) acc
                  (connect_output "scan_output_reshape" scan_node) ;;
  ret (snd acc).

(** [for n in set(to_remove): if n in all_nodes: all_nodes.remove(n)];
    a [None] in [to_remove] is never a member of the node list. *)
Definition remove_present (to_remove : list (option Node)) (all_nodes : list Node)
  : list Node :=
  fold_left (fun ns n => if node_in n ns then remove_node n ns else ns)
            (node_set (omap id to_remove)) all_nodes.

(** The [try] block of [rewrite] up to the assignment of [scan_node] ... *)
Definition rewrite_until_scan_node : M Session (ScanProperties * list Node * Node) :=
  lift (
    to_remove <- _cut_off_connection_for_cell ;;
    modify_g (fun gr => set_nodes (remove_present to_remove (get_nodes gr)) gr) ;;;
    r <- _compose_cell_inputs_and_outputs ;;
    scan_node <- _create_scan_node (fst r) ;;
    ret (fst r, snd r, scan_node)).

(** ... and after it.  A [Node] object is always true, so the
    [if not scan_node] test never returns [FAIL]. *)
Definition rewrite_after_scan_node (scan_props : ScanProperties)
    (nodes_to_append : list Node) (scan_node : Node) : M Session REWRITER_RESULT :=
  let nodes_to_append := nodes_to_append ++ [scan_node] in
  _ <- _extract_and_register_cell_graph_info scan_props scan_node ;;
  to_append <- lift (_connect_scan_with_output scan_node) ;;
  let nodes_to_append := nodes_to_append ++ to_append in
  lift (modify_g (fun gr => set_nodes (get_nodes gr ++ nodes_to_append) gr)) ;;;
  ret OK.

(** The [except Exception] handler, with the local [scan_node] as it was
    when the exception was raised. *)
Definition rewrite_except (scan_node : option Node) : M Session REWRITER_RESULT :=
  match scan_node with
  | Some n =>
      has <- has_body_graph_info (name n) ;;
      (if has then _ <- pop_body_graph_info (name n) ;; ret tt else ret tt) ;;;
      ret FAIL
  | None => ret FAIL
  end.

(** The try block as a whole: its outcome and the value of the local
    [scan_node] when it ended. *)
Definition rewrite_try (s : Session) : outcome REWRITER_RESULT * option Node * Session :=
  match rewrite_until_scan_node s with
  | (Raise e, s1) => (Raise e, None, s1)
  | (Return (scan_props, nodes_to_append, scan_node), s1) =>
      match rewrite_after_scan_node scan_props nodes_to_append scan_node s1 with
      | (r, s2) => (r, Some scan_node, s2)
      end
  end.

Definition rewrite : M Session REWRITER_RESULT :=
  fun s => match rewrite_try s with
           | (Return r, _, s') => (Return r, s')
           | (Raise _, scan_node, s') => rewrite_except scan_node s'
           end.

End CustomRnnRewriter.

(** ** CustomRnnLateRewriter *)

Section CustomRnnLateRewriter.

(** The collaborators: the frontier walk [LoopRewriterBase.find_subgraph]
    and [Graph.topological_sort]. *)
Variable find_subgraph : SubGraphMetadata -> Graph -> outcome (list Node * list Node).
Variable topological_sort : list Node -> list Node.

(** Modelled from the spec: [Graph.copy_shape] (part of "get/set per-edge
    shape"): the target takes the source's shape when one is recorded. *)
Definition copy_shape (input_name output_name : string) : M World unit :=
  sh <- shape_of input_name ;;
  match sh with
  | Some s => modify_g (set_shape output_name (Some s))
  | None => ret tt
  end.

(** A node object changed in place is changed in the graph's node list. *)
Definition update_node (n : Node) (ns : list Node) : list Node :=
  map (fun m => if same_node n m then n else m) ns.

Definition is_const (n : Node) : bool :=
  String.eqb (type n) "Const" || String.eqb (type n) "ConstV2".

(** The loop over [const_nodes]; its variables are
    [(body_graph_initializers, onnx_nodes)]. *)
Definition collect_initializers (const_nodes onnx_nodes : list Node)
  : M World (list (string * list Z) * list Node) :=
  for_fold const_nodes ([], onnx_nodes)
    (fun (acc : list (string * list Z) * list Node) n =>
       (* when set nodes, Const should be removed, they need be replaced as initializers. *)
       o <- index (output n) 0 ;;
       v <- gets (fun w => initializers (g w) !! o) ;;
       t <- from_option (KeyError o) v ;;
       ret (assoc_set o t (fst acc), remove_node n (snd acc))).

(** The loop that prepares the body graph inputs; the body graph was made
    over the parent's shape and dtype tables, so it reads them. *)
Definition prepare_inputs (body_graph_meta : SubGraphMetadata) (num_scan_inputs : Z)
  : M World (list (string * option Z * list Z)) :=
  let input_count := Z.of_nat (length (input_ids body_graph_meta)) in
  acc <- for_fold (zip (input_ids body_graph_meta) (initial_input_ids body_graph_meta))
    (0, [])
    (fun (acc : Z * list (string * option Z * list Z)) p =>
       let i := fst acc in
       let input_name := fst p in
       let init_input_id := snd p in
       shape <- shape_of input_name ;;
       dtype <- dtype_of input_name ;;
       loop_input_shape <-
         (match shape with
          | None =>
              shape <- shape_of init_input_id ;;
              s <- from_option TypeError shape ;;
              if Z.geb i (input_count - num_scan_inputs)
              then ret (slice2 s)  (* delete [1, time,] *)
              else ret s
          | Some s => ret s
          end) ;;
       ret (i + 1, snd acc ++ [(input_name, dtype, loop_input_shape)])) ;;
  ret (snd acc).

(** One iteration of the loop that prepares the body graph outputs; its
    variables are [(new_output_names, temp_nodes)].  The tables written are
    the parent's. *)
Definition insert_identity (acc : list string * list Node) (o : string)
  : M World (list string * list Node) :=
  (* insert identity node, since sometimes we need output same output_id
     as state_output and scan_out, but ONNX don't allow the same
     output_id appeared more than once as output node. *)
  identity_name <- make_name "Identity" ;;
  let identity_output := port_name identity_name 0 in
  let node := mkNode identity_name "Identity" [o] [identity_output] [] in
  d <- dtype_of o ;;
  modify_g (set_dtype identity_output d) ;;;
  copy_shape o identity_output ;;;
  ret (fst acc ++ [identity_output], snd acc ++ [node]).

Definition prepare_outputs (output_ids : list string) (temp_nodes : list Node)
  : M World (list string * list Node) :=
  for_fold output_ids ([], temp_nodes) insert_identity.

(** One iteration of the loop over the graph's nodes. *)
Definition late_rewrite_node (nodes_to_remove : list Node) (scan_node : Node)
  : M Session (list Node) :=
  if negb (String.eqb (type scan_node) "Scan") then ret nodes_to_remove
  else
    a <- from_option AttributeError (get_attr scan_node "num_scan_inputs") ;;
    let num_scan_inputs := attr_int a in
    has <- has_body_graph_info (name scan_node) ;;
    if negb has then ret nodes_to_remove
    else
      body_graph_meta <- pop_body_graph_info (name scan_node) ;;
      r <- lift (fun w => (find_subgraph body_graph_meta (g w), w)) ;;
      let onnx_nodes := fst r in
      let nodes_to_remove := nodes_to_remove ++ onnx_nodes in
      let const_nodes := filter (fun n => is_const n = true) onnx_nodes in
      acc <- lift (collect_initializers const_nodes onnx_nodes) ;;
      let body_graph_initializers := fst acc in
      let onnx_nodes := node_set (snd acc) in
      let temp_nodes := onnx_nodes in
      inputs <- lift (prepare_inputs body_graph_meta num_scan_inputs) ;;
      outs <- lift (prepare_outputs (output_ids body_graph_meta) temp_nodes) ;;
      let new_output_names := fst outs in
      let graph := mkGraphProto "scan body graph" (topological_sort (snd outs))
                     inputs new_output_names body_graph_initializers in
      lift (modify_g (fun gr =>
              set_nodes (update_node (set_attr scan_node "body" (attr_g graph))
                                     (get_nodes gr)) gr)) ;;;
      ret nodes_to_remove.

(** One iteration of the loop that removes the body graphs' nodes; its
    variable is the list [nodes]. *)
Definition purge_node (nodes : list Node) (n : Node) : M World (list Node) :=
  if node_in n nodes then ret (remove_node n nodes)
  else
    o <- index (output n) 0 ;;
    isi <- gets (fun w => is_initializer (g w) o) ;;
    if isi then modify_g (del_initializer o) ;;; ret nodes
    else raise (ValueError "error when removing nodes").

(** [CustomRnnLateRewriter.rewrite]: it returns the node list, which its
    caller installs in the graph. *)
Definition late_rewrite : M Session (list Node) :=
  nodes <- lift (gets (fun w => get_nodes (g w))) ;;
  nodes_to_remove <- for_fold nodes [] late_rewrite_node ;;
  nodes <- lift (gets (fun w => get_nodes (g w))) ;;
  (* remove nodes in body graph from g *)
  lift (for_fold (node_set nodes_to_remove) nodes purge_node).

End CustomRnnLateRewriter.

(** ** Running a computation *)

Definition run {S A} (m : M S A) (s : S) : outcome A * S := m s.

(** The world of a candidate loop handed to [need_rewrite]: a context made
    by [create_context], with the base-class fields filled in. *)
Definition candidate (gr : Graph) (scope : string) (vars : list (string * LoopVariable))
    (counter : nat) : World :=
  mkWorld gr (create_context scope vars) counter.



(** ** Test graphs *)

Definition nd (nm ty : string) (i o : list string) : Node := mkNode nm ty i o [].

Definition n_time := nd "rnn/time" "Const" [] ["rnn/time:0"].
Definition n_h0 := nd "h0" "Placeholder" [] ["h0:0"].
Definition n_c0 := nd "c0" "Placeholder" [] ["c0:0"].
Definition n_x := nd "x" "Placeholder" [] ["x:0"].
Definition n_ta :=
  mkNode "rnn/TensorArray" "TensorArrayV3" [] ["rnn/TensorArray:0"; "rnn/TensorArray:1"]
         [("tensor_array_name", attr_s "rnn/dynamic_rnn/output_0")].
Definition n_id_t :=
  nd "rnn/while/Identity" "Identity" ["rnn/while/Switch:1"] ["rnn/while/Identity:0"].
Definition n_id_h :=
  nd "rnn/while/Identity_2" "Identity" ["rnn/while/Switch_2:1"] ["rnn/while/Identity_2:0"].
Definition n_id_c :=
  nd "rnn/while/Identity_3" "Identity" ["rnn/while/Switch_3:1"] ["rnn/while/Identity_3:0"].
Definition n_add :=
  nd "rnn/while/add" "Add" ["rnn/while/Identity:0"; "one:0"] ["rnn/while/add:0"].
Definition n_read :=
  nd "rnn/while/read" "TensorArrayReadV3"
     ["rnn/while/ta_enter:0"; "rnn/while/Identity:0"; "rnn/while/sc_enter:0"]
     ["rnn/while/read:0"].
Definition n_scatter :=
  nd "rnn/dynamic_rnn/input_0/scatter" "TensorArrayScatterV3"
     ["h:0"; "idx:0"; "x:0"; "f:0"] ["rnn/dynamic_rnn/input_0/scatter:0"].
Definition n_cell :=
  nd "rnn/while/cell" "Cell" ["rnn/while/read:0"; "rnn/while/Identity_2:0"]
     ["rnn/while/cell:0"].
Definition n_cell2 :=
  nd "rnn/while/cell2" "Cell" ["rnn/while/Identity_3:0"] ["rnn/while/cell2:0"].
Definition n_write :=
  nd "rnn/while/write" "TensorArrayWriteV3"
     ["e:0"; "rnn/while/Identity:0"; "rnn/while/cell:0"; "fl:0"] ["rnn/while/write:0"].
Definition n_ni_t :=
  nd "rnn/while/NextIteration" "NextIteration" ["rnn/while/add:0"]
     ["rnn/while/NextIteration:0"].
Definition n_ni_h :=
  nd "rnn/while/NextIteration_2" "NextIteration" ["rnn/while/cell:0"]
     ["rnn/while/NextIteration_2:0"].
Definition n_ni_c :=
  nd "rnn/while/NextIteration_3" "NextIteration" ["rnn/while/cell2:0"]
     ["rnn/while/NextIteration_3:0"].
Definition n_gather :=
  nd "rnn/gather" "TensorArrayGatherV3"
     ["rnn/TensorArray:0"; "r:0"; "rnn/while/Exit_1:0"] ["rnn/gather:0"].
Definition n_final := nd "final_out" "Identity" ["rnn/gather:0"] ["final_out:0"].
Definition n_hout := nd "h_out" "Identity" ["rnn/while/Exit_2:0"] ["h_out:0"].

Definition test_shapes : gmap string (option (list Z)) :=
  list_to_map [("rnn/time:0", Some []); ("h0:0", Some [3]); ("c0:0", Some [5]);
               ("x:0", Some [10; 4]); ("rnn/while/Identity:0", Some []);
               ("rnn/while/add:0", Some []); ("rnn/while/cell:0", Some [3]);
               ("rnn/while/cell2:0", Some [5])].
Definition test_dtypes : gmap string (option Z) :=
  list_to_map [("rnn/time:0", Some 6); ("h0:0", Some 1); ("c0:0", Some 11);
               ("x:0", Some 1); ("rnn/while/Identity:0", Some 6);
               ("rnn/while/add:0", Some 6); ("rnn/while/cell:0", Some 1);
               ("rnn/while/cell2:0", Some 11)].

Definition v_time :=
  mkLoopVariable "rnn/while/Enter" "rnn/time:0" "rnn/while/add:0"
                 "rnn/while/Identity:0" None false None.
Definition v_ta :=
  mkLoopVariable "rnn/while/Enter_1" "rnn/TensorArray:1" "rnn/while/cell:0"
                 "rnn/while/Identity_1:0" (Some "rnn/while/Exit_1:0") true
                 (Some "rnn/while/Identity:0").
Definition v_h :=
  mkLoopVariable "rnn/while/Enter_2" "h0:0" "rnn/while/cell:0"
                 "rnn/while/Identity_2:0" (Some "rnn/while/Exit_2:0") false None.
Definition v_c :=
  mkLoopVariable "rnn/while/Enter_3" "c0:0" "rnn/while/cell2:0"
                 "rnn/while/Identity_3:0" None false None.

(** A [dynamic_rnn] loop with the time variable, two state variables of
    different shape and type, one input array and one output array. *)
Definition rnn_graph : Graph :=
  mkGraph [n_time; n_h0; n_c0; n_x; n_ta; n_id_t; n_id_h; n_id_c; n_add; n_read;
           n_scatter; n_cell; n_cell2; n_write; n_ni_t; n_ni_h; n_ni_c; n_gather;
           n_final; n_hout]
          test_shapes test_dtypes ∅.
Definition rnn_vars : list (string * LoopVariable) :=
  [("rnn/while/Enter", v_time); ("rnn/while/Enter_1", v_ta);
   ("rnn/while/Enter_2", v_h); ("rnn/while/Enter_3", v_c)].
Definition rnn_matcher (ns : list Node) : list MatchResult :=
  [mkMatchResult n_read n_read n_read n_scatter].
Definition rnn_find_subgraph (m : SubGraphMetadata) (gr : Graph)
  : outcome (list Node * list Node) :=
  Return ([n_cell; n_cell2; n_add], []).
Definition no_extract (gr : Graph) (n : option Node) : list Node := [].
Definition no_matcher (ns : list Node) : list MatchResult := [].

(** The same loop once classified by [need_rewrite]. *)
Definition rnn_classified : World :=
  snd (run (need_rewrite rnn_matcher) (candidate rnn_graph "rnn/while/" rnn_vars 0)).

(** A loop with a time variable and a state variable, and no arrays. *)
Definition plain_graph : Graph :=
  mkGraph [n_time; n_h0; n_id_t; n_id_h; n_add; n_ni_t; n_ni_h; n_hout]
          test_shapes test_dtypes ∅.
Definition plain_vars : list (string * LoopVariable) :=
  [("rnn/while/Enter", v_time); ("rnn/while/Enter_2", v_h)].

Definition peek_vars : list (string * LoopVariable) :=
  [("rnn/while/Enter", v_time); ("rnn/while/Enter_1", v_ta)].


(** The candidate once [need_rewrite] has set its scope. *)
Definition scoped_candidate (gr : Graph) (scope : string)
    (vars : list (string * LoopVariable)) (counter : nat) : World :=
  mkWorld gr (set_rnn_scope (Some (_get_rnn_scope_name scope)) (create_context scope vars))
          counter.

(** The caller of the late rewriter installs the node list it returns. *)
Definition install_nodes (ns : list Node) (s : Session) : Session :=
  mkSession (mkWorld (set_nodes ns (g (world s))) (context (world s))
                     (INTERNAL_NAME (world s)))
            (BODY_GRAPH_DICT s).

(** A pass-through Identity node renames the edge [o] in a node list. *)
Definition renamed (o : string) (nodes : list Node) : Prop :=
  exists n, n ∈ nodes /\ type n = "Identity" /\ input n = [o].

(** The edge [o] appears more than once among the declared outputs. *)
Definition duplicated (o : string) (ids : list string) : Prop :=
  (1 < length (filter (fun i => i = o) ids))%nat.

(** The Identity nodes made for the declared outputs [ids] when the name
    counter stands at [c]. *)
Definition identity_node (c : nat) (o : string) : Node :=
  mkNode (name_at "Identity" c) "Identity" [o] [port_name (name_at "Identity" c) 0] [].
Definition identity_nodes (c : nat) (ids : list string) : list Node :=
  imap (fun i o => identity_node (c + 1 + i) o) ids.

(** The test loop in a session with an empty registry, and in one where an
    entry already stands under the name the Scan node will get. *)
Definition rnn_session : Session := mkSession rnn_classified ∅.
Definition rnn_session_taken : Session :=
  mkSession rnn_classified {[ "Scan__16" := mkSubGraphMetadata [] [] [] [] ]}.

(** The session after the rewrite of the test loop. *)
Definition rnn_rewritten : Session :=
  snd (rewrite_try rnn_find_subgraph no_extract rnn_session).

Definition no_sort (ns : list Node) : list Node := ns.



(** The mark [__] that [utils.make_name] puts before the counter: a name
    without it is a name of the original graph, not a generated one. *)
Fixpoint has_counter_mark (s : string) : bool :=
  match s with
  | EmptyString => false
  | String a s' =>
      (Ascii.eqb a "_" && match s' with
                          | String b _ => Ascii.eqb b "_"
                          | EmptyString => false
                          end)
      || has_counter_mark s'
  end.

(** The late pass on the rewritten test loop, and the node list it
    returns. *)
Definition rnn_late : outcome (list Node) * Session :=
  run (late_rewrite rnn_find_subgraph no_sort) rnn_rewritten.
Definition rnn_late_nodes : list Node :=
  match fst rnn_late with
  | Return ns => ns
  | Raise _ => []
  end.

(** ** Relations between states used in the proofs *)

(** Two worlds that differ at most in the classification fields of the
    context. *)
Definition same_candidate (w w' : World) : Prop :=
  g w' = g w /\ INTERNAL_NAME w' = INTERNAL_NAME w /\
  while_context_scope (context w') = while_context_scope (context w) /\
  loop_variables (context w') = loop_variables (context w) /\
  rnn_scope (context w') = rnn_scope (context w) /\
  output_tas (context w') = output_tas (context w) /\
  input_tas (context w') = input_tas (context w).


(** The graph's node list is the same in both worlds. *)
Definition same_nodes (w w' : World) : Prop :=
  get_nodes (g w') = get_nodes (g w).

(** A Scan node that the late pass leaves alone: it bears its
    [num_scan_inputs] and has no registered boundary. *)
Definition settled (d : gmap string SubGraphMetadata) (x : Node) : Prop :=
  type x = "Scan" ->
  is_Some (get_attr x "num_scan_inputs") /\ d !! name x = None.

(** A node of the graph after some iterations of the pass: as it was, or
    one of the visited Scan nodes with its body attached. *)
Definition evolves (l : list Node) (m m' : Node) : Prop :=
  m' = m \/
  exists x gp, x ∈ l /\ type x = "Scan" /\ is_Some (get_attr x "num_scan_inputs") /\
               m' = set_attr x "body" (attr_g gp).

Definition chars (s : string) : list ascii := String.list_ascii_of_string s.

Definition is_digit (a : ascii) : Prop :=
  a ∈ ["0"; "1"; "2"; "3"; "4"; "5"; "6"; "7"; "8"; "9"]%char.

(** An edge name generated after the name counter stood at [c0]. *)
Definition generated_after (c0 : nat) (n : string) : Prop :=
  exists b c p, (c0 < c)%nat /\ n = port_name (name_at b c) p.

(** From [w] to [w'] the name counter has not gone back, and the shape and
    dtype tables have changed at most at edge names generated in between. *)
Definition extends (w w' : World) : Prop :=
  (INTERNAL_NAME w <= INTERNAL_NAME w')%nat /\
  forall n, ~ generated_after (INTERNAL_NAME w) n ->
            get_shape (g w') n = get_shape (g w) n /\
            get_dtype (g w') n = get_dtype (g w) n.

(** The test loop with an output array that records the time step itself:
    the value written is the time variable's current value. *)
Definition n_write_time :=
  nd "rnn/while/write" "TensorArrayWriteV3"
     ["e:0"; "rnn/while/Identity:0"; "rnn/while/Identity:0"; "fl:0"] ["rnn/while/write:0"].
Definition v_ta_time :=
  mkLoopVariable "rnn/while/Enter_1" "rnn/TensorArray:1" "rnn/while/Identity:0"
                 "rnn/while/Identity_1:0" (Some "rnn/while/Exit_1:0") true
                 (Some "rnn/while/Identity:0").
Definition stamp_graph : Graph :=
  mkGraph [n_time; n_x; n_ta; n_id_t; n_add; n_read; n_scatter; n_write_time;
           n_ni_t; n_gather; n_final]
          test_shapes test_dtypes ∅.
Definition stamp_vars : list (string * LoopVariable) :=
  [("rnn/while/Enter", v_time); ("rnn/while/Enter_1", v_ta_time)].
Definition stamp_find_subgraph (m : SubGraphMetadata) (gr : Graph)
  : outcome (list Node * list Node) :=
  Return ([n_add], []).
Definition stamp_session : Session :=
  mkSession (snd (run (need_rewrite rnn_matcher)
                      (candidate stamp_graph "rnn/while/" stamp_vars 0))) ∅.

(** An edge name generated while the name counter was at most [c0]. *)
Definition generated_upto (c0 : nat) (n : string) : Prop :=
  exists b c p, (c <= c0)%nat /\ n = port_name (name_at b c) p.

(** From [w] to [w'] the tables have changed at most at the output ports
    [lo], [lo+1], ... of the node named [nm]. *)
Definition only_ports (nm : string) (lo : nat) (w w' : World) : Prop :=
  INTERNAL_NAME w' = INTERNAL_NAME w /\ context w' = context w /\
  forall n, (forall p, (lo <= p)%nat -> n <> port_name nm p) ->
            get_shape (g w') n = get_shape (g w) n /\
            get_dtype (g w') n = get_dtype (g w) n.

(** Both tables, the name counter and the context are the same in both
    worlds. *)
Definition same_tables (w w' : World) : Prop :=
  _output_shapes (g w') = _output_shapes (g w) /\ _dtypes (g w') = _dtypes (g w) /\
  INTERNAL_NAME w' = INTERNAL_NAME w /\ context w' = context w.

(** The Scan node made by the rewrite of the test loop, and the test
    loop's output array as classified. *)
Definition rnn_scan : Node :=
  mkNode "Scan__16" "Scan"
         [""; "input_Reshape__6:0"; "input_Reshape__9:0"; "input_Reshape__12:0";
          "input_ta_Reshape__15:0"]
         ["Scan__16:0"; "Scan__16:1"; "Scan__16:2"; "Scan__16:3"]
         [("num_scan_inputs", attr_i 1)].
Definition rnn_output_ta : TensorArrayProp :=
  mkTensorArrayProp (Some "rnn/while/Identity:0") "rnn/while/cell:0" (Some "rnn/gather:0").
Definition stamp_output_ta : TensorArrayProp :=
  mkTensorArrayProp (Some "rnn/while/Identity:0") "rnn/while/Identity:0"
                    (Some "rnn/gather:0").

(** The session after the rewrite of the loop whose output array records
    the time step, and the Scan node made by that rewrite. *)
Definition stamp_rewritten : Session :=
  snd (rewrite_try stamp_find_subgraph no_extract stamp_session).
Definition stamp_scan : Node :=
  mkNode "Scan__10" "Scan"
         [""; "input_Reshape__6:0"; "input_ta_Reshape__9:0"]
         ["Scan__10:0"; "Scan__10:1"]
         [("num_scan_inputs", attr_i 1)].

(** ** Notions used to state further properties *)

(** A loop variable that [_parse_rnn_loop] takes for the time variable: it
    is no tensor array and its initial value is produced by the node named
    [time_name]. *)
Definition is_time_variable (gr : Graph) (time_name : string) (v : LoopVariable) : bool :=
  negb (is_tensor_array v) &&
  match get_node_by_name gr (enter_input_id v) with
  | Some n => String.eqb (name n) time_name
  | None => false
  end.

(** A loop variable that leaves [is_rnn_out_ta] as it is: it is no tensor
    array, or the [tensor_array_name] of the node producing its initial
    value starts with [ta_array_name_prefix]. *)
Definition keeps_rnn_out_ta (gr : Graph) (ta_array_name_prefix : string)
    (v : LoopVariable) : bool :=
  negb (is_tensor_array v) ||
  match get_node_by_name gr (enter_input_id v) with
  | Some n =>
      match get_attr n "tensor_array_name" with
      | Some a => startswith (attr_str a) ta_array_name_prefix
      | None => false
      end
  | None => false
  end.

(** Every loop variable's initial value is produced by a node of the
    graph, which bears a [tensor_array_name] when the variable is a tensor
    array. *)
Definition enter_nodes_found (gr : Graph) (vars : list (string * LoopVariable)) : Prop :=
  forall kv, kv ∈ vars ->
    exists n, get_node_by_name gr (enter_input_id kv.2) = Some n /\
              (is_tensor_array kv.2 = true -> is_Some (get_attr n "tensor_array_name")).



(** The matches of the input pattern under the scope [scope]. *)
Definition scoped_matches (match_ops : list Node -> list MatchResult) (scope : string)
    (gr : Graph) : list MatchResult :=
  filter (fun r => startswith (name (ta_input_scatter r)) scope = true)
         (match_ops (get_nodes gr)).

(** From [gr] to [gr'] shapes were recorded and nothing else was changed:
    no recorded shape was overwritten. *)
Definition records_shapes (gr gr' : Graph) : Prop :=
  get_nodes gr' = get_nodes gr /\ _dtypes gr' = _dtypes gr /\
  initializers gr' = initializers gr /\
  forall n s, get_shape gr n = Some s -> get_shape gr' n = Some s.

(** The entry that [_parse_input_ta] makes for a match of the input
    pattern. *)
Definition input_ta_for (mr : MatchResult) (ta : TensorArrayProp) : Prop :=
  input (ta_input_scatter mr) !! 2%nat = Some (data_input_id ta) /\
  is_Some (index_input_id ta) /\ index_input_id ta = input (ta_read mr) !! 1%nat /\
  is_Some (output_id ta) /\ output_id ta = output (ta_read mr) !! 0%nat.

(** The nodes of the type [t]. *)
Definition of_type (t : string) (n : Node) : bool := String.eqb (type n) t.

(** No node of the graph selected by [sel] reads the edge [id]. *)
Definition unread (sel : Node -> bool) (id : string) (gr : Graph) : Prop :=
  forall n, n ∈ get_nodes gr -> sel n = true -> has_input id n = false.

(** From [gr] to [gr'] nodes were at most rewired: the graph has the same
    nodes in the same order, with their types, outputs and attributes; only
    inputs may differ. *)
Definition rewired (gr gr' : Graph) : Prop :=
  map name (get_nodes gr') = map name (get_nodes gr) /\
  map type (get_nodes gr') = map type (get_nodes gr) /\
  map output (get_nodes gr') = map output (get_nodes gr) /\
  map attr (get_nodes gr') = map attr (get_nodes gr).

(** From [gr] to [gr'] nodes were rewired to the invalid edge only: an edge
    other than the invalid one that the nodes of a type did not read is not
    read by them afterwards. *)
Definition cut_off (gr gr' : Graph) : Prop :=
  rewired gr gr' /\
  forall t x, x <> INVLAID_INPUT_ID -> unread (of_type t) x gr -> unread (of_type t) x gr'.

(** A loop with the time variable and one output array, and neither a
    state variable nor an input array; classified. *)
Definition timed_graph : Graph :=
  mkGraph [n_time; n_ta; n_id_t; n_add; n_cell; n_write; n_ni_t; n_gather; n_final]
          test_shapes test_dtypes ∅.
Definition timed_session : Session :=
  mkSession (snd (run (need_rewrite no_matcher)
                      (candidate timed_graph "rnn/while/" peek_vars 0))) ∅.

(** From [gr] to [gr'] nodes were rewired to generated edges only: an edge
    of the original graph that no node read is read by none afterwards. *)
Definition rewired_to_fresh (gr gr' : Graph) : Prop :=
  rewired gr gr' /\
  forall x, has_counter_mark x = false ->
            unread all_nodes_sel x gr -> unread all_nodes_sel x gr'.

(** The world of the test loop once its Scan node is made, before the
    readers of the loop are connected to it. *)
Definition rnn_scanned : World := world (snd (rewrite_until_scan_node rnn_session)).

(** The value info that the late pass declares for the body input at
    position [i]: [p] is the pair of the input id and the initial input id,
    [entry] the name, element type and shape declared. *)
Definition body_input_for (gr : Graph) (input_count num_scan_inputs i : Z)
    (p : string * string) (entry : string * option Z * list Z) : Prop :=
  entry.1.1 = p.1 /\ entry.1.2 = get_dtype gr p.1 /\
  match get_shape gr p.1 with
  | Some s => entry.2 = s
  | None =>
      exists s, get_shape gr p.2 = Some s /\
                entry.2 = if Z.geb i (input_count - num_scan_inputs) then slice2 s else s
  end.

(** A cell that reads a loop-invariant value through an Enter node, and
    the frontier walk that reports that Enter node. *)
Definition n_enter := nd "rnn/while/w_enter" "Enter" ["w:0"] ["rnn/while/w_enter:0"].
Definition n_mul :=
  nd "rnn/while/mul" "Mul" ["rnn/while/w_enter:0"; "rnn/while/Identity_2:0"]
     ["rnn/while/mul:0"].
Definition enter_session : Session :=
  mkSession (mkWorld (mkGraph [n_enter; n_mul] ∅ ∅ ∅) (create_context "rnn/while/" []) 0) ∅.
Definition enter_find_subgraph (m : SubGraphMetadata) (gr : Graph)
  : outcome (list Node * list Node) :=
  Return ([n_mul], [n_enter]).

(** * Properties *)

(** ** Reasoning about computations *)

Lemma bind_ok {S A B} (m : M S A) (k : A -> M S B) s a s1 :
  m s = (Return a, s1) -> bind m k s = k a s1.
Proof. intros H. unfold bind. now rewrite H. Qed.

Lemma bind_fail {S A B} (m : M S A) (k : A -> M S B) s e s1 :
  m s = (Raise e, s1) -> bind m k s = (Raise e, s1).
Proof. intros H. unfold bind. now rewrite H. Qed.

Lemma bind_Return {S A B} (m : M S A) (k : A -> M S B) s b s' :
  bind m k s = (Return b, s') ->
  exists a s1, m s = (Return a, s1) /\ k a s1 = (Return b, s').
Proof.
  unfold bind. destruct (m s) as [[a|e] s1]; intros H.
  - eauto.
  - discriminate.
Qed.

Lemma bind_Raise {S A B} (m : M S A) (k : A -> M S B) s e s' :
  bind m k s = (Raise e, s') ->
  m s = (Raise e, s') \/ exists a s1, m s = (Return a, s1) /\ k a s1 = (Raise e, s').
Proof.
  unfold bind. destruct (m s) as [[a|e0] s1]; intros H.
  - right. eauto.
  - left. inversion H; subst. reflexivity.
Qed.

Lemma from_option_Return {S A} e (o : option A) (s : S) a s' :
  from_option e o s = (Return a, s') -> o = Some a /\ s' = s.
Proof. destruct o; cbn; intros H; inversion H; auto. Qed.

Lemma index_Return {S A} (l : list A) i (s : S) a s' :
  index l i s = (Return a, s') -> l !! i = Some a /\ s' = s.
Proof. apply from_option_Return. Qed.

(** A loop keeps every reflexive and transitive relation between states
    that each of its iterations keeps. *)
Lemma for_fold_keeps {S A B} (R : S -> S -> Prop) (body : B -> A -> M S B) :
  (forall s, R s s) ->
  (forall s1 s2 s3, R s1 s2 -> R s2 s3 -> R s1 s3) ->
  (forall acc x s r s', body acc x s = (Return r, s') -> R s s') ->
  forall l acc s r s', for_fold l acc body s = (Return r, s') -> R s s'.
Proof.
  intros Hrefl Htrans Hbody l.
  induction l as [|x l IH]; intros acc s r s' H; cbn in H.
  - inversion H; subst. apply Hrefl.
  - apply bind_Return in H as (acc' & s1 & H1 & H2).
    eapply Htrans; [eapply Hbody, H1 | eapply IH, H2].
Qed.

Lemma for_each_keeps {S A} (R : S -> S -> Prop) (body : A -> M S unit) :
  (forall s, R s s) ->
  (forall s1 s2 s3, R s1 s2 -> R s2 s3 -> R s1 s3) ->
  (forall x s r s', body x s = (Return r, s') -> R s s') ->
  forall l s r s', for_each l body s = (Return r, s') -> R s s'.
Proof.
  intros Hrefl Htrans Hbody l.
  induction l as [|x l IH]; intros s r s' H; cbn in H.
  - inversion H; subst. apply Hrefl.
  - apply bind_Return in H as (u & s1 & H1 & H2).
    eapply Htrans; [eapply Hbody, H1 | eapply IH, H2].
Qed.

(** Splits a successful computation into its first step and the rest. *)
Tactic Notation "step" hyp(H) "as" ident(a) ident(w) ident(H1) :=
  apply bind_Return in H as (a & w & H1 & H).
Tactic Notation "step" hyp(H) :=
  let a := fresh "a" in let w := fresh "w" in let H1 := fresh "Hs" in
  apply bind_Return in H as (a & w & H1 & H).

(** Case analysis on membership in a list given by its elements. *)
Ltac elems H :=
  repeat (let E := fresh "E" in
          apply elem_of_cons in H as [E | H];
          [first [discriminate E | subst] | ]);
  try (apply elem_of_nil in H; destruct H).

Lemma ret_Return {S A} (a b : A) (s s' : S) :
  ret a s = (Return b, s') -> b = a /\ s' = s.
Proof. intros H. inversion H. auto. Qed.

Lemma gets_Return {S A} (f : S -> A) (b : A) (s s' : S) :
  gets f s = (Return b, s') -> b = f s /\ s' = s.
Proof. intros H. inversion H. auto. Qed.

Lemma modify_Return {S} (f : S -> S) u (s s' : S) :
  modify f s = (Return u, s') -> s' = f s.
Proof. intros H. inversion H. auto. Qed.

(** Eliminates a primitive step; the later state is expressed by the
    earlier one. *)
Ltac elim_eq Ha :=
  try match type of Ha with
      | ?x = _ => is_var x; subst x
      end.
Ltac prim H :=
  let Ha := fresh "E" in
  match type of H with
  | ret _ _ = (Return _, _) => apply ret_Return in H as [Ha ->]; elim_eq Ha
  | gets _ _ = (Return _, _) => apply gets_Return in H as [Ha ->]; elim_eq Ha
  | shape_of _ _ = (Return _, _) => apply gets_Return in H as [Ha ->]; elim_eq Ha
  | dtype_of _ _ = (Return _, _) => apply gets_Return in H as [Ha ->]; elim_eq Ha
  | modify _ _ = (Return _, _) => apply modify_Return in H as ->
  | modify_g _ _ = (Return _, _) => apply modify_Return in H as ->
  | modify_context _ _ = (Return _, _) => apply modify_Return in H as ->
  | from_option _ _ _ = (Return _, _) =>
      apply from_option_Return in H as [Ha ->];
      try discriminate Ha; try (injection Ha as <-)
  | index _ _ _ = (Return _, _) => apply index_Return in H as [Ha ->]
  | index_last _ _ = (Return _, _) => apply from_option_Return in H as [Ha ->]
  | raise _ _ = (Return _, _) => discriminate H
  end.

(** ** Classification: [need_rewrite] *)

Lemma same_candidate_refl w : same_candidate w w.
Proof. repeat split. Qed.

Lemma same_candidate_trans w1 w2 w3 :
  same_candidate w1 w2 -> same_candidate w2 w3 -> same_candidate w1 w3.
Proof.
  unfold same_candidate. intros (?&?&?&?&?&?&?) (?&?&?&?&?&?&?).
  repeat split; congruence.
Qed.

Lemma _parse_rnn_loop_body_same tn pre icn flags item w r w' :
  _parse_rnn_loop_body tn pre icn flags item w = (Return r, w') ->
  same_candidate w w'.
Proof.
  destruct flags as [ft ok], item as [k v]. unfold _parse_rnn_loop_body.
  intros H. step H. prim Hs.
  destruct (is_tensor_array v).
  - step H. prim Hs. step H. prim Hs.
    destruct (negb _); prim H; apply same_candidate_refl.
  - step H as n w1 Hn. prim Hn.
    destruct (String.eqb (name n) tn); [|destruct (String.eqb (name n) icn)];
      step H; prim Hs; prim H; repeat split.
Qed.

Lemma parse_loop_same tn pre icn l flags w r w' :
  for_fold l flags (_parse_rnn_loop_body tn pre icn) w = (Return r, w') ->
  same_candidate w w'.
Proof.
  apply (for_fold_keeps same_candidate).
  - apply same_candidate_refl.
  - apply same_candidate_trans.
  - intros. eapply _parse_rnn_loop_body_same; eauto.
Qed.

(** When the loop of [_parse_rnn_loop] reports a time variable, the
    context holds one. *)
Lemma parse_loop_time tn pre icn l : forall flags w r w',
  for_fold l flags (_parse_rnn_loop_body tn pre icn) w = (Return r, w') ->
  (fst flags = true -> is_Some (time_var (context w))) ->
  fst r = true -> is_Some (time_var (context w')).
Proof.
  induction l as [|[k v] l IH]; intros flags w r w' H Hinv Hr; cbn in H.
  - inversion H; subst. auto.
  - step H as fl w1 Hb. eapply IH; [exact H| |exact Hr].
    clear H IH Hr. destruct flags as [ft ok]. unfold _parse_rnn_loop_body in Hb.
    step Hb. prim Hs. destruct (is_tensor_array v).
    + step Hb. prim Hs. step Hb. prim Hs. destruct (negb _); prim Hb; exact Hinv.
    + step Hb as n w2 Hn. prim Hn.
      destruct (String.eqb (name n) tn); [|destruct (String.eqb (name n) icn)];
        step Hb; prim Hs; prim Hb; cbn; eauto.
Qed.

(** Without tensor-array variables, and with every initial value produced
    by a node of the graph, the loop of [_parse_rnn_loop] ends normally and
    keeps [is_rnn_out_ta]. *)
Lemma parse_loop_plain tn pre icn l : forall flags w,
  (forall kv, kv ∈ l -> is_tensor_array kv.2 = false /\
                        is_Some (get_node_by_name (g w) (enter_input_id kv.2))) ->
  exists ft w',
    for_fold l flags (_parse_rnn_loop_body tn pre icn) w = (Return (ft, snd flags), w').
Proof.
  induction l as [|[k v] l IH]; intros [ft ok] w Hl; cbn.
  - eexists _, _. reflexivity.
  - destruct (Hl (k, v)) as [Hta [n Hn]]; [left|]. cbn in Hta, Hn.
    assert (exists ft1 w1,
      _parse_rnn_loop_body tn pre icn (ft, ok) (k, v) w = (Return (ft1, ok), w1)
      /\ g w1 = g w) as (ft1 & w1 & Hb & Hg).
    { unfold _parse_rnn_loop_body. rewrite Hta.
      unfold bind, gets, from_option, ret, modify_context, modify. rewrite Hn.
      destruct (String.eqb (name n) tn); [|destruct (String.eqb (name n) icn)];
        eexists _, _; split; reflexivity. }
    rewrite (bind_ok _ _ _ _ _ Hb).
    apply (IH (ft1, ok) w1). intros kv Hkv. rewrite Hg. apply Hl. now right.
Qed.

Lemma _parse_output_ta_plain w :
  (forall kv, kv ∈ loop_variables (context w) -> is_tensor_array kv.2 = false) ->
  _parse_output_ta w = (Return tt, w).
Proof.
  unfold _parse_output_ta. intros Hl.
  rewrite (bind_ok _ _ _ (context w) w) by reflexivity.
  revert Hl. generalize (loop_variables (context w)) as l.
  induction l as [|kv l IH]; intros Hl; cbn.
  - reflexivity.
  - unfold _parse_output_ta_body at 1. rewrite (Hl kv) by left. cbn. apply IH.
    intros kv' Hkv'. apply Hl. now right.
Qed.

Section Classification.

Variable match_ops : list Node -> list MatchResult.

(** C2: a candidate loop without array-accumulator inputs (the pattern
    matcher finds no array read under the loop's scope) and without
    array-accumulator outputs (no loop variable is a tensor array), whose
    initial values are produced by nodes of the graph, is reported
    not-applicable, and the graph (node list, edge wiring, shape and dtype
    tables) and the name counter are left as they were. *)
Theorem need_rewrite_without_accumulators gr scope vars counter :
  (forall kv, kv ∈ vars -> is_tensor_array kv.2 = false) ->
  (forall kv, kv ∈ vars -> is_Some (get_node_by_name gr (enter_input_id kv.2))) ->
  filter (fun r => startswith (name (ta_input_scatter r))
                              (_get_rnn_scope_name scope) = true)
         (match_ops (get_nodes gr)) = [] ->
  exists w', need_rewrite match_ops (candidate gr scope vars counter) = (Return false, w')
             /\ g w' = gr /\ INTERNAL_NAME w' = counter.
Proof.
  intros Hta Hnode Hmatch.
  unfold need_rewrite, candidate.
  rewrite (bind_ok _ _ _ tt
    (mkWorld gr (set_rnn_scope (Some (_get_rnn_scope_name scope))
                   (create_context scope vars)) counter)) by reflexivity.
  set (w0 := mkWorld gr _ counter).
  set (sc := _get_rnn_scope_name scope).
  destruct (parse_loop_plain (sc +:+ "time") (sc +:+ "dynamic_rnn/output_")
              (scope +:+ "iteration_counter") vars (false, true) w0)
    as (ft & w1 & Hloop).
  { intros kv Hkv. split; [apply Hta | apply Hnode]; exact Hkv. }
  pose proof (parse_loop_same _ _ _ _ _ _ _ _ Hloop) as (Hg & Hc & Hws & Hlv & Hsc & Hot & Hit).
  pose proof (parse_loop_time _ _ _ _ _ _ _ _ Hloop) as Htime.
  assert (Hparse : _parse_rnn_loop w0 =
                   (Return (negb (negb (ft && true))), w1)).
  { unfold _parse_rnn_loop.
    rewrite (bind_ok _ _ _ (context w0) w0) by reflexivity.
    rewrite (bind_ok _ _ _ sc w0) by reflexivity.
    cbn [context w0 loop_variables while_context_scope set_rnn_scope create_context].
    fold sc. fold w0.
    rewrite (bind_ok _ _ _ _ _ Hloop). cbn. destruct ft; reflexivity. }
  rewrite (bind_ok _ _ _ _ _ Hparse).
  destruct ft; cbn [andb negb].
  2:{ exists w1. repeat split; [exact Hg | exact Hc]. }
  destruct (Htime ltac:(discriminate) eq_refl) as [tv Htv].
  assert (Hpt : _parse_time_var w1 = (Return tt, w1)).
  { unfold _parse_time_var, bind, gets, from_option, ret. now rewrite Htv. }
  rewrite (bind_ok _ _ _ _ _ Hpt).
  rewrite (bind_ok _ _ _ tt w1).
  2:{ apply _parse_output_ta_plain. rewrite Hlv. exact Hta. }
  assert (Hpi : _parse_input_ta match_ops w1 = (Return tt, w1)).
  { unfold _parse_input_ta.
    rewrite (bind_ok _ _ _ (get_nodes (g w1)) w1) by reflexivity.
    rewrite (bind_ok _ _ _ (context w1) w1) by reflexivity.
    rewrite Hsc. cbn [rnn_scope context w0 set_rnn_scope].
    rewrite (bind_ok _ _ _ sc w1) by reflexivity.
    rewrite Hg. cbn [g w0]. unfold sc. rewrite Hmatch. reflexivity. }
  rewrite (bind_ok _ _ _ _ _ Hpi).
  rewrite (bind_ok _ _ _ (context w1) w1) by reflexivity.
  rewrite Hit, Hot. cbn.
  exists w1. repeat split; [exact Hg | exact Hc].
Qed.

End Classification.

(** C2 at the loop with a time variable and a state variable only. *)
Lemma need_rewrite_without_accumulators_witness :
  exists w', need_rewrite no_matcher (candidate plain_graph "rnn/while/" plain_vars 0)
             = (Return false, w')
             /\ g w' = plain_graph /\ INTERNAL_NAME w' = 0%nat.
Proof.
  apply (need_rewrite_without_accumulators no_matcher).
  - intros kv Hkv. vm_compute in Hkv. elems Hkv; reflexivity.
  - intros kv Hkv. vm_compute in Hkv. elems Hkv; vm_compute; eauto.
  - reflexivity.
Defined.

(** *** What a rejected candidate keeps *)









Section ClassificationKept.

Variable match_ops : list Node -> list MatchResult.



End ClassificationKept.



(** *** The gather lookup of [_parse_output_ta] *)




Section GatherLookup.

Variable match_ops : list Node -> list MatchResult.


End GatherLookup.



(** ** The rewrite and the Boundary Registry *)

Lemma bind_cases {S A B} (m : M S A) (k : A -> M S B) s r s' :
  bind m k s = (r, s') ->
  (exists e, r = Raise e /\ m s = (Raise e, s')) \/
  (exists a s1, m s = (Return a, s1) /\ k a s1 = (r, s')).
Proof.
  unfold bind. destruct (m s) as [[a|e] s1]; intros H.
  - right. eauto.
  - left. inversion H; subst. eauto.
Qed.

Lemma lift_dict {A} (m : M World A) s r s' :
  lift m s = (r, s') -> BODY_GRAPH_DICT s' = BODY_GRAPH_DICT s.
Proof.
  unfold lift. destruct (m (world s)) as [r0 w]. intros H. now inversion H.
Qed.

Lemma add_body_graph_info_dict k meta s r s' :
  add_body_graph_info k meta s = (r, s') ->
  BODY_GRAPH_DICT s' = BODY_GRAPH_DICT s \/
  BODY_GRAPH_DICT s' = <[k := meta]> (BODY_GRAPH_DICT s).
Proof.
  unfold add_body_graph_info. destruct (BODY_GRAPH_DICT s !! k); intros H;
    inversion H; subst; cbn; auto.
Qed.

Section Registry.

Variable find_subgraph : SubGraphMetadata -> Graph -> outcome (list Node * list Node).
Variable _extract_sub_graph_nodes : Graph -> option Node -> list Node.

(** Whatever its outcome, the part of [rewrite] after the Scan node is made
    changes the registry at most by an entry for that node. *)
Lemma rewrite_after_scan_node_dict scan_props nodes_to_append scan_node s r s' :
  rewrite_after_scan_node find_subgraph _extract_sub_graph_nodes
    scan_props nodes_to_append scan_node s = (r, s') ->
  BODY_GRAPH_DICT s' = BODY_GRAPH_DICT s \/
  exists meta, BODY_GRAPH_DICT s' = <[name scan_node := meta]> (BODY_GRAPH_DICT s).
Proof.
  unfold rewrite_after_scan_node. intros H.
  apply bind_cases in H as [(e & -> & H) | (ns & s1 & H & K)].
  - (* the exception comes from the registration step *)
    unfold _extract_and_register_cell_graph_info in H.
    apply bind_Raise in H as [H | (r1 & s2 & H1 & H)].
    { left. eapply lift_dict, H. }
    apply lift_dict in H1.
    apply bind_Raise in H as [H | (r2 & s3 & H2 & H)].
    { left. apply lift_dict in H. congruence. }
    apply lift_dict in H2.
    apply bind_Raise in H as [H | (u & s4 & H3 & H)].
    { apply add_body_graph_info_dict in H as [H | H].
      - left. congruence.
      - right. eexists. rewrite H, H2, H1. reflexivity. }
    discriminate H.
  - assert (Hreg : BODY_GRAPH_DICT s1 = BODY_GRAPH_DICT s \/
                   exists meta, BODY_GRAPH_DICT s1
                                = <[name scan_node := meta]> (BODY_GRAPH_DICT s)).
    { unfold _extract_and_register_cell_graph_info in H.
      step H as r1 s2 H1. apply lift_dict in H1.
      step H as r2 s3 H2. apply lift_dict in H2.
      step H as u s4 H3. prim H.
      apply add_body_graph_info_dict in H3 as [H3 | H3].
      - left. congruence.
      - right. eexists. rewrite H3, H2, H1. reflexivity. }
    assert (Hrest : BODY_GRAPH_DICT s' = BODY_GRAPH_DICT s1).
    { apply bind_cases in K as [(e & -> & K) | (ap & s2 & K1 & K)].
      - eapply lift_dict, K.
      - apply lift_dict in K1.
        apply bind_cases in K as [(e & -> & K) | (u & s3 & K2 & K)].
        + apply lift_dict in K. congruence.
        + apply lift_dict in K2. inversion K; subst. congruence. }
    rewrite Hrest. exact Hreg.
Qed.

(** C5: when an exception is raised in the [try] block of [rewrite], it is
    caught: [rewrite] returns [FAIL].  The graph is left as the exception
    found it, and the registry is the one the attempt started with, less
    the entry under the name of the Scan node made by the attempt: no
    entry for that node survives the failure. *)
Theorem rewrite_failure_clears_registry s e scan_node s' :
  rewrite_try find_subgraph _extract_sub_graph_nodes s = (Raise e, scan_node, s') ->
  exists s'',
    rewrite find_subgraph _extract_sub_graph_nodes s = (Return FAIL, s'') /\
    world s'' = world s' /\
    BODY_GRAPH_DICT s'' =
      match scan_node with
      | Some n => delete (name n) (BODY_GRAPH_DICT s)
      | None => BODY_GRAPH_DICT s
      end /\
    forall n, scan_node = Some n -> BODY_GRAPH_DICT s'' !! name n = None.
Proof.
  intros Htry. unfold rewrite. rewrite Htry.
  unfold rewrite_try in Htry.
  destruct (rewrite_until_scan_node s) as [[[[sp nta] sn]|e1] s1] eqn:H1.
  - destruct (rewrite_after_scan_node _ _ sp nta sn s1) as [r s2] eqn:H2.
    inversion Htry; subst. clear Htry.
    apply lift_dict in H1. apply rewrite_after_scan_node_dict in H2.
    assert (Hdel : delete (name sn) (BODY_GRAPH_DICT s')
                   = delete (name sn) (BODY_GRAPH_DICT s)).
    { destruct H2 as [H2 | [meta H2]]; rewrite H2, ?delete_insert_eq; congruence. }
    unfold rewrite_except, bind, has_body_graph_info, gets, pop_body_graph_info, ret.
    destruct (BODY_GRAPH_DICT s' !! name sn) as [meta|] eqn:Hlook.
    + rewrite bool_decide_true by eauto. rewrite Hlook.
      eexists. split; [reflexivity|]. cbn. repeat split.
      * exact Hdel.
      * intros n Hn. inversion Hn; subst. rewrite Hdel. apply lookup_delete_eq.
    + rewrite bool_decide_false by (intros [x Hx]; discriminate).
      eexists. split; [reflexivity|]. repeat split.
      * rewrite <- Hdel. symmetry. now apply delete_id.
      * intros n Hn. inversion Hn; subst. exact Hlook.
  - inversion Htry; subst. clear Htry. apply lift_dict in H1.
    eexists. split; [reflexivity|]. repeat split; [exact H1 | discriminate].
Qed.

End Registry.

(** C5 at the test loop, when an entry already stands under the name of
    the Scan node: the registration fails, and the entry is gone. *)
Lemma rewrite_failure_clears_registry_witness :
  let r := rewrite_try rnn_find_subgraph no_extract rnn_session_taken in
  exists s'',
    rewrite rnn_find_subgraph no_extract rnn_session_taken = (Return FAIL, s'') /\
    world s'' = world (snd r) /\
    BODY_GRAPH_DICT s'' =
      match snd (fst r) with
      | Some n => delete (name n) (BODY_GRAPH_DICT rnn_session_taken)
      | None => BODY_GRAPH_DICT rnn_session_taken
      end /\
    forall n, snd (fst r) = Some n -> BODY_GRAPH_DICT s'' !! name n = None.
Proof.
  intros r.
  apply (rewrite_failure_clears_registry rnn_find_subgraph no_extract rnn_session_taken
           (ValueError "body_owner_name Scan__16 already exists as cell graph owner")
           (snd (fst r)) (snd r)).
  vm_compute. reflexivity.
Defined.

(** ** Generated names *)

Lemma chars_app s t : chars (s +:+ t) = chars s ++ chars t.
Proof.
  unfold chars. induction s as [|a s IH]; [reflexivity|].
  change (String a s +:+ t) with (String a (s +:+ t)).
  cbn [String.list_ascii_of_string]. now rewrite IH.
Qed.

Lemma chars_inj s t : chars s = chars t -> s = t.
Proof.
  intros H. rewrite <- (String.string_of_list_ascii_of_string s),
    <- (String.string_of_list_ascii_of_string t). unfold chars in H. now rewrite H.
Qed.

Lemma pretty_N_char_digit x : is_digit (pretty_N_char x).
Proof.
  unfold is_digit, pretty_N_char.
  repeat case_match; repeat (first [left | right]).
Qed.

Lemma pretty_N_go_digits x : forall s,
  Forall is_digit (chars s) -> Forall is_digit (chars (pretty_N_go x s)).
Proof.
  induction (N.lt_wf_0 x) as [x _ IH]. intros s Hs.
  destruct (decide (x = 0)%N) as [->|Hx].
  - now rewrite pretty_N_go_0.
  - rewrite pretty_N_go_step by lia. apply IH.
    + apply N.div_lt; lia.
    + cbn. constructor; [apply pretty_N_char_digit | exact Hs].
Qed.

Lemma pretty_nat_digits (n : nat) : Forall is_digit (chars (pretty n)).
Proof.
  unfold pretty, pretty_nat, pretty, pretty_N.
  destruct (decide (N.of_nat n = 0)%N).
  - cbn. constructor; [|constructor]. unfold is_digit. left.
  - apply pretty_N_go_digits. constructor.
Qed.

(** A list is split in one way at a separator that its tail lacks. *)
Lemma split_at_last {A} (x : A) u1 : forall u2 d1 d2,
  x ∉ d1 -> x ∉ d2 -> u1 ++ x :: d1 = u2 ++ x :: d2 -> u1 = u2 /\ d1 = d2.
Proof.
  induction u1 as [|a u1 IH]; intros [|b u2] d1 d2 H1 H2 H; cbn in H.
  - inversion H. auto.
  - inversion H; subst. destruct H1. apply elem_of_app. right. left.
  - inversion H; subst. destruct H2. apply elem_of_app. right. left.
  - inversion H; subst. destruct (IH u2 d1 d2 H1 H2) as [-> ->]; auto.
Qed.

Lemma digits_lack (x : ascii) (n : nat) : ~ is_digit x -> x ∉ chars (pretty n).
Proof.
  intros Hx Hin. pose proof (pretty_nat_digits n) as Hd.
  rewrite Forall_forall in Hd. apply Hx, Hd, Hin.
Qed.

Lemma colon_no_digit : ~ is_digit ":"%char.
Proof.
  unfold is_digit. intros H.
  repeat (apply elem_of_cons in H as [H|H]; [discriminate|]).
  now apply elem_of_nil in H.
Qed.

Lemma underscore_no_digit : ~ is_digit "_"%char.
Proof.
  unfold is_digit. intros H.
  repeat (apply elem_of_cons in H as [H|H]; [discriminate|]).
  now apply elem_of_nil in H.
Qed.

(** [port_name (name_at basis c) p] determines [basis], [c] and [p]: every
    generated edge name is made once. *)
Lemma port_name_at_inj b c p b' c' p' :
  port_name (name_at b c) p = port_name (name_at b' c') p' ->
  b = b' /\ c = c' /\ p = p'.
Proof.
  unfold port_name, name_at. intros H. apply (f_equal chars) in H.
  rewrite !chars_app in H. cbn [chars String.list_ascii_of_string app] in H.
  change (String.list_ascii_of_string ?s) with (chars s) in H.
  apply split_at_last in H as [H Hp].
  2,3: apply digits_lack, colon_no_digit.
  change (chars b ++ "_" :: "_" :: chars (pretty c))%char
    with (chars b ++ ["_"%char] ++ "_"%char :: chars (pretty c)) in H.
  change (chars b' ++ "_" :: "_" :: chars (pretty c'))%char
    with (chars b' ++ ["_"%char] ++ "_"%char :: chars (pretty c')) in H.
  rewrite !app_assoc in H.
  apply split_at_last in H as [H Hc].
  2,3: apply digits_lack, underscore_no_digit.
  apply app_inj_tail in H as [Hb _].
  repeat split.
  - now apply chars_inj.
  - apply chars_inj in Hc. now apply (inj pretty) in Hc.
  - apply chars_inj in Hp. now apply (inj pretty) in Hp.
Qed.

Lemma has_counter_mark_app b r : has_counter_mark (b +:+ "__" +:+ r) = true.
Proof.
  induction b as [|a b IH].
  - reflexivity.
  - change (String a b +:+ "__" +:+ r) with (String a (b +:+ "__" +:+ r)).
    cbn [has_counter_mark]. rewrite IH. apply orb_true_r.
Qed.

Lemma string_app_assoc (x y z : string) : (x +:+ y) +:+ z = x +:+ (y +:+ z).
Proof.
  induction x as [|a x IH]; [reflexivity|].
  change ((String a x +:+ y) +:+ z) with (String a ((x +:+ y) +:+ z)).
  now rewrite IH.
Qed.

(** A name of the original graph is no generated edge name. *)
Lemma original_not_generated e b c p :
  has_counter_mark e = false -> e <> port_name (name_at b c) p.
Proof.
  intros He ->. unfold port_name, name_at in He.
  rewrite !string_app_assoc in He.
  rewrite has_counter_mark_app in He. discriminate.
Qed.

(** ** The late rewriter *)

Lemma assoc_get_set_ne {V} k k' (v : V) l :
  k' <> k -> assoc_get k (assoc_set k' v l) = assoc_get k l.
Proof.
  intros Hne. induction l as [|[k0 v0] l IH]; cbn.
  - destruct (String.eqb k' k) eqn:E; [apply String.eqb_eq in E; congruence | reflexivity].
  - destruct (String.eqb k0 k') eqn:E0; cbn.
    + apply String.eqb_eq in E0. subst k0.
      destruct (String.eqb k' k) eqn:E; [apply String.eqb_eq in E; congruence | reflexivity].
    + destruct (String.eqb k0 k); [reflexivity | exact IH].
Qed.

Lemma lift_Return {A} (m : M World A) s a s' :
  lift m s = (Return a, s') ->
  m (world s) = (Return a, world s') /\ BODY_GRAPH_DICT s' = BODY_GRAPH_DICT s.
Proof.
  unfold lift. destruct (m (world s)) as [r w] eqn:E. intros H.
  inversion H; subst. auto.
Qed.

Lemma bind_lift_gets {A B} (f : World -> A) (k : A -> M Session B) s :
  bind (lift (gets f)) k s = k (f (world s)) s.
Proof. destruct s. reflexivity. Qed.

Lemma same_nodes_refl w : same_nodes w w.
Proof. reflexivity. Qed.
Lemma same_nodes_trans w1 w2 w3 : same_nodes w1 w2 -> same_nodes w2 w3 -> same_nodes w1 w3.
Proof. unfold same_nodes. congruence. Qed.

Lemma collect_initializers_nodes cs ns w r w' :
  collect_initializers cs ns w = (Return r, w') -> same_nodes w w'.
Proof.
  unfold collect_initializers. apply (for_fold_keeps same_nodes).
  - apply same_nodes_refl.
  - apply same_nodes_trans.
  - intros acc x s r' s' H. step H as o w1 Ho. prim Ho.
    step H as v w2 Hv. prim Hv. step H as t w3 Ht. prim Ht. prim H. reflexivity.
Qed.

Lemma prepare_inputs_nodes meta k w r w' :
  prepare_inputs meta k w = (Return r, w') -> same_nodes w w'.
Proof.
  unfold prepare_inputs. intros H. step H as acc w1 Hl. prim H.
  revert Hl. apply (for_fold_keeps same_nodes).
  - apply same_nodes_refl.
  - apply same_nodes_trans.
  - intros acc' p s r' s' H. step H as sh w2 Hsh. prim Hsh.
    step H as dt w3 Hdt. prim Hdt. step H as ls w4 Hls. prim H.
    destruct (get_shape (g s) p.1).
    + prim Hls. reflexivity.
    + step Hls as sh2 w5 H5. prim H5. step Hls as s2 w6 H6. prim H6.
      destruct (Z.geb _ _); prim Hls; reflexivity.
Qed.

Lemma copy_shape_nodes a b w r w' :
  copy_shape a b w = (Return r, w') -> same_nodes w w'.
Proof.
  unfold copy_shape. intros H. step H as sh w1 Hsh. prim Hsh.
  destruct (get_shape (g w) a); prim H; reflexivity.
Qed.

Lemma prepare_outputs_nodes ids temp w r w' :
  prepare_outputs ids temp w = (Return r, w') -> same_nodes w w'.
Proof.
  unfold prepare_outputs. apply (for_fold_keeps same_nodes).
  - apply same_nodes_refl.
  - apply same_nodes_trans.
  - intros acc o s r' s' H. unfold insert_identity in H. step H as nm w1 Hnm.
    unfold make_name in Hnm. inversion Hnm; subst. clear Hnm.
    step H as d w2 Hd. prim Hd. step H as u w3 Hu. prim Hu.
    step H as u2 w4 Hc. prim H. apply copy_shape_nodes in Hc. exact Hc.
Qed.

Section LateRewriter.

Variable find_subgraph : SubGraphMetadata -> Graph -> outcome (list Node * list Node).
Variable topological_sort : list Node -> list Node.

Lemma late_rewrite_node_idle acc x s :
  settled (BODY_GRAPH_DICT s) x ->
  late_rewrite_node find_subgraph topological_sort acc x s = (Return acc, s).
Proof.
  intros Hx. unfold late_rewrite_node.
  destruct (String.eqb (type x) "Scan") eqn:Et; cbn [negb]; [|reflexivity].
  apply String.eqb_eq in Et. destruct (Hx Et) as [[a Ha] Hd].
  unfold bind, from_option, ret, has_body_graph_info, gets. rewrite Ha, Hd.
  rewrite bool_decide_false by (intros [y Hy]; discriminate). reflexivity.
Qed.

Lemma late_rewrite_node_spec acc x s L s1 :
  late_rewrite_node find_subgraph topological_sort acc x s = (Return L, s1) ->
  settled (BODY_GRAPH_DICT s1) x /\
  (forall k, BODY_GRAPH_DICT s !! k = None -> BODY_GRAPH_DICT s1 !! k = None) /\
  Forall2 (evolves [x]) (get_nodes (g (world s))) (get_nodes (g (world s1))).
Proof.
  unfold late_rewrite_node. intros H.
  assert (Hsame : forall ns, Forall2 (evolves [x]) ns ns).
  { intros ns. apply Forall2_same_length_lookup_2; [reflexivity|].
    intros i a b Ha Hb. left. congruence. }
  destruct (String.eqb (type x) "Scan") eqn:Et; cbn [negb] in H.
  2:{ prim H. split; [|split]; [|auto|apply Hsame].
      intros Hty. rewrite Hty in Et. discriminate. }
  apply String.eqb_eq in Et.
  step H as a s2 Ha. prim Ha. step H as has s3 Hh. unfold has_body_graph_info in Hh. prim Hh.
  destruct (bool_decide _) eqn:Hd; cbn [negb] in H.
  2:{ prim H. split; [|split]; [|auto|apply Hsame].
      intros _. split; [eauto|].
      apply bool_decide_eq_false in Hd.
      destruct (BODY_GRAPH_DICT s !! name x); [destruct Hd; eauto | reflexivity]. }
  step H as meta s4 Hpop.
  unfold pop_body_graph_info in Hpop.
  destruct (BODY_GRAPH_DICT s !! name x) as [m0|] eqn:Hlook; [|discriminate Hpop].
  inversion Hpop; subst meta s4. clear Hpop.
  step H as r s5 Hf. apply lift_Return in Hf as [Hf Hd5].
  assert (Hw5 : world s5 = world s) by (inversion Hf; reflexivity). clear Hf.
  step H as ci s6 Hci. apply lift_Return in Hci as [Hci Hd6].
  apply collect_initializers_nodes in Hci.
  step H as ins s7 Hin. apply lift_Return in Hin as [Hin Hd7].
  apply prepare_inputs_nodes in Hin.
  step H as outs s8 Hout. apply lift_Return in Hout as [Hout Hd8].
  apply prepare_outputs_nodes in Hout.
  step H as u s9 Hup. apply lift_Return in Hup as [Hup Hd9]. prim H.
  apply modify_Return in Hup.
  assert (Hdict : BODY_GRAPH_DICT s9 = delete (name x) (BODY_GRAPH_DICT s)).
  { rewrite Hd9, Hd8, Hd7, Hd6, Hd5. reflexivity. }
  assert (Hnodes : get_nodes (g (world s8)) = get_nodes (g (world s))).
  { unfold same_nodes in *. rewrite Hout, Hin, Hci, Hw5. reflexivity. }
  split; [|split].
  - intros _. split; [eauto|]. rewrite Hdict. apply lookup_delete_eq.
  - intros k Hk. rewrite Hdict.
    destruct (decide (name x = k)) as [<-|Hne];
      [apply lookup_delete_eq | now rewrite lookup_delete_ne].
  - rewrite Hup. cbn [g get_nodes set_nodes _nodes]. fold (get_nodes (g (world s8))).
    rewrite Hnodes. unfold update_node.
    apply Forall2_same_length_lookup_2; [now rewrite length_map|].
    intros i m m' Hm Hm'. rewrite list_lookup_fmap, Hm in Hm'. cbn in Hm'.
    inversion Hm'; subst m'. clear Hm'.
    destruct (String.eqb (name x) (name m)); [right | left; reflexivity].
    eexists x, _. split; [left|]. split; [exact Et|]. split; [eauto | reflexivity].
Qed.

Lemma evolves_cons x l m m' : evolves l m m' -> evolves (x :: l) m m'.
Proof.
  intros [-> | (y & gp & Hy & Ht & Ha & ->)]; [left; reflexivity|].
  right. exists y, gp. repeat split; auto. now right.
Qed.

Lemma evolves_step x l m1 m2 m3 :
  evolves [x] m1 m2 -> evolves l m2 m3 -> evolves (x :: l) m1 m3.
Proof.
  intros H12 [-> | H23].
  - destruct H12 as [-> | (y & gp & Hy & Ht & Ha & ->)]; [left; reflexivity|].
    right. exists y, gp. repeat split; auto.
    apply list_elem_of_singleton in Hy. subst y. left.
  - apply evolves_cons. right. exact H23.
Qed.

Lemma late_loop_spec l : forall acc s L s1,
  for_fold l acc (late_rewrite_node find_subgraph topological_sort) s = (Return L, s1) ->
  (forall k, BODY_GRAPH_DICT s !! k = None -> BODY_GRAPH_DICT s1 !! k = None) /\
  (forall x, x ∈ l -> settled (BODY_GRAPH_DICT s1) x) /\
  Forall2 (evolves l) (get_nodes (g (world s))) (get_nodes (g (world s1))).
Proof.
  induction l as [|x l IH]; intros acc s L s1 H; cbn in H.
  - prim H. split; [|split]; [auto| |].
    + intros x Hx. apply elem_of_nil in Hx. destruct Hx.
    + apply Forall2_same_length_lookup_2; [reflexivity|].
      intros i a b Ha Hb. left. congruence.
  - step H as acc' s2 Hx.
    apply late_rewrite_node_spec in Hx as (Hset & Hmono & Hev).
    apply IH in H as (Hmono' & Hset' & Hev').
    split; [|split].
    + auto.
    + intros y Hy. apply elem_of_cons in Hy as [-> | Hy]; [|auto].
      intros Hty. destruct (Hset Hty) as [Ha Hd]. split; auto.
    + eapply Forall2_trans; [|exact Hev|exact Hev'].
      intros m1 m2 m3. apply evolves_step.
Qed.

Lemma late_loop_idle l : forall acc s,
  (forall x, x ∈ l -> settled (BODY_GRAPH_DICT s) x) ->
  for_fold l acc (late_rewrite_node find_subgraph topological_sort) s = (Return acc, s).
Proof.
  induction l as [|x l IH]; intros acc s Hl; cbn.
  - reflexivity.
  - rewrite (bind_ok _ _ _ acc s).
    + apply IH. intros y Hy. apply Hl. now right.
    + apply late_rewrite_node_idle, Hl. left.
Qed.

Lemma remove_node_subseteq n l m : m ∈ remove_node n l -> m ∈ l.
Proof.
  induction l as [|a l IH]; cbn; [auto|].
  destruct (same_node n a).
  - intros H. now right.
  - intros H. apply elem_of_cons in H as [-> | H]; [left | right; auto].
Qed.

(** The removal loop leaves the graph's node list and the context as they
    were, and returns nodes of the list it started with. *)
Lemma purge_loop_spec l : forall nodes w ns w',
  for_fold l nodes purge_node w = (Return ns, w') ->
  same_nodes w w' /\ (forall m, m ∈ ns -> m ∈ nodes).
Proof.
  induction l as [|x l IH]; intros nodes w ns w' H; cbn in H.
  - prim H. split; [reflexivity | auto].
  - step H as nodes1 w1 Hx. apply IH in H as [Hn Hsub].
    unfold purge_node in Hx. destruct (node_in x nodes).
    + prim Hx. split; [exact Hn|]. intros m Hm. eapply remove_node_subseteq. eauto.
    + step Hx as o w2 Ho. prim Ho. step Hx as isi w3 Hi. prim Hi.
      destruct (is_initializer (g w) o); [|discriminate Hx].
      step Hx as u w4 Hu. prim Hu. prim Hx. split; [exact Hn | auto].
Qed.

Lemma late_rewrite_idle s :
  (forall x, x ∈ get_nodes (g (world s)) -> settled (BODY_GRAPH_DICT s) x) ->
  late_rewrite find_subgraph topological_sort s = (Return (get_nodes (g (world s))), s).
Proof.
  intros Hs. unfold late_rewrite. destruct s as [w d]. cbn [world BODY_GRAPH_DICT] in *.
  rewrite bind_lift_gets.
  rewrite (bind_ok _ _ _ [] (mkSession w d)) by (apply late_loop_idle; exact Hs).
  rewrite bind_lift_gets. reflexivity.
Qed.

Lemma settled_evolves d l m m' :
  (forall x, x ∈ l -> settled d x) -> m ∈ l -> evolves l m m' -> settled d m'.
Proof.
  intros Hl Hm [-> | (x & gp & Hx & Ht & Ha & ->)]; [auto|].
  intros _. unfold get_attr. destruct x as [nm ty i o a]. cbn in *.
  rewrite assoc_get_set_ne by discriminate.
  destruct (Hl _ Hx Ht) as [_ Hd]. split; [exact Ha | exact Hd].
Qed.

(** C7: when the late pass ends normally, no Scan node of the graph, and
    none of the returned node list, has an entry in the registry; and a
    second run, on that state or on the state with the returned list
    installed, changes nothing: every Scan node is skipped. *)
Theorem late_rewrite_drains_registry s ns s' :
  late_rewrite find_subgraph topological_sort s = (Return ns, s') ->
  (forall n, n ∈ get_nodes (g (world s')) -> type n = "Scan" ->
             BODY_GRAPH_DICT s' !! name n = None) /\
  (forall n, n ∈ ns -> type n = "Scan" -> BODY_GRAPH_DICT s' !! name n = None) /\
  late_rewrite find_subgraph topological_sort s'
    = (Return (get_nodes (g (world s'))), s') /\
  late_rewrite find_subgraph topological_sort (install_nodes ns s')
    = (Return ns, install_nodes ns s').
Proof.
  intros H. unfold late_rewrite in H.
  rewrite bind_lift_gets in H.
  step H as L s1 Hloop.
  rewrite bind_lift_gets in H.
  apply lift_Return in H as [Hp Hd].
  apply purge_loop_spec in Hp as [Hnodes Hsub].
  apply late_loop_spec in Hloop as (_ & Hset & Hev).
  assert (Hsettled : forall m, m ∈ get_nodes (g (world s')) ->
                               settled (BODY_GRAPH_DICT s') m).
  { intros m' Hm'. rewrite Hd. unfold same_nodes in Hnodes. rewrite Hnodes in Hm'.
    apply list_elem_of_lookup in Hm' as [i Hi].
    destruct (Forall2_lookup_r _ _ _ _ _ Hev Hi) as (m & Hm & Hmm').
    eapply settled_evolves; [exact Hset | | exact Hmm'].
    apply list_elem_of_lookup. eauto. }
  assert (Hsettled_ns : forall m, m ∈ ns -> settled (BODY_GRAPH_DICT s') m).
  { intros m Hm. apply Hsettled. unfold same_nodes in Hnodes. rewrite Hnodes. auto. }
  split; [|split; [|split]].
  - intros n Hn Ht. now apply (Hsettled n Hn).
  - intros n Hn Ht. now apply (Hsettled_ns n Hn).
  - apply late_rewrite_idle. exact Hsettled.
  - apply (late_rewrite_idle (install_nodes ns s')). exact Hsettled_ns.
Qed.

End LateRewriter.

(** *** The removal loop *)




Section Removal.

Variable find_subgraph : SubGraphMetadata -> Graph -> outcome (list Node * list Node).
Variable topological_sort : list Node -> list Node.


End Removal.


(** C7 at the rewritten test loop. *)
Lemma late_rewrite_drains_registry_witness :
  (forall n, n ∈ get_nodes (g (world (snd rnn_late))) -> type n = "Scan" ->
             BODY_GRAPH_DICT (snd rnn_late) !! name n = None) /\
  (forall n, n ∈ rnn_late_nodes -> type n = "Scan" ->
             BODY_GRAPH_DICT (snd rnn_late) !! name n = None) /\
  late_rewrite rnn_find_subgraph no_sort (snd rnn_late)
    = (Return (get_nodes (g (world (snd rnn_late)))), snd rnn_late) /\
  late_rewrite rnn_find_subgraph no_sort (install_nodes rnn_late_nodes (snd rnn_late))
    = (Return rnn_late_nodes, install_nodes rnn_late_nodes (snd rnn_late)).
Proof.
  apply (late_rewrite_drains_registry rnn_find_subgraph no_sort rnn_rewritten
           rnn_late_nodes (snd rnn_late)).
  vm_compute. reflexivity.
Defined.

(** *** The body graph's outputs *)

Lemma identity_nodes_cons c o ids :
  identity_nodes c (o :: ids) = identity_node (c + 1) o :: identity_nodes (S c) ids.
Proof.
  unfold identity_nodes. cbn [imap]. f_equal.
  - f_equal. lia.
  - apply imap_ext. intros i x _. cbn. f_equal. lia.
Qed.

Lemma insert_identity_spec acc o w :
  exists w',
    insert_identity acc o w
      = (Return (fst acc ++ [port_name (name_at "Identity" (S (INTERNAL_NAME w))) 0],
                 snd acc ++ [identity_node (S (INTERNAL_NAME w)) o]), w')
    /\ INTERNAL_NAME w' = S (INTERNAL_NAME w).
Proof.
  unfold insert_identity, copy_shape, make_name, dtype_of, shape_of, modify_g.
  unfold bind, gets, modify, ret. cbn [g].
  match goal with |- context [get_shape ?x o] => destruct (get_shape x o) end;
    eexists; split; reflexivity.
Qed.

Lemma prepare_outputs_loop ids : forall acc w,
  exists w',
    for_fold ids acc insert_identity w
      = (Return (fst acc ++ map (fun n => port_name (name n) 0)
                                (identity_nodes (INTERNAL_NAME w) ids),
                 snd acc ++ identity_nodes (INTERNAL_NAME w) ids), w').
Proof.
  induction ids as [|o ids IH]; intros acc w.
  - exists w. cbn. rewrite !app_nil_r. now destruct acc.
  - destruct (insert_identity_spec acc o w) as (w1 & H1 & Hc).
    cbn [for_fold]. rewrite (bind_ok _ _ _ _ _ H1).
    destruct (IH (fst acc ++ [port_name (name_at "Identity" (S (INTERNAL_NAME w))) 0],
                  snd acc ++ [identity_node (S (INTERNAL_NAME w)) o]) w1) as (w' & H').
    exists w'. rewrite H'. rewrite Hc, identity_nodes_cons. cbn [fst snd map].
    rewrite <- !app_assoc. cbn [app].
    replace (INTERNAL_NAME w + 1)%nat with (S (INTERNAL_NAME w)) by lia.
    reflexivity.
Qed.

Lemma identity_outputs_NoDup c ids :
  NoDup (map (fun n => port_name (name n) 0) (identity_nodes c ids)).
Proof.
  apply NoDup_alt. intros i j x Hi Hj.
  rewrite list_lookup_fmap in Hi, Hj. unfold identity_nodes in Hi, Hj.
  rewrite list_lookup_imap in Hi, Hj.
  destruct (ids !! i) as [oi|]; [|discriminate]. destruct (ids !! j) as [oj|]; [|discriminate].
  cbn [fmap option_fmap option_map] in Hi, Hj.
  injection Hi as Hi. injection Hj as Hj. rewrite <- Hj in Hi.
  change (port_name (name_at "Identity" (c + 1 + i)) 0
          = port_name (name_at "Identity" (c + 1 + j)) 0) in Hi.
  apply port_name_at_inj in Hi as (_ & Heq & _). lia.
Qed.

(** C8, as the code has it: a pass-through Identity node is inserted for
    every declared boundary output, whether its edge name is declared once
    or more than once.  The loop never fails; the body graph's output names
    are the outputs of the new Identity nodes, one per declared output, and
    they are pairwise distinct. *)
Theorem prepare_outputs_renames_every_output output_ids temp_nodes w :
  let ids := identity_nodes (INTERNAL_NAME w) output_ids in
  let new_output_names := map (fun n => port_name (name n) 0) ids in
  (exists w', prepare_outputs output_ids temp_nodes w
              = (Return (new_output_names, temp_nodes ++ ids), w')) /\
  length ids = length output_ids /\
  (forall o, o ∈ output_ids -> renamed o ids) /\
  NoDup new_output_names.
Proof.
  intros ids names. split; [|split; [|split]].
  - unfold prepare_outputs.
    destruct (prepare_outputs_loop output_ids ([], temp_nodes) w) as (w' & H').
    exists w'. exact H'.
  - unfold ids, identity_nodes. apply length_imap.
  - intros o Ho. apply list_elem_of_lookup in Ho as [i Hi].
    exists (identity_node (INTERNAL_NAME w + 1 + i) o). split; [|split; reflexivity].
    apply list_elem_of_lookup. exists i. unfold ids, identity_nodes.
    rewrite list_lookup_imap, Hi. reflexivity.
  - apply identity_outputs_NoDup.
Qed.

(** C8 as stated fails for two declared outputs of different names: each
    is given an Identity node and neither is exposed directly. *)
Lemma prepare_outputs_unique_names_counterexample :
  exists names nodes w',
    prepare_outputs ["a:0"; "b:0"] [] (candidate plain_graph "rnn/while/" plain_vars 0)
      = (Return (names, nodes), w') /\
    renamed "a:0" nodes /\ ~ duplicated "a:0" ["a:0"; "b:0"] /\ "a:0" ∉ names.
Proof.
  eexists _, _, _. split; [vm_compute; reflexivity|]. split; [|split].
  - eexists. split; [left|]. split; reflexivity.
  - unfold duplicated. intros H. vm_compute in H. lia.
  - intros H. elems H.
Qed.

(** ** Shapes and element types through the rewrite *)

Lemma get_shape_set_shape_eq n v gr : get_shape (set_shape n v gr) n = v.
Proof. unfold get_shape, set_shape. cbn. now rewrite lookup_insert_eq. Qed.

Lemma get_shape_set_shape_ne n m v gr :
  n <> m -> get_shape (set_shape n v gr) m = get_shape gr m.
Proof. intros H. unfold get_shape, set_shape. cbn. now rewrite lookup_insert_ne. Qed.

Lemma get_dtype_set_dtype_eq n v gr : get_dtype (set_dtype n v gr) n = v.
Proof. unfold get_dtype, set_dtype. cbn. now rewrite lookup_insert_eq. Qed.

Lemma get_dtype_set_dtype_ne n m v gr :
  n <> m -> get_dtype (set_dtype n v gr) m = get_dtype gr m.
Proof. intros H. unfold get_dtype, set_dtype. cbn. now rewrite lookup_insert_ne. Qed.

Lemma make_name_Return basis w nm w' :
  make_name basis w = (Return nm, w') ->
  nm = name_at basis (S (INTERNAL_NAME w)) /\
  w' = mkWorld (g w) (context w) (S (INTERNAL_NAME w)).
Proof. unfold make_name. intros H. inversion H. auto. Qed.

Lemma make_onnx_node_Return op ins attrs cnt sc w n w' :
  make_onnx_node op ins attrs cnt sc w = (Return n, w') ->
  n = mkNode (name_at (match sc with Some s => s +:+ "_" +:+ op | None => op end)
                      (S (INTERNAL_NAME w)))
             op ins
             (map (port_name (name_at (match sc with Some s => s +:+ "_" +:+ op | None => op end)
                                      (S (INTERNAL_NAME w))))
                  (seq 0 cnt))
             attrs /\
  w' = mkWorld (g w) (context w) (S (INTERNAL_NAME w)).
Proof.
  unfold make_onnx_node. intros H. step H as nm w1 Hn.
  apply make_name_Return in Hn as [-> ->]. apply ret_Return in H as [-> ->]. auto.
Qed.

Lemma make_const_Return nm v w n w' :
  make_const nm v w = (Return n, w') ->
  n = mkNode nm "Const" [] [nm] [("value", attr_t v)] /\
  w' = mkWorld (add_initializer nm v (g w)) (context w) (INTERNAL_NAME w).
Proof.
  unfold make_const. intros H. step H as u w1 Hu. prim Hu.
  apply ret_Return in H as [-> ->]. auto.
Qed.

Lemma generated_after_mono c0 c1 n :
  (c0 <= c1)%nat -> generated_after c1 n -> generated_after c0 n.
Proof. intros Hle (b & c & p & Hc & ->). exists b, c, p. split; [lia | reflexivity]. Qed.

Lemma extends_refl w : extends w w.
Proof. split; [lia | auto]. Qed.

Lemma extends_trans w1 w2 w3 : extends w1 w2 -> extends w2 w3 -> extends w1 w3.
Proof.
  intros [Hc1 H1] [Hc2 H2]. split; [lia|]. intros n Hn.
  destruct (H1 n Hn) as [<- <-]. apply H2.
  intros Hg. apply Hn. eapply generated_after_mono; eauto.
Qed.

(** An edge name made with a counter that [w] has passed is not made
    again later. *)
Lemma generated_before b c p c0 :
  (c <= c0)%nat -> ~ generated_after c0 (port_name (name_at b c) p).
Proof.
  intros Hle (b' & c' & p' & Hc & Heq).
  apply port_name_at_inj in Heq as (_ & -> & _). lia.
Qed.

Lemma original_not_generated_after e c0 :
  has_counter_mark e = false -> ~ generated_after c0 e.
Proof.
  intros He (b & c & p & _ & Heq). revert Heq. now apply original_not_generated.
Qed.

(** Writing the tables at an edge name generated after [w]. *)
Lemma extends_set_shape w w1 b c p v :
  extends w w1 -> (INTERNAL_NAME w < c)%nat ->
  extends w (mkWorld (set_shape (port_name (name_at b c) p) v (g w1))
                     (context w1) (INTERNAL_NAME w1)).
Proof.
  intros [Hc H] Hlt. split; [exact Hc|]. intros n Hn. cbn [g].
  destruct (H n Hn) as [<- <-]. split; [|reflexivity].
  apply get_shape_set_shape_ne. intros <-. apply Hn. exists b, c, p. auto.
Qed.

Lemma extends_set_dtype w w1 b c p v :
  extends w w1 -> (INTERNAL_NAME w < c)%nat ->
  extends w (mkWorld (set_dtype (port_name (name_at b c) p) v (g w1))
                     (context w1) (INTERNAL_NAME w1)).
Proof.
  intros [Hc H] Hlt. split; [exact Hc|]. intros n Hn. cbn [g].
  destruct (H n Hn) as [<- <-]. split; [reflexivity|].
  apply get_dtype_set_dtype_ne. intros <-. apply Hn. exists b, c, p. auto.
Qed.

(** Changes that leave both tables alone. *)
Lemma extends_same_tables w w1 w2 :
  extends w w1 ->
  _output_shapes (g w2) = _output_shapes (g w1) ->
  _dtypes (g w2) = _dtypes (g w1) ->
  (INTERNAL_NAME w1 <= INTERNAL_NAME w2)%nat ->
  extends w w2.
Proof.
  intros [Hc H] Hs Hd Hle. split; [lia|]. intros n Hn.
  destruct (H n Hn) as [<- <-]. unfold get_shape, get_dtype. now rewrite Hs, Hd.
Qed.

Lemma index_first_Return {S A} (x : A) (l : list A) (s : S) a s' :
  index (x :: l) 0 s = (Return a, s') -> a = x /\ s' = s.
Proof. intros H. apply index_Return in H as [E ->]. cbn in E. inversion E. auto. Qed.

(** Eliminates the steps of a straight-line computation that ended
    normally. *)
Ltac crunch_prim H :=
  match type of H with
  | index (_ :: _) 0 _ = (Return _, _) => apply index_first_Return in H as [-> ->]
  | make_onnx_node _ _ _ _ _ _ = (Return _, _) =>
      apply make_onnx_node_Return in H as [-> ->]
  | make_name _ _ = (Return _, _) => apply make_name_Return in H as [-> ->]
  | make_const _ _ _ = (Return _, _) => apply make_const_Return in H as [-> ->]
  | _ => prim H
  end.
Ltac crunch H :=
  lazymatch type of H with
  | bind _ _ _ = (Return _, _) =>
      let a := fresh "a" in let w := fresh "w" in let H1 := fresh "Hs" in
      apply bind_Return in H as (a & w & H1 & H);
      cbn [output input map seq fst snd g context INTERNAL_NAME] in H1;
      crunch H1;
      cbn [output input map seq fst snd g context INTERNAL_NAME] in H;
      crunch H
  | _ => first [crunch_prim H | idtac]
  end.

(** What [_adapt_scan_sequence_input_or_output] leaves: the last node made
    is the Reshape node, whose output bears the reshaped shape and the
    element type of the input. *)
Lemma _adapt_scan_sequence_input_or_output_spec target id ho w nodes w' :
  _adapt_scan_sequence_input_or_output target id ho w = (Return nodes, w') ->
  exists s c rn,
    get_shape (g w) id = Some s /\
    (INTERNAL_NAME w < c)%nat /\ (c <= INTERNAL_NAME w')%nat /\
    last nodes = Some rn /\
    output rn = [port_name (name_at (target +:+ "_" +:+ "Reshape") c) 0] /\
    extends w w' /\ context w' = context w /\ same_nodes w w' /\
    get_shape (g w') (port_name (name_at (target +:+ "_" +:+ "Reshape") c) 0)
      = Some (if ho then slice1 s else 1 :: s) /\
    get_dtype (g w') (port_name (name_at (target +:+ "_" +:+ "Reshape") c) 0)
      = get_dtype (g w) id.
Proof.
  unfold _adapt_scan_sequence_input_or_output. intros H.
  step H as shape_node w1 Hsn. apply make_onnx_node_Return in Hsn as [-> ->].
  step H as inferred w2 Hi. prim Hi. cbn [g] in H.
  step H as r w3 Hr.
  assert (Hfin : forall (w3 : World) (new_shape_node : Node) nodes_to_add new_shape o,
    output new_shape_node = [o] ->
    extends w w3 -> context w3 = context w -> same_nodes w w3 ->
    (INTERNAL_NAME w < INTERNAL_NAME w3)%nat ->
    get_dtype (g w3) id = get_dtype (g w) id ->
    (no <- index (output new_shape_node) 0 ;;
     reshape_node <- make_onnx_node "Reshape" [id; no] [] 1 (Some target) ;;
     ro <- index (output reshape_node) 0 ;;
     modify_g (set_shape ro (Some new_shape)) ;;;
     d <- dtype_of id ;;
     modify_g (set_dtype ro d) ;;;
     ret (nodes_to_add ++ [reshape_node])) w3 = (Return nodes, w') ->
    exists c rn,
      (INTERNAL_NAME w < c)%nat /\ (c <= INTERNAL_NAME w')%nat /\
      last nodes = Some rn /\
      output rn = [port_name (name_at (target +:+ "_" +:+ "Reshape") c) 0] /\
      extends w w' /\ context w' = context w /\ same_nodes w w' /\
      get_shape (g w') (port_name (name_at (target +:+ "_" +:+ "Reshape") c) 0)
        = Some new_shape /\
      get_dtype (g w') (port_name (name_at (target +:+ "_" +:+ "Reshape") c) 0)
        = get_dtype (g w) id).
  { clear. intros w3 nsn nta new_shape o Ho Hext Hctx Hnodes Hlt Hdt K.
    rewrite Ho in K. crunch K.
    exists (S (INTERNAL_NAME w3)), (mkNode (name_at (target +:+ "_" +:+ "Reshape")
                                              (S (INTERNAL_NAME w3))) "Reshape" [id; o]
                                      [port_name (name_at (target +:+ "_" +:+ "Reshape")
                                                          (S (INTERNAL_NAME w3))) 0] []).
    cbn [g context INTERNAL_NAME].
    split; [lia|]. split; [lia|]. split; [apply last_snoc|]. split; [reflexivity|].
    split; [|split; [exact Hctx|split; [exact Hnodes|split]]].
    - apply (extends_set_dtype w (mkWorld _ (context w3) (S (INTERNAL_NAME w3))));
        [|lia].
      apply (extends_set_shape w (mkWorld (g w3) (context w3) (S (INTERNAL_NAME w3))));
        [|lia].
      eapply extends_same_tables; [exact Hext | reflexivity | reflexivity | cbn; lia].
    - unfold get_shape, set_dtype. cbn. now rewrite lookup_insert_eq.
    - rewrite get_dtype_set_dtype_eq. unfold get_dtype, set_shape. cbn. exact Hdt. }
  destruct (get_shape (g w) id) as [s|] eqn:Hs.
  2:{ (* an unknown shape is a TypeError *)
      destruct ho; crunch Hr. }
  exists s.
  assert (Hbase : forall wx,
    _output_shapes (g wx) = _output_shapes (g w) -> _dtypes (g wx) = _dtypes (g w) ->
    (INTERNAL_NAME w <= INTERNAL_NAME wx)%nat -> extends w wx).
  { intros wx Hsh Hdt Hle. eapply extends_same_tables; eauto using extends_refl. }
  destruct ho.
  - destruct (bool_decide (count (-1) (slice1 s) <= 1)%nat); crunch Hr;
      cbn [fst snd] in H;
      (eapply Hfin in H as (c & rn & K);
       [ exists c, rn; split; [reflexivity | exact K] | reflexivity
       | apply Hbase; [reflexivity | reflexivity | cbn; lia]
       | reflexivity | reflexivity | cbn; lia | reflexivity ]).
  - destruct (bool_decide (count (-1) s <= 1)%nat); crunch Hr;
      cbn [fst snd] in H;
      (eapply Hfin in H as (c & rn & K);
       [ exists c, rn; split; [reflexivity | exact K] | reflexivity
       | apply Hbase; [reflexivity | reflexivity | cbn; lia]
       | reflexivity | reflexivity | cbn; lia | reflexivity ]).
Qed.

Lemma _create_unsqueeze_node_Return target id w n w' :
  _create_unsqueeze_node target id w = (Return n, w') ->
  exists s,
    get_shape (g w) id = Some s /\
    output n = [port_name (name_at (target +:+ "_" +:+ "Unsqueeze") (S (INTERNAL_NAME w))) 0] /\
    w' = mkWorld
           (set_dtype (port_name (name_at (target +:+ "_" +:+ "Unsqueeze")
                                          (S (INTERNAL_NAME w))) 0)
              (get_dtype (g w) id)
              (set_shape (port_name (name_at (target +:+ "_" +:+ "Unsqueeze")
                                             (S (INTERNAL_NAME w))) 0)
                 (Some (1 :: s)) (g w)))
           (context w) (S (INTERNAL_NAME w)).
Proof.
  unfold _create_unsqueeze_node. intros H.
  step H as un w1 Hn. apply make_onnx_node_Return in Hn as [-> ->].
  step H as sh w2 Hsh. prim Hsh. cbn [g] in H.
  destruct (get_shape (g w) id) as [s|]; [|discriminate H].
  crunch H. exists s. auto.
Qed.

Lemma _create_squeeze_node_Return target id w n w' :
  _create_squeeze_node target id w = (Return n, w') ->
  exists s,
    get_shape (g w) id = Some s /\
    output n = [port_name (name_at (target +:+ "_" +:+ "Squeeze") (S (INTERNAL_NAME w))) 0] /\
    w' = mkWorld
           (set_dtype (port_name (name_at (target +:+ "_" +:+ "Squeeze")
                                          (S (INTERNAL_NAME w))) 0)
              (get_dtype (g w) id)
              (set_shape (port_name (name_at (target +:+ "_" +:+ "Squeeze")
                                             (S (INTERNAL_NAME w))) 0)
                 (Some (slice1 s)) (g w)))
           (context w) (S (INTERNAL_NAME w)).
Proof.
  unfold _create_squeeze_node. intros H.
  step H as un w1 Hn. apply make_onnx_node_Return in Hn as [-> ->].
  step H as sh w2 Hsh. prim Hsh. cbn [g] in H.
  destruct (get_shape (g w) id) as [s|]; [|discriminate H].
  crunch H. exists s. auto.
Qed.

(** Two generated edge names with different counters differ. *)
Ltac other_counter :=
  let Heq := fresh "Heq" in
  intros Heq; apply port_name_at_inj in Heq as (_ & Heq & _); lia.

(** An edge name not generated after [c] differs from one that is. *)
Ltac not_generated Hn :=
  let Heq := fresh "Heq" in
  intros Heq; apply Hn; eexists _, _, _; split; [|symmetry; exact Heq]; lia.

(** What the time variable workaround leaves.  The only table entry
    written under a name of the original graph is the shape of the time
    variable's current-value edge, which gets a leading 1. *)
Lemma _adapt_time_var_as_workaround_spec var w var' nodes w' :
  _adapt_time_var_as_workaround var w = (Return (var', nodes), w') ->
  let c := INTERNAL_NAME w in
  let U1 := port_name (name_at "time_var_init_Unsqueeze" (S c)) 0 in
  let sw := switch_true_identity_output_id var in
  exists s,
    get_shape (g w) (enter_input_id var) = Some s /\
    enter_input_id var' = U1 /\
    switch_true_identity_output_id var' = sw /\
    exit_output_id var' = exit_output_id var /\
    INTERNAL_NAME w' = S (S (S c)) /\
    context w' = context w /\
    (sw <> U1 -> get_shape (g w') U1 = Some (1 :: s)) /\
    get_dtype (g w') U1 = get_dtype (g w) (enter_input_id var) /\
    (forall n, ~ generated_after c n ->
               get_dtype (g w') n = get_dtype (g w) n /\
               (n <> sw -> get_shape (g w') n = get_shape (g w) n)) /\
    (~ generated_after c sw ->
     exists s', get_shape (g w) sw = Some s' /\ get_shape (g w') sw = Some (1 :: s')).
Proof.
  intros H c U1 sw. unfold _adapt_time_var_as_workaround in H.
  step H as n1 w1 H1. apply _create_unsqueeze_node_Return in H1 as (s & Hs & Ho1 & ->).
  rewrite Ho1 in H.
  step H as o1 wa Hoa. apply index_first_Return in Hoa as [-> ->].
  step H as n2 w2 H2. apply _create_unsqueeze_node_Return in H2 as (s2 & Hs2 & Ho2 & ->).
  rewrite Ho2 in H.
  step H as o2 wb Hob. apply index_first_Return in Hob as [-> ->].
  step H as n3 w3 H3. apply _create_squeeze_node_Return in H3 as (s3 & Hs3 & Ho3 & ->).
  rewrite Ho3 in H.
  step H as o3 wc Hoc. apply index_first_Return in Hoc as [-> ->].
  cbn [g context INTERNAL_NAME switch_true_identity_output_id set_next_iteration_input_id
       set_enter_input_id next_iteration_input_id enter_input_id] in *.
  step H as u wd Hu. prim Hu. step H as sh we Hsh. prim Hsh.
  step H as s4 wf H4. prim H4. step H as u2 wg Hu2. prim Hu2.
  apply ret_Return in H as [H ->]. inversion H; subst var' nodes. clear H.
  cbn [g context INTERNAL_NAME switch_true_identity_output_id set_next_iteration_input_id
       set_enter_input_id next_iteration_input_id enter_input_id exit_output_id] in *.
  change ("time_var_init" +:+ "_" +:+ "Unsqueeze") with "time_var_init_Unsqueeze" in *.
  change ("time_var_output" +:+ "_" +:+ "Unsqueeze") with "time_var_output_Unsqueeze" in *.
  change ("time_var_input" +:+ "_" +:+ "Squeeze") with "time_var_input_Squeeze" in *.
  fold c in Hs2, Hs3, E |- *. fold sw in Hs3, E |- *. fold U1 in Hs2, Hs3, E |- *.
  set (U2 := port_name (name_at "time_var_output_Unsqueeze" (S (S c))) 0) in *.
  set (S3 := port_name (name_at "time_var_input_Squeeze" (S (S (S c)))) 0) in *.
  assert (H12 : U2 <> U1) by (unfold U1, U2; other_counter).
  assert (H13 : S3 <> U1) by (unfold U1, S3; other_counter).
  exists s. split; [exact Hs|]. split; [reflexivity|]. split; [reflexivity|].
  split; [reflexivity|]. split; [reflexivity|]. split; [reflexivity|].
  split; [|split; [|split]].
  - intros Hsw. rewrite get_shape_set_shape_ne by exact Hsw.
    unfold get_shape, set_dtype, set_shape, replace_all_inputs, set_nodes.
    cbn [_output_shapes]. rewrite !lookup_insert_ne by congruence.
    now rewrite lookup_insert_eq.
  - unfold get_dtype at 1. unfold set_dtype, set_shape, replace_all_inputs, set_nodes.
    cbn [_dtypes]. rewrite !lookup_insert_ne by congruence.
    now rewrite lookup_insert_eq.
  - intros n Hn.
    assert (Hn1 : U1 <> n) by (unfold U1; not_generated Hn).
    assert (Hn2 : U2 <> n) by (unfold U2; not_generated Hn).
    assert (Hn3 : S3 <> n) by (unfold S3; not_generated Hn).
    split.
    + unfold get_dtype at 1. unfold set_dtype, set_shape, replace_all_inputs, set_nodes.
      cbn [_dtypes]. now rewrite !lookup_insert_ne by congruence.
    + intros Hsw. unfold get_shape at 1.
      unfold set_dtype, set_shape, replace_all_inputs, set_nodes.
      cbn [_output_shapes]. now rewrite !lookup_insert_ne by congruence.
  - intros Hsw.
    assert (Hn1 : U1 <> sw) by (unfold U1; not_generated Hsw).
    assert (Hn2 : U2 <> sw) by (unfold U2; not_generated Hsw).
    assert (Hn3 : S3 <> sw) by (unfold S3; not_generated Hsw).
    unfold get_shape at 1 in E.
    unfold set_dtype, set_shape, replace_all_inputs, set_nodes in E.
    cbn [_output_shapes] in E. rewrite !lookup_insert_ne in E by congruence.
    exists s4. split; [exact E|].
    apply get_shape_set_shape_eq.
Qed.

Lemma generated_upto_mono c0 c1 n :
  (c0 <= c1)%nat -> generated_upto c0 n -> generated_upto c1 n.
Proof. intros Hle (b & c & p & Hc & ->). exists b, c, p. split; [lia | reflexivity]. Qed.

Lemma generated_upto_not_after c0 c1 n :
  (c0 <= c1)%nat -> generated_upto c0 n -> ~ generated_after c1 n.
Proof. intros Hle (b & c & p & Hc & ->). apply generated_before. lia. Qed.

Lemma extends_context w w1 f :
  extends w w1 -> extends w (mkWorld (g w1) (f (context w1)) (INTERNAL_NAME w1)).
Proof. intros H. eapply extends_same_tables; eauto. Qed.

Lemma store_var_Return key var w u w' :
  store_var key var w = (Return u, w') ->
  g w' = g w /\ INTERNAL_NAME w' = INTERNAL_NAME w.
Proof. destruct key; cbn; intros H; prim H; auto. Qed.

Lemma extends_store w w1 w2 :
  extends w w1 -> g w2 = g w1 -> INTERNAL_NAME w2 = INTERNAL_NAME w1 -> extends w w2.
Proof.
  intros H Hg Hc. eapply extends_same_tables; eauto; [now rewrite Hg.. | lia].
Qed.

(** One state variable more: its initial value is reshaped with a leading
    1 under a fresh edge name, which joins the composed inputs. *)
Lemma compose_state_input_spec acc kv w acc' w' :
  compose_state_input acc kv w = (Return acc', w') ->
  extends w w' /\
  exists s c,
    get_shape (g w) (enter_input_id kv.2) = Some s /\
    (INTERNAL_NAME w < c)%nat /\ (c <= INTERNAL_NAME w')%nat /\
    snd acc' = snd acc ++ [port_name (name_at "input_Reshape" c) 0] /\
    length (snd (fst acc')) = S (length (snd (fst acc))) /\
    get_shape (g w') (port_name (name_at "input_Reshape" c) 0) = Some (1 :: s) /\
    get_dtype (g w') (port_name (name_at "input_Reshape" c) 0)
      = get_dtype (g w) (enter_input_id kv.2).
Proof.
  destruct acc as [[[nta lsi] lso] init]. unfold compose_state_input. intros H.
  step H as nodes w1 Ha.
  apply _adapt_scan_sequence_input_or_output_spec in Ha
    as (s & c & rn & Hs & Hlt & Hle & Hlast & Hout & Hext & Hctx & _ & Hsh & Hdt).
  change ("input" +:+ "_" +:+ "Reshape") with "input_Reshape" in *.
  step H as lastn w2 Hl. prim Hl. rewrite Hlast in E. injection E as <-.
  rewrite Hout in H.
  step H as o w3 Ho. apply index_first_Return in Ho as [-> ->].
  step H as u w4 Hst. apply store_var_Return in Hst as [Hg Hc].
  apply ret_Return in H as [-> ->]. cbn [fst snd].
  split; [eapply extends_store; eauto|].
  exists s, c. rewrite Hg, Hc. repeat split; auto.
  rewrite length_app. cbn. lia.
Qed.

Lemma compose_state_loop l : forall acc w acc' w',
  for_fold l acc compose_state_input w = (Return acc', w') ->
  extends w w' /\
  length (snd (fst acc')) = (length (snd (fst acc)) + length l)%nat /\
  exists more, snd acc' = snd acc ++ more /\
               Forall (generated_upto (INTERNAL_NAME w')) more.
Proof.
  induction l as [|kv l IH]; intros acc w acc' w' H; cbn [for_fold] in H.
  - prim H. split; [apply extends_refl|]. split; [cbn; lia|].
    exists []. now rewrite app_nil_r.
  - step H as acc1 w1 H1.
    apply compose_state_input_spec in H1
      as (Hext1 & s & c & _ & Hlt & Hle & Hinit & Hlen & _).
    apply IH in H as (Hext2 & Hlen2 & more & Hmore & Hall).
    split; [eapply extends_trans; eauto|]. split; [cbn [length]; lia|].
    exists (port_name (name_at "input_Reshape" c) 0 :: more).
    split; [rewrite Hmore, Hinit, <- app_assoc; reflexivity|].
    constructor; [|exact Hall].
    exists "input_Reshape", c, 0%nat. split; [|reflexivity].
    destruct Hext2 as [Hc _]. lia.
Qed.

Lemma compose_scan_input_spec acc ta w acc' w' :
  compose_scan_input acc ta w = (Return acc', w') ->
  extends w w' /\
  exists c,
    (c <= INTERNAL_NAME w')%nat /\
    snd (fst acc') = snd (fst acc) ++ [port_name (name_at "input_ta_Reshape" c) 0].
Proof.
  destruct acc as [[[nta lsi] init] tas]. unfold compose_scan_input. intros H.
  step H as nodes w1 Ha.
  apply _adapt_scan_sequence_input_or_output_spec in Ha
    as (s & c & rn & Hs & Hlt & Hle & Hlast & Hout & Hext & Hctx & _ & Hsh & Hdt).
  change ("input_ta" +:+ "_" +:+ "Reshape") with "input_ta_Reshape" in *.
  step H as lastn w2 Hl. prim Hl. rewrite Hlast in E. injection E as <-.
  rewrite Hout in H.
  step H as o w3 Ho. apply index_first_Return in Ho as [-> ->].
  step H as out w4 Hst. prim Hst.
  apply ret_Return in H as [-> ->]. cbn [fst snd].
  split; [exact Hext|]. exists c. auto.
Qed.

Lemma compose_scan_loop l : forall acc w acc' w',
  for_fold l acc compose_scan_input w = (Return acc', w') ->
  extends w w' /\
  exists more, snd (fst acc') = snd (fst acc) ++ more /\
               Forall (generated_upto (INTERNAL_NAME w')) more.
Proof.
  induction l as [|ta l IH]; intros acc w acc' w' H; cbn [for_fold] in H.
  - prim H. split; [apply extends_refl|]. exists []. now rewrite app_nil_r.
  - step H as acc1 w1 H1.
    apply compose_scan_input_spec in H1 as (Hext1 & c & Hle & Hinit).
    apply IH in H as (Hext2 & more & Hmore & Hall).
    split; [eapply extends_trans; eauto|].
    exists (port_name (name_at "input_ta_Reshape" c) 0 :: more).
    split; [rewrite Hmore, Hinit, <- app_assoc; reflexivity|].
    constructor; [|exact Hall].
    exists "input_ta_Reshape", c, 0%nat. split; [|reflexivity].
    destruct Hext2 as [Hc _]. lia.
Qed.

Lemma extends_untouched w w' n :
  extends w w' -> ~ generated_after (INTERNAL_NAME w) n ->
  get_shape (g w') n = get_shape (g w) n /\ get_dtype (g w') n = get_dtype (g w) n.
Proof. intros [_ H]. apply H. Qed.

(** What composition leaves.  The first composed input is the time
    variable's initial value with two leading axes; every composed input
    bears a generated name; under the names of the original graph, the
    tables are as before, but for the shape of the time variable's
    current-value edge, which has a leading 1 more. *)
Lemma _compose_cell_inputs_and_outputs_spec w sp nodes w' tv :
  _compose_cell_inputs_and_outputs w = (Return (sp, nodes), w') ->
  time_var (context w) = Some tv ->
  let c0 := INTERNAL_NAME w in
  let sw := switch_true_identity_output_id tv in
  (c0 <= INTERNAL_NAME w')%nat /\
  loop_scan_outputs sp = map data_input_id (output_tas (context w)) /\
  length (loop_state_outputs sp) = S (length (other_loop_vars (context w))) /\
  Forall (generated_upto (INTERNAL_NAME w')) (initial_state_and_scan_inputs sp) /\
  (exists s R0 rest,
     get_shape (g w) (enter_input_id tv) = Some s /\
     initial_state_and_scan_inputs sp = R0 :: rest /\
     (~ generated_after c0 sw -> get_shape (g w') R0 = Some (1 :: 1 :: s)) /\
     get_dtype (g w') R0 = get_dtype (g w) (enter_input_id tv)) /\
  (forall e, ~ generated_after c0 e ->
             get_dtype (g w') e = get_dtype (g w) e /\
             (e <> sw -> get_shape (g w') e = get_shape (g w) e)) /\
  (~ generated_after c0 sw ->
   exists s', get_shape (g w) sw = Some s' /\ get_shape (g w') sw = Some (1 :: s')).
Proof.
  intros H Htv c0 sw. unfold _compose_cell_inputs_and_outputs in H.
  step H as ctx wa Hc. prim Hc. step H as tv' wb Ht. prim Ht.
  rewrite Htv in E. injection E as <-.
  step H as r w1 Had. destruct r as [var' nodes0].
  apply _adapt_time_var_as_workaround_spec in Had
    as (s & Hs & Hent & Hsw & _ & Hc1 & Hctx1 & HU1 & HdU1 & Hframe1 & Hsw1).
  fold c0 in Hent, Hc1, HU1, HdU1, Hframe1, Hsw1. fold sw in Hsw, HU1, Hframe1, Hsw1.
  cbn [fst snd] in H.
  step H as u w2 Hst. apply store_var_Return in Hst as [Hg2 Hc2].
  step H as acc w3 Hloop. cbn [for_fold] in Hloop.
  step Hloop as acc1 w2' Hfirst.
  apply compose_state_input_spec in Hfirst
    as (Hext1 & s1 & c & Hs1 & Hlt & Hle & Hinit1 & Hlen1 & HshR & HdtR).
  cbn [fst snd] in Hs1, Hinit1, Hlen1, HdtR. rewrite Hent, Hg2 in Hs1, HdtR.
  apply compose_state_loop in Hloop as (Hext2 & Hlen2 & more & Hmore & Hall).
  destruct acc as [[[nta lsi] lso] init]. cbn [fst snd] in *.
  step H as acc2 w4 Hscan.
  apply compose_scan_loop in Hscan as (Hext3 & more2 & Hmore2 & Hall2).
  destruct acc2 as [[[nta2 lsci] init2] tas]. cbn [fst snd] in *.
  step H as u2 w5 Hm. prim Hm. apply ret_Return in H as [H ->].
  injection H as -> ->. cbn [loop_scan_outputs loop_state_outputs
    initial_state_and_scan_inputs g INTERNAL_NAME context].
  pose proof (extends_trans _ _ _ Hext1 (extends_trans _ _ _ Hext2 Hext3)) as Hext.
  assert (Hc23 : (INTERNAL_NAME w2' <= INTERNAL_NAME w4)%nat).
  { destruct Hext2, Hext3. lia. }
  assert (Hc34 : (INTERNAL_NAME w3 <= INTERNAL_NAME w4)%nat) by (destruct Hext3; lia).
  assert (HR0 : ~ generated_after (INTERNAL_NAME w2')
                  (port_name (name_at "input_Reshape" c) 0)).
  { apply generated_before. exact Hle. }
  destruct (extends_untouched _ _ _ (extends_trans _ _ _ Hext2 Hext3) HR0) as [HshR' HdtR'].
  assert (Hlater : forall e, ~ generated_after c0 e ->
            get_shape (g w4) e = get_shape (g w1) e /\
            get_dtype (g w4) e = get_dtype (g w1) e).
  { intros e He. rewrite <- Hg2. apply (extends_untouched _ _ _ Hext).
    intros Hg. apply He. eapply generated_after_mono; [|exact Hg]. lia. }
  split; [destruct Hext; lia|]. split; [reflexivity|].
  split; [rewrite Hlen2, Hlen1, length_map; cbn; lia|].
  split; [|split; [|split]].
  - rewrite Hmore2, Hmore, Hinit1. cbn [app].
    constructor; [|apply Forall_app; split].
    + exists "input_Reshape", c, 0%nat. split; [lia | reflexivity].
    + eapply Forall_impl; [exact Hall|]. intros x. apply generated_upto_mono. exact Hc34.
    + exact Hall2.
  - exists s, (port_name (name_at "input_Reshape" c) 0), (more ++ more2).
    split; [exact Hs|]. split; [rewrite Hmore2, Hmore, Hinit1; reflexivity|].
    split.
    + intros Hnsw. rewrite HshR', HshR.
      rewrite HU1 in Hs1.
      * injection Hs1 as <-. reflexivity.
      * intros Heq. apply Hnsw. exists "time_var_init_Unsqueeze", (S c0), 0%nat.
        split; [lia | exact Heq].
    + rewrite HdtR', HdtR. exact HdU1.
  - intros e He. destruct (Hlater e He) as [Hsh Hdt]. destruct (Hframe1 e He) as [Hd1 Hs1'].
    split; [congruence|]. intros Hne. rewrite Hsh. auto.
  - intros Hnsw. destruct (Hsw1 Hnsw) as (s' & Hs' & Hs'').
    exists s'. split; [exact Hs'|]. destruct (Hlater sw Hnsw) as [-> _]. exact Hs''.
Qed.

Lemma only_ports_refl nm lo w : only_ports nm lo w w.
Proof. repeat split. Qed.

Lemma only_ports_trans nm lo lo' w1 w2 w3 :
  (lo <= lo')%nat -> only_ports nm lo w1 w2 -> only_ports nm lo' w2 w3 ->
  only_ports nm lo w1 w3.
Proof.
  intros Hle (Hc1 & Hx1 & H1) (Hc2 & Hx2 & H2).
  split; [congruence|]. split; [congruence|]. intros n Hn.
  destruct (H1 n Hn) as [<- <-]. apply H2. intros p Hp. apply Hn. lia.
Qed.

Lemma lookup_ports nm k i o :
  map (port_name nm) (seq 0 k) !! i = Some o -> o = port_name nm i.
Proof.
  rewrite list_lookup_fmap. intros H.
  destruct (seq 0 k !! i) as [j|] eqn:Hj; [|discriminate].
  apply lookup_seq in Hj as [-> _]. cbn in H. now injection H as <-.
Qed.

Lemma port_name_inj b c p p' :
  port_name (name_at b c) p = port_name (name_at b c) p' -> p = p'.
Proof. intros H. now apply port_name_at_inj in H as (_ & _ & H). Qed.

(** Writing shape and dtype at one port. *)
Lemma only_ports_set b c idx sh dt w :
  only_ports (name_at b c) idx w
    (mkWorld (set_dtype (port_name (name_at b c) idx) dt
                (set_shape (port_name (name_at b c) idx) sh (g w)))
             (context w) (INTERNAL_NAME w)).
Proof.
  split; [reflexivity|]. split; [reflexivity|]. intros n Hn. cbn [g].
  assert (Hne : port_name (name_at b c) idx <> n).
  { intros Heq. apply (Hn idx); [lia | now symmetry]. }
  split.
  - unfold get_shape, set_dtype, set_shape. cbn. now rewrite lookup_insert_ne.
  - unfold get_dtype, set_dtype, set_shape. cbn. now rewrite lookup_insert_ne.
Qed.

Section ScanOutputs.

Variables (b : string) (c : nat) (scan_node : Node) (k : nat).
Hypothesis Hout : output scan_node = map (port_name (name_at b c)) (seq 0 k).

Lemma set_state_output_spec sh dt idx i w idx' w' :
  set_state_output scan_node sh dt idx i w = (Return idx', w') ->
  idx' = S idx /\ only_ports (name_at b c) idx w w'.
Proof.
  unfold set_state_output. intros H. rewrite Hout in H.
  step H as o w1 Ho. prim Ho. apply lookup_ports in E. subst o.
  step H as u1 w2 H1. prim H1. step H as u2 w3 H2. prim H2.
  apply ret_Return in H as [-> ->]. split; [reflexivity|].
  cbn [g context INTERNAL_NAME]. apply only_ports_set.
Qed.

Lemma state_output_loop sh dt l : forall idx w idx' w',
  for_fold l idx (set_state_output scan_node sh dt) w = (Return idx', w') ->
  idx' = (idx + length l)%nat /\ only_ports (name_at b c) idx w w'.
Proof.
  induction l as [|i l IH]; intros idx w idx' w' H; cbn [for_fold] in H.
  - prim H. split; [cbn; lia | apply only_ports_refl].
  - step H as idx1 w1 H1. apply set_state_output_spec in H1 as [-> Hp1].
    apply IH in H as [-> Hp2]. split; [cbn; lia|].
    eapply only_ports_trans; [|exact Hp1|exact Hp2]. lia.
Qed.

Variables (scan_props : ScanProperties) (batch time : Z).

(** The loop over the output arrays: the slot of array [i] is given the
    shape [[batch; time] + cell_output_shape]. *)
Lemma scan_output_loop m : forall j idx w idx' w',
  for_fold (seq j m) idx (set_scan_output scan_node scan_props batch time) w
    = (Return idx', w') ->
  only_ports (name_at b c) idx w w' /\
  forall i e, (j <= i < j + m)%nat ->
    loop_scan_outputs scan_props !! i = Some e ->
    (forall p, e <> port_name (name_at b c) p) ->
    exists os, get_shape (g w) e = Some os /\
               get_shape (g w') (port_name (name_at b c) (idx + (i - j)))
               = Some (batch :: time :: os).
Proof.
  induction m as [|m IH]; intros j idx w idx' w' H; cbn [seq for_fold] in H.
  - prim H. split; [apply only_ports_refl|]. intros i e Hi. lia.
  - step H as idx1 w1 H1. unfold set_scan_output in H1. rewrite Hout in H1.
    step H1 as e0 wa He. prim He. step H1 as dt wb Hd. prim Hd.
    step H1 as osh wc Hs. prim Hs. step H1 as os wd Hos. prim Hos.
    step H1 as o we Ho. prim Ho. apply lookup_ports in E1. subst o.
    step H1 as u1 wf Hu1. prim Hu1. step H1 as u2 wg Hu2. prim Hu2.
    apply ret_Return in H1 as [-> ->].
    cbn [g context INTERNAL_NAME] in H.
    apply IH in H as [Hp2 Hrest].
    pose proof (only_ports_set b c idx (Some ([batch; time] ++ os)) (get_dtype (g w) e0) w)
      as Hp1.
    split; [eapply only_ports_trans; [|exact Hp1|exact Hp2]; lia|].
    intros i e Hi He Hne.
    destruct (decide (i = j)) as [->|Hij].
    + rewrite E in He. injection He as <-. exists os. split; [exact E0|].
      replace (idx + (j - j))%nat with idx by lia.
      destruct Hp2 as (_ & _ & Hp2). destruct (Hp2 (port_name (name_at b c) idx)) as [-> _].
      * intros p Hp Heq. apply port_name_inj in Heq. lia.
      * cbn [g]. unfold get_shape, set_dtype, set_shape. cbn.
        now rewrite lookup_insert_eq.
    + destruct (Hrest i e ltac:(lia) He Hne) as (os' & Hos' & Hsh').
      exists os'. split.
      * rewrite <- Hos'. cbn [g]. symmetry.
        unfold get_shape, set_dtype, set_shape. cbn.
        rewrite lookup_insert_ne; [reflexivity|]. intros Heq. now apply (Hne idx).
      * replace (idx + (i - j))%nat with (S idx + (i - S j))%nat by lia. exact Hsh'.
Qed.

End ScanOutputs.

Lemma only_ports_extends b c lo w0 w w' :
  extends w0 w -> (INTERNAL_NAME w0 < c)%nat ->
  only_ports (name_at b c) lo w w' -> extends w0 w'.
Proof.
  intros [Hc H] Hlt (Hc' & _ & H'). split; [lia|]. intros n Hn.
  destruct (H n Hn) as [<- <-]. apply H'. intros p _ ->.
  apply Hn. exists b, c, p. auto.
Qed.

Lemma lookup_two {A} (l : list A) (x y : A) :
  l !! 0%nat = Some x -> l !! 1%nat = Some y -> exists rest, l = x :: y :: rest.
Proof.
  destruct l as [|a [|b l]]; cbn; intros H0 H1; try discriminate.
  injection H0 as ->. injection H1 as ->. eauto.
Qed.

(** What [_create_scan_node] leaves: slot 0 bears the shape and the
    element type of the first composed input, and the slot of each output
    array the first two axes of the last composed input before the
    array's own cell output shape. *)
Lemma _create_scan_node_spec sp w scan w' :
  _create_scan_node sp w = (Return scan, w') ->
  let c := INTERNAL_NAME w in
  let nm := name_at "Scan" (S c) in
  type scan = "Scan" /\
  input scan = "" :: initial_state_and_scan_inputs sp /\
  output scan = map (port_name nm)
                    (seq 0 (length (loop_state_outputs sp ++ loop_scan_outputs sp))) /\
  INTERNAL_NAME w' = S c /\
  extends w w' /\
  (exists i1,
     initial_state_and_scan_inputs sp !! 0%nat = Some i1 /\
     get_shape (g w') (port_name nm 0) = get_shape (g w) i1 /\
     get_dtype (g w') (port_name nm 0) = get_dtype (g w) i1) /\
  (exists il,
     last (input scan) = Some il /\
     (~ generated_after c il ->
      exists batch time rest,
        get_shape (g w) il = Some (batch :: time :: rest) /\
        forall i e,
          loop_scan_outputs sp !! i = Some e -> ~ generated_after c e ->
          exists os,
            get_shape (g w) e = Some os /\
            get_shape (g w') (port_name nm (S (length (loop_state_outputs sp) - 1) + i))
            = Some (batch :: time :: os))).
Proof.
  intros H c nm. unfold _create_scan_node in H.
  step H as sn w1 Hn. apply make_onnx_node_Return in Hn as [-> ->].
  fold c in H. fold nm in H.
  set (k := length (loop_state_outputs sp ++ loop_scan_outputs sp)) in *.
  set (sn := mkNode nm "Scan" ("" :: initial_state_and_scan_inputs sp)
                    (map (port_name nm) (seq 0 k))
                    [("num_scan_inputs",
                      attr_i (Z.of_nat (length (loop_scan_inputs sp))))]) in *.
  assert (Hout : output sn = map (port_name (name_at "Scan" (S c))) (seq 0 k))
    by reflexivity.
  step H as i1 wa Hi1. prim Hi1. cbn [input sn lookup list_lookup] in E.
  step H as tsh wb Hts. prim Hts. step H as tdt wc Htd. prim Htd.
  step H as o0 wd Ho0. prim Ho0. rewrite Hout in E0. apply lookup_ports in E0. subst o0.
  fold nm in H.
  step H as u1 we Hu1. prim Hu1. step H as u2 wf Hu2. prim Hu2.
  cbn [g context INTERNAL_NAME] in H.
  set (w1 := mkWorld (set_dtype (port_name nm 0) (get_dtype (g w) i1)
                        (set_shape (port_name nm 0) (get_shape (g w) i1) (g w)))
                     (context w) (S c)) in *.
  step H as i2 wg Hi2. prim Hi2. step H as ssh wh Hss. prim Hss.
  step H as sdt wi Hsd. prim Hsd.
  step H as idx2 w2 Hl1.
  apply (state_output_loop "Scan" (S c) sn k Hout) in Hl1 as [-> Hp1].
  rewrite length_seq in H.
  step H as il wj Hil. prim Hil.
  step H as lsh wk Hls. prim Hls. step H as ls wl Hlss. prim Hlss.
  step H as batch wm Hb. prim Hb. step H as time wn Ht. prim Ht.
  step H as idx3 w3 Hl2.
  apply (scan_output_loop "Scan" (S c) sn k Hout) in Hl2 as [Hp2 Hslots].
  apply ret_Return in H as [-> ->].
  fold nm in Hp1, Hp2, Hslots.
  assert (Hw1 : only_ports nm 0 (mkWorld (g w) (context w) (S c)) w1).
  { unfold w1, nm.
    apply (only_ports_set "Scan" (S c) 0%nat _ _ (mkWorld (g w) (context w) (S c))). }
  assert (Hall : only_ports nm 1 w1 w3).
  { eapply only_ports_trans; [|exact Hp1|exact Hp2]. lia. }
  assert (Hbase : extends w (mkWorld (g w) (context w) (S c))).
  { split; [cbn; lia|]. intros n _. split; reflexivity. }
  split; [reflexivity|]. split; [reflexivity|]. split; [exact Hout|].
  split; [destruct Hall as (-> & _); reflexivity|].
  split; [|split].
  - apply (only_ports_extends "Scan" (S c) 0 w (mkWorld (g w) (context w) (S c)));
      [exact Hbase | unfold c; lia |].
    eapply only_ports_trans; [|exact Hw1|exact Hall]. lia.
  - exists i1. split; [exact E|].
    destruct Hall as (_ & _ & Hall). destruct (Hall (port_name nm 0)) as [-> ->].
    + intros p Hp Heq. apply port_name_inj in Heq. lia.
    + unfold w1. cbn [g]. split.
      * unfold get_shape at 1. unfold set_dtype, set_shape. cbn.
        now rewrite lookup_insert_eq.
      * apply get_dtype_set_dtype_eq.
  - exists il. split; [exact E1|]. intros Hil.
    assert (Hport : forall e, ~ generated_after c e -> forall p, e <> port_name nm p).
    { intros e He p ->. apply He. exists "Scan", (S c), p. split; [lia | reflexivity]. }
    assert (Huntouched : forall e, ~ generated_after c e ->
              get_shape (g w2) e = get_shape (g w) e).
    { intros e He.
      destruct Hp1 as (_ & _ & Hp1). destruct (Hp1 e) as [-> _].
      { intros p _. now apply Hport. }
      unfold w1. cbn [g]. unfold get_shape, set_dtype, set_shape. cbn.
      rewrite lookup_insert_ne; [reflexivity|]. intros Heq. now apply (Hport e He 0%nat). }
    rewrite (Huntouched il Hil) in E2.
    destruct (lookup_two ls batch time E3 E4) as [rest ->].
    exists batch, time, rest. split; [exact E2|]. intros i e He Hne.
    assert (Hi : (i < length (loop_scan_outputs sp))%nat)
      by (eapply lookup_lt_Some; eauto).
    destruct (Hslots i e ltac:(lia) He (Hport e Hne)) as (os & Hos & Hsh).
    exists os. split; [rewrite <- (Huntouched e Hne); exact Hos|].
    rewrite Nat.sub_0_r in Hsh. exact Hsh.
Qed.

Lemma same_tables_refl w : same_tables w w.
Proof. repeat split. Qed.

Lemma same_tables_trans w1 w2 w3 :
  same_tables w1 w2 -> same_tables w2 w3 -> same_tables w1 w3.
Proof. unfold same_tables. intros (?&?&?&?) (?&?&?&?). repeat split; congruence. Qed.

Lemma same_tables_extends w w' : same_tables w w' -> extends w w'.
Proof.
  intros (Hs & Hd & Hc & _). eapply extends_same_tables; eauto using extends_refl.
  rewrite Hc. reflexivity.
Qed.

Lemma same_tables_shape w w' n : same_tables w w' -> get_shape (g w') n = get_shape (g w) n.
Proof. intros (Hs & _). unfold get_shape. now rewrite Hs. Qed.

Lemma same_tables_dtype w w' n : same_tables w w' -> get_dtype (g w') n = get_dtype (g w) n.
Proof. intros (_ & Hd & _). unfold get_dtype. now rewrite Hd. Qed.

(** Cutting the cell off rewires inputs only. *)
Lemma _cut_off_connection_for_cell_same w r w' :
  _cut_off_connection_for_cell w = (Return r, w') -> same_tables w w'.
Proof.
  unfold _cut_off_connection_for_cell. intros H.
  step H as ctx wa Hc. prim Hc.
  step H as r1 w1 H1. step H as r2 w2 H2. step H as u w3 H3. prim H.
  apply (same_tables_trans _ w1); [|apply (same_tables_trans _ w2)].
  - revert H1. apply (for_fold_keeps same_tables);
      [apply same_tables_refl | apply same_tables_trans |].
    intros acc v s0 r0 s0' K. crunch K. repeat split.
  - revert H2. apply (for_fold_keeps same_tables);
      [apply same_tables_refl | apply same_tables_trans |].
    intros acc v s0 r0 s0' K. crunch K. repeat split.
  - revert H3. apply (for_each_keeps same_tables);
      [apply same_tables_refl | apply same_tables_trans |].
    intros v s0 r0 s0' K. prim K. repeat split.
Qed.

Lemma connect_output_extends target scan acc out w acc' w' :
  connect_output target scan acc out w = (Return acc', w') -> extends w w'.
Proof.
  unfold connect_output. intros H. step H as nta w1 H1. prim H.
  destruct (truthy out).
  - step H1 as so wa Hso. prim Hso. step H1 as nodes w2 Ha.
    apply _adapt_scan_sequence_input_or_output_spec in Ha
      as (s & c & rn & _ & _ & _ & _ & _ & Hext & _).
    step H1 as lastn wb Hl. prim Hl. step H1 as lo wc Hlo. prim Hlo.
    step H1 as u wd Hu. prim Hu. prim H1.
    eapply extends_same_tables; [exact Hext | reflexivity | reflexivity | cbn; lia].
  - prim H1. apply extends_refl.
Qed.

Lemma _connect_scan_with_output_extends scan w r w' :
  _connect_scan_with_output scan w = (Return r, w') -> extends w w'.
Proof.
  unfold _connect_scan_with_output. intros H.
  step H as ctx wa Hc. prim Hc. step H as acc1 w1 H1. step H as acc2 w2 H2. prim H.
  apply (extends_trans _ w1).
  - revert H1. apply (for_fold_keeps extends); [apply extends_refl | apply extends_trans |].
    intros. eapply connect_output_extends; eauto.
  - revert H2. apply (for_fold_keeps extends); [apply extends_refl | apply extends_trans |].
    intros. eapply connect_output_extends; eauto.
Qed.

Section SuccessfulRewrite.

Variable find_subgraph : SubGraphMetadata -> Graph -> outcome (list Node * list Node).
Variable _extract_sub_graph_nodes : Graph -> option Node -> list Node.

Lemma _extract_and_register_cell_graph_info_same sp scan s r s' :
  _extract_and_register_cell_graph_info find_subgraph _extract_sub_graph_nodes sp scan s
    = (Return r, s') ->
  same_tables (world s) (world s').
Proof.
  unfold _extract_and_register_cell_graph_info. intros H.
  step H as r1 s1 H1. apply lift_Return in H1 as [H1 _].
  assert (Hw1 : world s1 = world s) by (inversion H1; reflexivity). clear H1.
  step H as acc s2 H2. apply lift_Return in H2 as [H2 _]. rewrite Hw1 in H2.
  step H as u s3 H3. prim H.
  assert (Hw3 : world s3 = world s2).
  { unfold add_body_graph_info in H3.
    destruct (BODY_GRAPH_DICT s2 !! name scan); inversion H3; reflexivity. }
  rewrite Hw3. revert H2.
  apply (for_fold_keeps same_tables);
    [apply same_tables_refl | apply same_tables_trans |].
  intros a0 v s0 r0 s0' K. crunch K. repeat split.
Qed.

Lemma rewrite_after_scan_node_extends sp nta scan s r s' :
  rewrite_after_scan_node find_subgraph _extract_sub_graph_nodes sp nta scan s
    = (Return r, s') ->
  extends (world s) (world s') /\
  scan ∈ get_nodes (g (world s')).
Proof.
  unfold rewrite_after_scan_node. intros H.
  step H as ns s1 H1. apply _extract_and_register_cell_graph_info_same in H1.
  step H as ap s2 H2. apply lift_Return in H2 as [H2 _].
  apply _connect_scan_with_output_extends in H2.
  step H as u s3 H3. apply lift_Return in H3 as [H3 _]. prim H.
  apply modify_Return in H3. rewrite H3. split.
  - eapply extends_same_tables;
      [exact (extends_trans _ _ _ (same_tables_extends _ _ H1) H2)
      | reflexivity | reflexivity | cbn; lia].
  - cbn [g get_nodes set_nodes _nodes]. rewrite !elem_of_app.
    right. left. right. left.
Qed.

(** The steps of a rewrite that ended with [OK]. *)
Lemma rewrite_try_OK s scan s' :
  rewrite_try find_subgraph _extract_sub_graph_nodes s = (Return OK, Some scan, s') ->
  exists w1 w2 sp nta w3 w4,
    same_tables (world s) w1 /\
    same_tables w1 w2 /\
    _compose_cell_inputs_and_outputs w2 = (Return (sp, nta), w3) /\
    _create_scan_node sp w3 = (Return scan, w4) /\
    extends w4 (world s') /\
    scan ∈ get_nodes (g (world s')).
Proof.
  unfold rewrite_try. intros H.
  destruct (rewrite_until_scan_node s) as [[[[sp nta] sn]|e] s1] eqn:H1;
    [|discriminate H].
  destruct (rewrite_after_scan_node _ _ sp nta sn s1) as [r s2] eqn:H2.
  injection H as -> -> ->.
  apply rewrite_after_scan_node_extends in H2 as [Hext Hin].
  unfold rewrite_until_scan_node in H1. apply lift_Return in H1 as [H1 _].
  step H1 as to_remove w1 Hcut. apply _cut_off_connection_for_cell_same in Hcut.
  step H1 as u w2 Hrm. prim Hrm.
  step H1 as r w3 Hc. destruct r as [sp' nta'].
  step H1 as scan' w4 Hs. apply ret_Return in H1 as [H1 Hw]. cbn [fst snd] in *.
  injection H1 as -> -> ->.
  eexists w1, _, _, _, w3, w4.
  split; [exact Hcut|]. split; [|split; [exact Hc|split; [exact Hs|split]]].
  - repeat split.
  - rewrite <- Hw. exact Hext.
  - exact Hin.
Qed.

End SuccessfulRewrite.

Section ScanSlots.

Variable find_subgraph : SubGraphMetadata -> Graph -> outcome (list Node * list Node).
Variable _extract_sub_graph_nodes : Graph -> option Node -> list Node.

(** C3, as the code has it: after a successful rewrite, output slot 0 of
    the Scan node bears the element type of the time variable's initial
    value, and its shape is that value's shape behind two leading axes of
    size 1: the rank is the original rank plus two, one axis from the time
    variable workaround and one for the batch.  (The time variable's
    current-value edge is an edge of the original graph, not a generated
    name.) *)
Theorem scan_time_output_shape s scan s' tv :
  rewrite_try find_subgraph _extract_sub_graph_nodes s = (Return OK, Some scan, s') ->
  time_var (context (world s)) = Some tv ->
  has_counter_mark (switch_true_identity_output_id tv) = false ->
  exists sh o,
    get_shape (g (world s)) (enter_input_id tv) = Some sh /\
    type scan = "Scan" /\ scan ∈ get_nodes (g (world s')) /\
    output scan !! 0%nat = Some o /\
    get_shape (g (world s')) o = Some (1 :: 1 :: sh) /\
    length (1 :: 1 :: sh) = (length sh + 2)%nat /\
    get_dtype (g (world s')) o = get_dtype (g (world s)) (enter_input_id tv).
Proof.
  intros H Htv Hmark.
  apply rewrite_try_OK in H as (w1 & w2 & sp & nta & w3 & w4 & H1 & H2 & Hc & Hs & Hext & Hin).
  pose proof (same_tables_trans _ _ _ H1 H2) as H12.
  assert (Htv2 : time_var (context w2) = Some tv).
  { destruct H12 as (_ & _ & _ & ->). exact Htv. }
  apply (_compose_cell_inputs_and_outputs_spec _ _ _ _ tv) in Hc; [|exact Htv2].
  destruct Hc as (_ & _ & Hlen & _ & (sh & R0 & rest & Hsh & Hinit & HR0 & HdR0) & _).
  apply _create_scan_node_spec in Hs
    as (Hty & _ & Hout & Hc4 & _ & (i1 & Hi1 & Hs0 & Hd0) & _).
  rewrite Hinit in Hi1. injection Hi1 as <-.
  set (o := port_name (name_at "Scan" (S (INTERNAL_NAME w3))) 0) in *.
  assert (Ho : ~ generated_after (INTERNAL_NAME w4) o).
  { apply generated_before. lia. }
  destruct (extends_untouched _ _ _ Hext Ho) as [Hfs Hfd].
  exists sh, o.
  split; [rewrite <- (same_tables_shape _ _ _ H12); exact Hsh|].
  split; [exact Hty|]. split; [exact Hin|]. split.
  { rewrite Hout, length_app, Hlen. reflexivity. }
  split; [|split; [cbn; lia|]].
  - rewrite Hfs, Hs0. apply HR0. now apply original_not_generated_after.
  - rewrite Hfd, Hd0, HdR0. apply same_tables_dtype. exact H12.
Qed.

(** C4, as the code has it: after a successful rewrite, the slot of every
    output array ([1 + k + i] for array [i] after [k] state variables)
    bears the shape [[batch; time] + cell_output_shape]: [batch] and
    [time] are the first two axes of the shape recorded on the Scan node's
    last input, and [cell_output_shape] is the shape recorded on the
    array's write edge when the Scan node is made.  That is the shape
    recorded before composition, except when the write edge is the time
    variable's current-value edge, whose recorded shape composition gives a
    leading 1.  (The write edge is an edge of the original graph.) *)
Theorem scan_array_output_shape s scan s' tv i ta :
  rewrite_try find_subgraph _extract_sub_graph_nodes s = (Return OK, Some scan, s') ->
  time_var (context (world s)) = Some tv ->
  output_tas (context (world s)) !! i = Some ta ->
  has_counter_mark (data_input_id ta) = false ->
  exists il batch time rest cell_output_shape o,
    last (input scan) = Some il /\
    get_shape (g (world s')) il = Some (batch :: time :: rest) /\
    get_shape (g (world s)) (data_input_id ta) = Some cell_output_shape /\
    output scan !! (1 + length (other_loop_vars (context (world s))) + i)%nat = Some o /\
    get_shape (g (world s')) o
    = Some ([batch; time] ++
            (if String.eqb (data_input_id ta) (switch_true_identity_output_id tv)
             then 1 :: cell_output_shape else cell_output_shape)).
Proof.
  intros H Htv Hta Hmark.
  apply rewrite_try_OK in H as (w1 & w2 & sp & nta & w3 & w4 & H1 & H2 & Hc & Hs & Hext & Hin).
  pose proof (same_tables_trans _ _ _ H1 H2) as H12.
  assert (Hctx : context w2 = context (world s)) by (destruct H12 as (_ & _ & _ & ->); auto).
  apply (_compose_cell_inputs_and_outputs_spec _ _ _ _ tv) in Hc;
    [|rewrite Hctx; exact Htv].
  rewrite Hctx in Hc.
  destruct Hc as (_ & Hlsco & Hlen & Hgen & (sh & R0 & rest0 & _ & Hinit & _) & Hframe & Hsw).
  apply _create_scan_node_spec in Hs
    as (_ & Hinp & Hout & Hc4 & Hext34 & _ & (il & Hil & Hslots)).
  set (e := data_input_id ta) in *.
  set (sw := switch_true_identity_output_id tv) in *.
  set (nm := name_at "Scan" (S (INTERNAL_NAME w3))) in *.
  assert (He2 : ~ generated_after (INTERNAL_NAME w2) e)
    by now apply original_not_generated_after.
  assert (He3 : ~ generated_after (INTERNAL_NAME w3) e)
    by now apply original_not_generated_after.
  (* the last composed input bears a generated name *)
  assert (Hil_in : il ∈ initial_state_and_scan_inputs sp).
  { rewrite Hinp, Hinit in Hil. rewrite Hinit.
    change ("" :: R0 :: rest0) with ([""] ++ (R0 :: rest0)) in Hil.
    rewrite last_app_cons in Hil. apply last_Some_elem_of. exact Hil. }
  assert (Hil_gen : generated_upto (INTERNAL_NAME w3) il).
  { rewrite Forall_forall in Hgen. exact (Hgen il Hil_in). }
  assert (Hil3 : ~ generated_after (INTERNAL_NAME w3) il)
    by (eapply generated_upto_not_after; [|exact Hil_gen]; lia).
  assert (Hil4 : ~ generated_after (INTERNAL_NAME w4) il)
    by (eapply generated_upto_not_after; [|exact Hil_gen]; lia).
  destruct (Hslots Hil3) as (batch & time & rest & Hils & Hslot).
  assert (Hlook : loop_scan_outputs sp !! i = Some e).
  { rewrite Hlsco, list_lookup_fmap, Hta. reflexivity. }
  destruct (Hslot i e Hlook He3) as (os & Hos & Hshape).
  set (o := port_name nm (S (length (loop_state_outputs sp) - 1) + i)) in *.
  assert (Ho : ~ generated_after (INTERNAL_NAME w4) o).
  { apply generated_before. lia. }
  assert (Hidx : (S (length (loop_state_outputs sp) - 1) + i
                  = 1 + length (other_loop_vars (context (world s))) + i)%nat)
    by (rewrite Hlen; lia).
  assert (Hcs : exists cs, get_shape (g (world s)) e = Some cs /\
                           os = if String.eqb e sw then 1 :: cs else cs).
  { destruct (String.eqb e sw) eqn:Heq.
    - apply String.eqb_eq in Heq. rewrite Heq in *.
      destruct (Hsw He2) as (s0 & Hs0 & Hs0'). rewrite Hs0' in Hos. injection Hos as <-.
      exists s0. split; [|reflexivity].
      rewrite <- (same_tables_shape _ _ _ H12). exact Hs0.
    - apply String.eqb_neq in Heq. destruct (Hframe e He2) as [_ Hsame].
      exists os. split; [|reflexivity].
      rewrite <- (same_tables_shape _ _ _ H12), <- (Hsame Heq). exact Hos. }
  destruct Hcs as (cs & Hcs & ->).
  exists il, batch, time, rest, cs, o.
  split; [exact Hil|]. split.
  { destruct (extends_untouched _ _ _ Hext Hil4) as [-> _].
    destruct (extends_untouched _ _ _ Hext34 Hil3) as [-> _]. exact Hils. }
  split; [exact Hcs|]. split.
  { rewrite Hout, <- Hidx. rewrite list_lookup_fmap.
    rewrite lookup_seq_lt; [reflexivity|].
    apply lookup_lt_Some in Hlook. rewrite length_app, Hlen. lia. }
  destruct (extends_untouched _ _ _ Hext Ho) as [-> _]. exact Hshape.
Qed.

End ScanSlots.

(** C3 as stated fails at the test loop: the time variable is a scalar, of
    rank 0, and slot 0 of the Scan node has the shape [[1; 1]], of rank 2,
    not 1. *)
Lemma scan_time_output_rank_counterexample :
  rewrite_try rnn_find_subgraph no_extract rnn_session
    = (Return OK, Some rnn_scan, rnn_rewritten) /\
  time_var (context (world rnn_session)) = Some v_time /\
  get_shape (g (world rnn_session)) (enter_input_id v_time) = Some [] /\
  output rnn_scan !! 0%nat = Some "Scan__16:0" /\
  get_shape (g (world rnn_rewritten)) "Scan__16:0" = Some [1; 1] /\
  length [1; 1] <> (length (@nil Z) + 1)%nat.
Proof.
  split; [vm_compute; reflexivity|].
  split; [vm_compute; reflexivity|]. split; [vm_compute; reflexivity|].
  split; [vm_compute; reflexivity|]. split; [vm_compute; reflexivity|].
  cbn. lia.
Qed.

(** C3 as amended, at the test loop. *)
Lemma scan_time_output_shape_witness :
  exists sh o,
    get_shape (g (world rnn_session)) (enter_input_id v_time) = Some sh /\
    type rnn_scan = "Scan" /\ rnn_scan ∈ get_nodes (g (world rnn_rewritten)) /\
    output rnn_scan !! 0%nat = Some o /\
    get_shape (g (world rnn_rewritten)) o = Some (1 :: 1 :: sh) /\
    length (1 :: 1 :: sh) = (length sh + 2)%nat /\
    get_dtype (g (world rnn_rewritten)) o
    = get_dtype (g (world rnn_session)) (enter_input_id v_time).
Proof.
  apply (scan_time_output_shape rnn_find_subgraph no_extract rnn_session rnn_scan
           rnn_rewritten v_time).
  - vm_compute. reflexivity.
  - vm_compute. reflexivity.
  - vm_compute. reflexivity.
Defined.

(** C4 as stated fails at the loop whose output array records the time
    step: the write edge is the time variable's current-value edge, of
    shape [[]] before composition, and the slot of the array has the shape
    [[1; 10; 1]], not [[1; 10]]. *)
Lemma scan_array_output_shape_counterexample :
  rewrite_try stamp_find_subgraph no_extract stamp_session
    = (Return OK, Some stamp_scan, stamp_rewritten) /\
  output_tas (context (world stamp_session)) !! 0%nat = Some stamp_output_ta /\
  last (input stamp_scan) = Some "input_ta_Reshape__9:0" /\
  get_shape (g (world stamp_rewritten)) "input_ta_Reshape__9:0" = Some [1; 10; 4] /\
  get_shape (g (world stamp_session)) (data_input_id stamp_output_ta) = Some [] /\
  output stamp_scan !! 1%nat = Some "Scan__10:1" /\
  get_shape (g (world stamp_rewritten)) "Scan__10:1" = Some [1; 10; 1] /\
  [1; 10; 1] <> [1; 10] ++ [].
Proof.
  split; [vm_compute; reflexivity|].
  split; [vm_compute; reflexivity|]. split; [vm_compute; reflexivity|].
  split; [vm_compute; reflexivity|]. split; [vm_compute; reflexivity|].
  split; [vm_compute; reflexivity|]. split; [vm_compute; reflexivity|].
  discriminate.
Qed.

(** C4 as amended, at the test loop. *)
Lemma scan_array_output_shape_witness :
  exists il batch time rest cell_output_shape o,
    last (input rnn_scan) = Some il /\
    get_shape (g (world rnn_rewritten)) il = Some (batch :: time :: rest) /\
    get_shape (g (world rnn_session)) (data_input_id rnn_output_ta)
    = Some cell_output_shape /\
    output rnn_scan !! (1 + length (other_loop_vars (context (world rnn_session))) + 0)%nat
    = Some o /\
    get_shape (g (world rnn_rewritten)) o
    = Some ([batch; time] ++
            (if String.eqb (data_input_id rnn_output_ta)
                           (switch_true_identity_output_id v_time)
             then 1 :: cell_output_shape else cell_output_shape)).
Proof.
  apply (scan_array_output_shape rnn_find_subgraph no_extract rnn_session rnn_scan
           rnn_rewritten v_time 0 rnn_output_ta).
  - vm_compute. reflexivity.
  - vm_compute. reflexivity.
  - vm_compute. reflexivity.
  - vm_compute. reflexivity.
Defined.

(** C1 evaluated at the test loop, which has two state variables: the
    second one's initial input (input 3 of the Scan node) has the shape
    [[1; 5]] and the element type 11, and its state output (slot 2) is
    given the shape [[1; 3]] and the element type 1 of the first state
    variable's input (input 2). *)
Theorem scan_second_state_output_evaluated :
  rewrite_try rnn_find_subgraph no_extract rnn_session
    = (Return OK, Some rnn_scan, rnn_rewritten) /\
  length (other_loop_vars (context (world rnn_session))) = 2%nat /\
  input rnn_scan !! 2%nat = Some "input_Reshape__9:0" /\
  input rnn_scan !! 3%nat = Some "input_Reshape__12:0" /\
  output rnn_scan !! 2%nat = Some "Scan__16:2" /\
  get_shape (g (world rnn_rewritten)) "input_Reshape__9:0" = Some [1; 3] /\
  get_dtype (g (world rnn_rewritten)) "input_Reshape__9:0" = Some 1 /\
  get_shape (g (world rnn_rewritten)) "input_Reshape__12:0" = Some [1; 5] /\
  get_dtype (g (world rnn_rewritten)) "input_Reshape__12:0" = Some 11 /\
  get_shape (g (world rnn_rewritten)) "Scan__16:2" = Some [1; 3] /\
  get_dtype (g (world rnn_rewritten)) "Scan__16:2" = Some 1.
Proof.
  split; [vm_compute; reflexivity|]. split; [vm_compute; reflexivity|].
  split; [vm_compute; reflexivity|]. split; [vm_compute; reflexivity|].
  split; [vm_compute; reflexivity|]. split; [vm_compute; reflexivity|].
  split; [vm_compute; reflexivity|]. split; [vm_compute; reflexivity|].
  split; [vm_compute; reflexivity|]. split; [vm_compute; reflexivity|].
  vm_compute; reflexivity.
Qed.

(** * Further properties of the rewriters *)

(** ** The scope of the loop *)

Lemma string_app_nil_r (s : string) : s +:+ "" = s.
Proof.
  induction s as [|a s IH]; [reflexivity|].
  change (String a s +:+ "") with (String a (s +:+ "")). now rewrite IH.
Qed.

Lemma split_go_app c p : forall t cur,
  split_go c (p +:+ String c t) cur = split_go c p cur ++ split_go c t "".
Proof.
  induction p as [|a p IH]; intros t cur.
  - change ("" +:+ String c t) with (String c t).
    cbn [split_go]. now rewrite Ascii.eqb_refl.
  - change (String a p +:+ String c t) with (String a (p +:+ String c t)).
    cbn [split_go]. destruct (Ascii.eqb a c).
    + now rewrite IH.
    + apply IH.
Qed.

Lemma split_go_plain c s : forall cur,
  c ∉ chars s -> split_go c s cur = [cur +:+ s].
Proof.
  induction s as [|a s IH]; intros cur Hc.
  - cbn [split_go]. now rewrite string_app_nil_r.
  - cbn [split_go]. destruct (Ascii.eqb a c) eqn:E.
    + apply Ascii.eqb_eq in E as ->. exfalso. apply Hc. left.
    + rewrite IH.
      * now rewrite string_app_assoc.
      * intros H. apply Hc. right. exact H.
Qed.

Lemma split_go_cons c s cur : exists x l, split_go c s cur = x :: l.
Proof.
  revert cur. induction s as [|a s IH]; intros cur; cbn [split_go]; [eauto|].
  destruct (Ascii.eqb a c); eauto.
Qed.

Lemma join_cons sep x y l : join sep (x :: y :: l) = x +:+ sep +:+ join sep (y :: l).
Proof. reflexivity. Qed.

Lemma join_split_go c s : forall cur,
  join (String c "") (split_go c s cur) = cur +:+ s.
Proof.
  induction s as [|a s IH]; intros cur.
  - cbn [split_go join]. now rewrite string_app_nil_r.
  - cbn [split_go]. destruct (Ascii.eqb a c) eqn:E.
    + apply Ascii.eqb_eq in E as ->.
      specialize (IH ""). destruct (split_go_cons c s "") as (x & l & Hx).
      rewrite Hx in *. rewrite join_cons, IH. reflexivity.
    + rewrite IH. now rewrite string_app_assoc.
Qed.

Lemma split_go_length c s : forall cur,
  length (split_go c s cur) = S (length (filter (fun a => a = c) (chars s))).
Proof.
  induction s as [|a s IH]; intros cur; [reflexivity|].
  cbn [split_go]. change (chars (String a s)) with (a :: chars s).
  rewrite filter_cons. destruct (Ascii.eqb a c) eqn:E.
  - apply Ascii.eqb_eq in E as ->. rewrite decide_True by reflexivity.
    cbn. now rewrite IH.
  - apply Ascii.eqb_neq in E. rewrite decide_False by exact E. apply IH.
Qed.

(** X1.  [_get_rnn_scope_name] gives the parent scope: from the scope of a
    while-loop, [parent/leaf/] where [leaf] holds no slash, it returns
    [parent/], whatever the parent is. *)
Theorem _get_rnn_scope_name_parent (parent leaf : string) :
  "/"%char ∉ chars leaf ->
  _get_rnn_scope_name (parent +:+ "/" +:+ leaf +:+ "/") = parent +:+ "/".
Proof.
  intros Hleaf. unfold _get_rnn_scope_name, split.
  change ("/" +:+ leaf +:+ "/") with (String "/" (leaf +:+ "/")).
  rewrite split_go_app.
  change (leaf +:+ "/") with (leaf +:+ String "/" "").
  rewrite split_go_app, (split_go_plain _ leaf) by exact Hleaf.
  cbn [split_go app].
  replace (drop_last2 (split_go "/" parent "" ++ ["" +:+ leaf; ""]))
    with (split_go "/" parent "").
  - now rewrite (join_split_go "/" parent "").
  - unfold drop_last2. rewrite length_app. cbn [length].
    replace (length (split_go "/" parent "") + 2 - 2)%nat
      with (length (split_go "/" parent "")) by lia.
    now rewrite take_app_length.
Qed.

Lemma _get_rnn_scope_name_parent_witness :
  _get_rnn_scope_name ("rnn" +:+ "/" +:+ "while" +:+ "/") = "rnn" +:+ "/".
Proof.
  apply (_get_rnn_scope_name_parent "rnn" "while").
  intros H. vm_compute in H. elems H.
Defined.

(** X2.  A scope with at most one slash has no parent: the first two
    components from the right are cut off, nothing is left to join, and
    the result is the bare [/]. *)
Theorem _get_rnn_scope_name_shallow (while_scope_name : string) :
  (length (filter (fun a => a = "/"%char) (chars while_scope_name)) <= 1)%nat ->
  _get_rnn_scope_name while_scope_name = "/".
Proof.
  intros Hn. unfold _get_rnn_scope_name, split, drop_last2.
  rewrite split_go_length.
  replace (S (length (filter (fun a => a = "/"%char) (chars while_scope_name))) - 2)%nat
    with 0%nat by lia.
  reflexivity.
Qed.

Lemma _get_rnn_scope_name_shallow_witness : _get_rnn_scope_name "while/" = "/".
Proof. apply _get_rnn_scope_name_shallow. vm_compute. lia. Defined.

(** ** More on the classification *)

Lemma _parse_rnn_loop_body_decides tn pre icn ft ok k v w n :
  get_node_by_name (g w) (enter_input_id v) = Some n ->
  (is_tensor_array v = true -> is_Some (get_attr n "tensor_array_name")) ->
  exists w1,
    _parse_rnn_loop_body tn pre icn (ft, ok) (k, v) w
      = (Return (ft || is_time_variable (g w) tn v, ok && keeps_rnn_out_ta (g w) pre v), w1)
    /\ g w1 = g w /\ INTERNAL_NAME w1 = INTERNAL_NAME w.
Proof.
  intros Hn Ha. unfold _parse_rnn_loop_body, is_time_variable, keeps_rnn_out_ta.
  unfold bind, gets, from_option, ret, modify_context, modify. rewrite Hn.
  destruct (is_tensor_array v); cbn [negb andb orb].
  - destruct Ha as [a Ha]; [reflexivity|]. rewrite Ha.
    rewrite orb_false_r.
    destruct (startswith (attr_str a) pre); cbn [negb].
    + rewrite andb_true_r. eexists. repeat split.
    + rewrite andb_false_r. eexists. repeat split.
  - rewrite andb_true_r.
    destruct (String.eqb (name n) tn); [|destruct (String.eqb (name n) icn)].
    + rewrite orb_true_r. eexists. repeat split.
    + rewrite orb_false_r. eexists. repeat split.
    + rewrite orb_false_r. eexists. repeat split.
Qed.

Lemma parse_loop_decides tn pre icn l : forall ft ok w,
  enter_nodes_found (g w) l ->
  exists w',
    for_fold l (ft, ok) (_parse_rnn_loop_body tn pre icn) w
      = (Return (ft || existsb (is_time_variable (g w) tn) (map snd l),
                 ok && forallb (keeps_rnn_out_ta (g w) pre) (map snd l)), w').
Proof.
  induction l as [|[k v] l IH]; intros ft ok w Hl; cbn [for_fold map existsb forallb snd].
  - rewrite orb_false_r, andb_true_r. eexists. reflexivity.
  - destruct (Hl (k, v)) as (n & Hn & Ha); [left|]. cbn in Hn, Ha.
    destruct (_parse_rnn_loop_body_decides tn pre icn ft ok k v w n Hn Ha)
      as (w1 & Hb & Hg & _).
    rewrite (bind_ok _ _ _ _ _ Hb).
    destruct (IH (ft || is_time_variable (g w) tn v)
                 (ok && keeps_rnn_out_ta (g w) pre v) w1) as (w' & H').
    { intros kv Hkv. rewrite Hg. apply Hl. now right. }
    exists w'. rewrite H', Hg. now rewrite !orb_assoc, !andb_assoc.
Qed.




Section ClassificationDecided.

Variable match_ops : list Node -> list MatchResult.


(** X4.  The decision of [_parse_rnn_loop], when every initial value is
    produced by a node of the graph: it accepts exactly when some loop
    variable is the time variable and every tensor array bears the
    recognized name.  When it does not accept, [need_rewrite] returns
    [False], with the graph and the name counter as they were. *)
Theorem need_rewrite_rejects_unrecognized gr scope vars counter :
  enter_nodes_found gr vars ->
  let sc := _get_rnn_scope_name scope in
  let decision :=
    existsb (is_time_variable gr (sc +:+ "time")) (map snd vars) &&
    forallb (keeps_rnn_out_ta gr (sc +:+ "dynamic_rnn/output_")) (map snd vars) in
  exists w1,
    _parse_rnn_loop (scoped_candidate gr scope vars counter) = (Return decision, w1) /\
    g w1 = gr /\
    (decision = false ->
     exists w', need_rewrite match_ops (candidate gr scope vars counter) = (Return false, w')
                /\ g w' = gr /\ INTERNAL_NAME w' = counter).
Proof.
  intros Hwf sc decision.
  destruct (parse_loop_decides (sc +:+ "time") (sc +:+ "dynamic_rnn/output_")
              (scope +:+ "iteration_counter") vars false true
              (scoped_candidate gr scope vars counter) Hwf) as (w1 & Hloop).
  cbn [orb andb g scoped_candidate] in Hloop. fold decision in Hloop.
  pose proof (parse_loop_same _ _ _ _ _ _ _ _ Hloop) as (Hg & Hc & _).
  assert (Hparse : _parse_rnn_loop (scoped_candidate gr scope vars counter)
                   = (Return decision, w1)).
  { unfold _parse_rnn_loop.
    rewrite (bind_ok _ _ _ (context (scoped_candidate gr scope vars counter))
               (scoped_candidate gr scope vars counter)) by reflexivity.
    rewrite (bind_ok _ _ _ sc (scoped_candidate gr scope vars counter)) by reflexivity.
    cbn [context scoped_candidate loop_variables while_context_scope set_rnn_scope
         create_context].
    fold sc. rewrite (bind_ok _ _ _ _ _ Hloop).
    destruct (existsb _ _), (forallb _ _); reflexivity. }
  exists w1. split; [exact Hparse|]. split; [exact Hg|].
  intros Hd. exists w1. split; [|split; [exact Hg | exact Hc]].
  unfold need_rewrite, candidate.
  rewrite (bind_ok _ _ _ tt (scoped_candidate gr scope vars counter)) by reflexivity.
  rewrite (bind_ok _ _ _ _ _ Hparse), Hd. reflexivity.
Qed.

End ClassificationDecided.


Lemma need_rewrite_rejects_unrecognized_witness :
  exists w', need_rewrite no_matcher
               (candidate plain_graph "rnn/while/" [("rnn/while/Enter_2", v_h)] 0)
             = (Return false, w')
             /\ g w' = plain_graph /\ INTERNAL_NAME w' = 0%nat.
Proof.
  destruct (need_rewrite_rejects_unrecognized no_matcher plain_graph "rnn/while/"
              [("rnn/while/Enter_2", v_h)] 0) as (w1 & _ & _ & Hrej).
  - intros kv Hkv. elems Hkv. exists n_h0. split; [vm_compute; reflexivity|].
    intros H. vm_compute in H. discriminate.
  - apply Hrej. vm_compute. reflexivity.
Defined.

(** *** The arrays found by the classification *)







Lemma records_shapes_refl gr : records_shapes gr gr.
Proof. repeat split; auto. Qed.

Lemma records_shapes_trans g1 g2 g3 :
  records_shapes g1 g2 -> records_shapes g2 g3 -> records_shapes g1 g3.
Proof.
  intros (Ha & Hb & Hc & Hk1) (Ha' & Hb' & Hc' & Hk2).
  repeat split; try congruence. auto.
Qed.

Lemma set_input_tas_same c : c = set_input_tas (input_tas c ++ []) c.
Proof. destruct c. cbn. now rewrite app_nil_r. Qed.

Section InputArrays.

Variable match_ops : list Node -> list MatchResult.

Lemma parse_input_ta_loop l : forall w u w',
  for_each l (fun mr =>
    data <- index (input (ta_input_scatter mr)) 2 ;;
    idx <- index (input (ta_read mr)) 1 ;;
    out <- index (output (ta_read mr)) 0 ;;
    input_shape <- gets (fun w => get_shape (g w) data) ;;
    output_shape <- gets (fun w => get_shape (g w) out) ;;
    match output_shape, input_shape with
    | None, Some s => modify_g (set_shape out (Some (slice1 s)))
    | _, _ => ret tt
    end ;;;
    modify_context (fun c =>
      set_input_tas (input_tas c ++ [mkTensorArrayProp (Some idx) data (Some out)]) c)) w
  = (Return u, w') ->
  records_shapes (g w) (g w') /\ INTERNAL_NAME w' = INTERNAL_NAME w /\
  exists new,
    context w' = set_input_tas (input_tas (context w) ++ new) (context w) /\
    Forall2 input_ta_for l new /\
    Forall (fun ta => is_Some (get_shape (g w) (data_input_id ta)) ->
                      exists o, output_id ta = Some o /\ is_Some (get_shape (g w') o)) new.
Proof.
  induction l as [|mr l IH]; intros w u w' H; cbn [for_each] in H.
  - prim H. split; [apply records_shapes_refl|]. split; [reflexivity|].
    exists []. split; [apply set_input_tas_same|]. split; constructor.
  - step H as u1 w1 Hb.
    step Hb as data wa Hd. prim Hd. step Hb as idx wb Hi. prim Hi.
    step Hb as out wc Ho. prim Ho. step Hb as ish wd His. prim His.
    step Hb as osh we Hos. prim Hos. step Hb as u2 w2 Hset. prim Hb.
    assert (Hstep : records_shapes (g w) (g w2) /\ INTERNAL_NAME w2 = INTERNAL_NAME w /\
                    context w2 = context w /\
                    (is_Some (get_shape (g w) data) -> is_Some (get_shape (g w2) out))).
    { destruct (get_shape (g w) out) as [so|] eqn:Eo.
      - prim Hset. split; [apply records_shapes_refl|]. repeat split. rewrite Eo. eauto.
      - destruct (get_shape (g w) data) as [sd|] eqn:Ed.
        + prim Hset. cbn [g context INTERNAL_NAME]. repeat split.
          * intros n s Hn. destruct (decide (n = out)) as [->|Hne].
            -- congruence.
            -- rewrite get_shape_set_shape_ne by congruence. exact Hn.
          * intros _. rewrite get_shape_set_shape_eq. eauto.
        + prim Hset. split; [apply records_shapes_refl|]. repeat split.
          intros [? ?]. discriminate. }
    destruct Hstep as (Hr1 & Hc1 & Hx1 & Hsh1).
    apply IH in H as (Hr2 & Hc2 & new2 & Hx2 & HF2 & HS2).
    cbn [g context INTERNAL_NAME] in *.
    split; [eapply records_shapes_trans; eauto|]. split; [congruence|].
    exists (mkTensorArrayProp (Some idx) data (Some out) :: new2). split; [|split].
    + rewrite Hx2, Hx1. cbn. now rewrite <- app_assoc.
    + constructor; [|exact HF2]. unfold input_ta_for. cbn. repeat split; eauto.
    + constructor.
      * cbn. intros Hd. exists out. split; [reflexivity|].
        destruct (Hsh1 Hd) as [so Hso]. destruct Hr2 as (_ & _ & _ & Hkeep).
        rewrite (Hkeep _ _ Hso). eauto.
      * eapply Forall_impl; [exact HS2|]. cbn. intros ta Hta [sd Hsd].
        destruct Hr1 as (_ & _ & _ & Hkeep). apply Hta. rewrite (Hkeep _ _ Hsd). eauto.
Qed.

(** X6.  [_parse_input_ta] makes one entry per match of the input pattern
    under the loop's scope, in the order of the matches.  It changes the
    graph only by recording shapes: no recorded shape is overwritten, and
    the node list, the element types and the initializers stay.  After it,
    the output of every input array whose data edge has a recorded shape
    has a recorded shape too. *)
Theorem _parse_input_ta_entries w w' scope :
  _parse_input_ta match_ops w = (Return tt, w') ->
  rnn_scope (context w) = Some scope ->
  records_shapes (g w) (g w') /\ INTERNAL_NAME w' = INTERNAL_NAME w /\
  exists new,
    context w' = set_input_tas (input_tas (context w) ++ new) (context w) /\
    Forall2 input_ta_for (scoped_matches match_ops scope (g w)) new /\
    Forall (fun ta => is_Some (get_shape (g w) (data_input_id ta)) ->
                      exists o, output_id ta = Some o /\ is_Some (get_shape (g w') o)) new.
Proof.
  unfold _parse_input_ta. intros H Hsc.
  step H as ns w1 Hn. prim Hn. step H as ctx w2 Hc. prim Hc.
  step H as sc w3 Hs. prim Hs. rewrite Hsc in E. injection E as <-.
  apply parse_input_ta_loop in H. exact H.
Qed.

End InputArrays.

Section ClassificationAccepted.

Variable match_ops : list Node -> list MatchResult.


End ClassificationAccepted.


Lemma _parse_input_ta_entries_witness :
  let w := scoped_candidate rnn_graph "rnn/while/" rnn_vars 0 in
  let w' := snd (run (_parse_input_ta rnn_matcher) w) in
  records_shapes (g w) (g w') /\ INTERNAL_NAME w' = INTERNAL_NAME w /\
  exists new,
    context w' = set_input_tas (input_tas (context w) ++ new) (context w) /\
    Forall2 input_ta_for (scoped_matches rnn_matcher "rnn/" (g w)) new /\
    Forall (fun ta => is_Some (get_shape (g w) (data_input_id ta)) ->
                      exists o, output_id ta = Some o /\ is_Some (get_shape (g w') o)) new.
Proof.
  apply (_parse_input_ta_entries rnn_matcher
           (scoped_candidate rnn_graph "rnn/while/" rnn_vars 0)).
  - vm_compute. reflexivity.
  - vm_compute. reflexivity.
Defined.

(** ** Cutting the cell off the loop *)

Lemma rewired_refl gr : rewired gr gr.
Proof. repeat split. Qed.

Lemma rewired_trans g1 g2 g3 : rewired g1 g2 -> rewired g2 g3 -> rewired g1 g3.
Proof.
  intros (Ha & Hb & Hc & Hd) (Ha' & Hb' & Hc' & Hd'). repeat split; congruence.
Qed.

Lemma rewired_replace sel old new gr : rewired gr (replace_all_inputs sel old new gr).
Proof.
  unfold rewired, replace_all_inputs, set_nodes, get_nodes. cbn [_nodes].
  rewrite !map_map.
  repeat split; apply map_ext; intros n; destruct (sel n); reflexivity.
Qed.

Lemma has_input_replace_other x old new n :
  x <> new -> has_input x n = false -> has_input x (replace_input old new n) = false.
Proof.
  unfold has_input, replace_input. cbn [input].
  intros Hx. induction (input n) as [|i l IH]; [reflexivity|].
  cbn [existsb map]. intros H. apply orb_false_iff in H as [Hi Hl].
  apply orb_false_iff. split; [|auto].
  destruct (String.eqb i old); [|exact Hi].
  apply String.eqb_neq. exact Hx.
Qed.

Lemma has_input_replace_self old new n :
  old <> new -> has_input old (replace_input old new n) = false.
Proof.
  unfold has_input, replace_input. cbn [input].
  intros Hx. induction (input n) as [|i l IH]; [reflexivity|].
  cbn [existsb map]. apply orb_false_iff. split; [|exact IH].
  destruct (String.eqb i old) eqn:E.
  - apply String.eqb_neq. exact Hx.
  - apply String.eqb_neq. apply String.eqb_neq in E. congruence.
Qed.

Lemma unread_replace_other t x sel old new gr :
  x <> new -> unread (of_type t) x gr ->
  unread (of_type t) x (replace_all_inputs sel old new gr).
Proof.
  intros Hx Hu n Hn Ht.
  unfold replace_all_inputs, set_nodes, get_nodes in Hn. cbn [_nodes] in Hn.
  apply list_elem_of_fmap in Hn as (m & -> & Hm).
  destruct (sel m).
  - apply has_input_replace_other; [exact Hx|]. apply Hu; [exact Hm|exact Ht].
  - apply Hu; [exact Hm|exact Ht].
Qed.

Lemma unread_replace_self t old new gr :
  old <> new -> unread (of_type t) old (replace_all_inputs (of_type t) old new gr).
Proof.
  intros Hx n Hn Ht.
  unfold replace_all_inputs, set_nodes, get_nodes in Hn. cbn [_nodes] in Hn.
  apply list_elem_of_fmap in Hn as (m & -> & Hm).
  destruct (of_type t m) eqn:E.
  - apply has_input_replace_self. exact Hx.
  - rewrite E in Ht. discriminate.
Qed.

Lemma cut_off_refl gr : cut_off gr gr.
Proof. split; [apply rewired_refl | auto]. Qed.

Lemma cut_off_trans g1 g2 g3 : cut_off g1 g2 -> cut_off g2 g3 -> cut_off g1 g3.
Proof.
  intros [Hr1 Hu1] [Hr2 Hu2]. split; [eapply rewired_trans; eauto | auto].
Qed.

Lemma cut_off_replace sel old gr :
  cut_off gr (replace_all_inputs sel old INVLAID_INPUT_ID gr).
Proof.
  split; [apply rewired_replace|]. intros t x Hx Hu. now apply unread_replace_other.
Qed.

Lemma cut_state_loop l : forall acc w r w',
  for_fold l acc (fun nodes_to_remove v =>
    val <- from_option AttributeError v ;;
    n <- gets (fun w => get_node_by_name (g w) (switch_true_identity_output_id val)) ;;
    modify_g (replace_all_inputs (fun n => String.eqb (type n) "NextIteration")
                (next_iteration_input_id val) INVLAID_INPUT_ID) ;;;
    ret (nodes_to_remove ++ [n])) w = (Return r, w') ->
  cut_off (g w) (g w') /\ same_tables w w' /\
  length r = (length acc + length l)%nat /\
  forall val, Some val ∈ l -> next_iteration_input_id val <> INVLAID_INPUT_ID ->
              unread (of_type "NextIteration") (next_iteration_input_id val) (g w').
Proof.
  induction l as [|v l IH]; intros acc w r w' H; cbn [for_fold] in H.
  - prim H. split; [apply cut_off_refl|]. split; [apply same_tables_refl|].
    split; [cbn; lia|]. intros val Hv. elems Hv.
  - step H as acc1 w1 Hb. step Hb as val wa Hv. prim Hv.
    step Hb as n wb Hn. prim Hn. step Hb as u wc Hm. prim Hm. prim Hb.
    apply IH in H as (Hcut & Hsame & Hlen & Hun). cbn [g] in Hcut, Hun.
    split; [|split; [|split]].
    + eapply cut_off_trans; [apply cut_off_replace | exact Hcut].
    + eapply same_tables_trans; [|exact Hsame]. repeat split.
    + rewrite Hlen, length_app. cbn. lia.
    + intros val' Hv' Hne. apply elem_of_cons in Hv' as [Heq | Hv'].
      * simplify_eq. destruct Hcut as [_ Hkeep]. apply Hkeep; [exact Hne|].
        apply (unread_replace_self "NextIteration"). exact Hne.
      * apply Hun; assumption.
Qed.

Lemma cut_input_loop l : forall acc w r w',
  for_fold l acc (fun nodes_to_remove input_ta =>
    n <- gets (fun w => match output_id input_ta with
                        | Some o => get_node_by_name (g w) o
                        | None => None
                        end) ;;
    ret (nodes_to_remove ++ [n])) w = (Return r, w') ->
  w' = w /\ length r = (length acc + length l)%nat.
Proof.
  induction l as [|ta l IH]; intros acc w r w' H; cbn [for_fold] in H.
  - prim H. split; [reflexivity | cbn; lia].
  - step H as acc1 w1 Hb. step Hb as n wa Hn. prim Hn. prim Hb.
    apply IH in H as [-> Hlen]. split; [reflexivity|].
    rewrite Hlen, length_app. cbn. lia.
Qed.

Lemma cut_output_loop l : forall w u w',
  for_each l (fun output_ta =>
    modify_g (replace_all_inputs is_tensor_array_write_op
                (data_input_id output_ta) INVLAID_INPUT_ID)) w = (Return u, w') ->
  cut_off (g w) (g w') /\ same_tables w w' /\
  forall ta, ta ∈ l -> data_input_id ta <> INVLAID_INPUT_ID ->
             unread is_tensor_array_write_op (data_input_id ta) (g w').
Proof.
  induction l as [|ta l IH]; intros w u w' H; cbn [for_each] in H.
  - prim H. split; [apply cut_off_refl|]. split; [apply same_tables_refl|].
    intros ta Hta. elems Hta.
  - step H as u1 w1 Hb. prim Hb.
    apply IH in H as (Hcut & Hsame & Hun). cbn [g] in Hcut, Hun.
    split; [|split].
    + eapply cut_off_trans; [apply cut_off_replace | exact Hcut].
    + eapply same_tables_trans; [|exact Hsame]. repeat split.
    + intros ta' Hta' Hne. apply elem_of_cons in Hta' as [-> | Hta'].
      * destruct Hcut as [_ Hkeep].
        apply (Hkeep "TensorArrayWriteV3"); [exact Hne|].
        apply (unread_replace_self "TensorArrayWriteV3"). exact Hne.
      * apply Hun; assumption.
Qed.

(** X8.  What [_cut_off_connection_for_cell] leaves.  The graph has the
    same nodes, rewired at most; no NextIteration node reads the
    next-iteration edge of the time variable or of a state variable any
    more, and no tensor-array write node reads the data edge of an output
    array (edges other than the invalid one).  One node, or [None], is
    returned per state variable and per input array; the shape and dtype
    tables, the context and the name counter are untouched. *)
Theorem _cut_off_connection_for_cell_cuts w r w' :
  _cut_off_connection_for_cell w = (Return r, w') ->
  rewired (g w) (g w') /\ same_tables w w' /\
  length r = (1 + length (other_loop_vars (context w)) + length (input_tas (context w)))%nat /\
  (forall v, time_var (context w) = Some v \/ v ∈ map snd (other_loop_vars (context w)) ->
             next_iteration_input_id v <> INVLAID_INPUT_ID ->
             unread (of_type "NextIteration") (next_iteration_input_id v) (g w')) /\
  (forall ta, ta ∈ output_tas (context w) -> data_input_id ta <> INVLAID_INPUT_ID ->
              unread (of_type "TensorArrayWriteV3") (data_input_id ta) (g w')).
Proof.
  unfold _cut_off_connection_for_cell. intros H.
  step H as ctx w0 Hc. prim Hc. step H as r1 w1 H1. step H as r2 w2 H2.
  step H as u w3 H3. prim H.
  apply cut_state_loop in H1 as (Hcut1 & Hsame1 & Hlen1 & Hun1).
  apply cut_input_loop in H2 as (-> & Hlen2).
  apply cut_output_loop in H3 as (Hcut3 & Hsame3 & Hun3).
  split; [|split; [|split; [|split]]].
  - destruct Hcut1, Hcut3. eapply rewired_trans; eauto.
  - eapply same_tables_trans; eauto.
  - rewrite Hlen2, Hlen1. cbn [length]. rewrite length_map. lia.
  - intros v Hv Hne. destruct Hcut3 as [_ Hkeep]. apply Hkeep; [exact Hne|].
    apply Hun1; [|exact Hne]. destruct Hv as [Hv | Hv].
    + rewrite Hv. left.
    + right. apply list_elem_of_fmap in Hv as (kv & -> & Hkv).
      apply list_elem_of_fmap. exists kv. split; [reflexivity | exact Hkv].
  - intros ta Hta Hne. apply Hun3; assumption.
Qed.

Lemma _cut_off_connection_for_cell_cuts_witness :
  let w := rnn_classified in
  let r := match fst (run _cut_off_connection_for_cell w) with
           | Return r => r
           | Raise _ => []
           end in
  let w' := snd (run _cut_off_connection_for_cell w) in
  rewired (g w) (g w') /\ same_tables w w' /\
  length r = (1 + length (other_loop_vars (context w)) + length (input_tas (context w)))%nat /\
  (forall v, time_var (context w) = Some v \/ v ∈ map snd (other_loop_vars (context w)) ->
             next_iteration_input_id v <> INVLAID_INPUT_ID ->
             unread (of_type "NextIteration") (next_iteration_input_id v) (g w')) /\
  (forall ta, ta ∈ output_tas (context w) -> data_input_id ta <> INVLAID_INPUT_ID ->
              unread (of_type "TensorArrayWriteV3") (data_input_id ta) (g w')).
Proof.
  apply (_cut_off_connection_for_cell_cuts rnn_classified).
  vm_compute. reflexivity.
Defined.

(** ** Reshaping the inputs and outputs of the Scan node *)

(** X9.  [_adapt_scan_sequence_input_or_output] needs the shape of the
    edge it adapts: when none is recorded, it raises [TypeError] in either
    direction, after making nodes under fresh names; the node list and the
    context are as they were. *)
Theorem _adapt_scan_sequence_input_or_output_unknown_shape target input_id handle_output w :
  get_shape (g w) input_id = None ->
  exists w',
    _adapt_scan_sequence_input_or_output target input_id handle_output w
      = (Raise TypeError, w') /\
    get_nodes (g w') = get_nodes (g w) /\ context w' = context w /\
    (INTERNAL_NAME w < INTERNAL_NAME w')%nat.
Proof.
  destruct w as [gr ctx c]. cbn [g]. intros Hs.
  unfold _adapt_scan_sequence_input_or_output.
  cbn [bind make_onnx_node make_name shape_of gets ret g context INTERNAL_NAME].
  rewrite Hs.
  destruct handle_output;
    cbn [bind make_onnx_node make_name make_const modify_g modify shape_of gets ret raise
         index from_option g context INTERNAL_NAME output map seq lookup list_lookup fst snd];
    eexists; (split; [reflexivity|]); cbn; repeat split; lia.
Qed.

Lemma _adapt_scan_sequence_input_or_output_unknown_shape_witness :
  exists w',
    _adapt_scan_sequence_input_or_output "input" "rnn/while/Exit_2:0" false
      (candidate rnn_graph "rnn/while/" rnn_vars 0) = (Raise TypeError, w') /\
    get_nodes (g w') = get_nodes (g (candidate rnn_graph "rnn/while/" rnn_vars 0)) /\
    context w' = context (candidate rnn_graph "rnn/while/" rnn_vars 0) /\
    (INTERNAL_NAME (candidate rnn_graph "rnn/while/" rnn_vars 0) < INTERNAL_NAME w')%nat.
Proof.
  apply (_adapt_scan_sequence_input_or_output_unknown_shape "input" "rnn/while/Exit_2:0"
           false (candidate rnn_graph "rnn/while/" rnn_vars 0)).
  vm_compute. reflexivity.
Defined.

(** X10.  The two directions of [_adapt_scan_sequence_input_or_output]
    undo each other on the recorded shape: an edge adapted as an input
    (batch axis added) and then, from the Reshape output, as an output
    (first axis removed) ends with the shape and the element type it
    started with. *)
Theorem _adapt_scan_sequence_input_then_output target target' input_id w nodes w1 rn o
    nodes' w2 :
  _adapt_scan_sequence_input_or_output target input_id false w = (Return nodes, w1) ->
  last nodes = Some rn -> output rn !! 0%nat = Some o ->
  _adapt_scan_sequence_input_or_output target' o true w1 = (Return nodes', w2) ->
  exists s rn' o',
    get_shape (g w) input_id = Some s /\
    get_shape (g w1) o = Some (1 :: s) /\
    last nodes' = Some rn' /\ type rn = "Reshape" /\ type rn' = "Reshape" /\
    output rn' = [o'] /\
    get_shape (g w2) o' = Some s /\
    get_dtype (g w2) o' = get_dtype (g w) input_id.
Proof.
  intros H1 Hl Ho H2.
  pose proof H1 as H1'. pose proof H2 as H2'.
  apply _adapt_scan_sequence_input_or_output_spec in H1
    as (s & c & rn0 & Hs & _ & _ & Hl0 & Hout & _ & _ & _ & Hsh & Hdt).
  rewrite Hl in Hl0. injection Hl0 as <-. rewrite Hout in Ho. injection Ho as <-.
  apply _adapt_scan_sequence_input_or_output_spec in H2
    as (s2 & c2 & rn2 & Hs2 & _ & _ & Hl2 & Hout2 & _ & _ & _ & Hsh2 & Hdt2).
  rewrite Hsh in Hs2. injection Hs2 as <-.
  exists s, rn2, (port_name (name_at (target' +:+ "_" +:+ "Reshape") c2) 0).
  split; [exact Hs|]. split; [exact Hsh|]. split; [exact Hl2|].
  assert (Hfin : type rn = "Reshape" /\ type rn2 = "Reshape");
    [|destruct Hfin; repeat split; auto; congruence].
  (* both last nodes are Reshape nodes *)
  clear - H1' H2' Hl Hl2.
  assert (Hty : forall t i ho w ns w' n,
            _adapt_scan_sequence_input_or_output t i ho w = (Return ns, w') ->
            last ns = Some n -> type n = "Reshape").
  { clear. intros t i ho w ns w' n H Hl.
    unfold _adapt_scan_sequence_input_or_output in H.
    step H as shape_node wa Hsn. apply make_onnx_node_Return in Hsn as [-> ->].
    step H as inferred wb Hi. prim Hi. step H as r wc Hr.
    step H as no wd Hno. step H as rs we Hrs. apply make_onnx_node_Return in Hrs as [-> ->].
    crunch H. rewrite last_snoc in Hl. injection Hl as <-. reflexivity. }
  split; [exact (Hty _ _ _ _ _ _ _ H1' Hl) | exact (Hty _ _ _ _ _ _ _ H2' Hl2)].
Qed.

Lemma _adapt_scan_sequence_input_then_output_witness :
  let w := candidate rnn_graph "rnn/while/" rnn_vars 0 in
  let r1 := run (_adapt_scan_sequence_input_or_output "input" "h0:0" false) w in
  let r2 := run (_adapt_scan_sequence_input_or_output "state_output_reshape"
                   "input_Reshape__3:0" true) (snd r1) in
  exists s rn' o',
    get_shape (g w) "h0:0" = Some s /\
    get_shape (g (snd r1)) "input_Reshape__3:0" = Some (1 :: s) /\
    last (match fst r2 with Return ns => ns | Raise _ => [] end) = Some rn' /\
    type (mkNode "input_Reshape__3" "Reshape" ["h0:0"; "input_target_shape__2"]
                 ["input_Reshape__3:0"] []) = "Reshape" /\
    type rn' = "Reshape" /\
    output rn' = [o'] /\
    get_shape (g (snd r2)) o' = Some s /\
    get_dtype (g (snd r2)) o' = get_dtype (g w) "h0:0".
Proof.
  apply (_adapt_scan_sequence_input_then_output "input" "state_output_reshape" "h0:0"
           (candidate rnn_graph "rnn/while/" rnn_vars 0)
           (match fst (run (_adapt_scan_sequence_input_or_output "input" "h0:0" false)
                           (candidate rnn_graph "rnn/while/" rnn_vars 0)) with
            | Return ns => ns | Raise _ => [] end)).
  - vm_compute. reflexivity.
  - vm_compute. reflexivity.
  - vm_compute. reflexivity.
  - vm_compute. reflexivity.
Defined.

Lemma rewired_nodes gr gr1 gr' :
  get_nodes gr' = get_nodes gr1 -> rewired gr gr1 -> rewired gr gr'.
Proof. unfold rewired. intros ->. auto. Qed.

Lemma unread_nodes sel x gr1 gr' :
  get_nodes gr' = get_nodes gr1 -> unread sel x gr1 -> unread sel x gr'.
Proof. unfold unread. intros ->. auto. Qed.

Lemma unread_replace_all old new gr :
  old <> new -> unread all_nodes_sel old (replace_all_inputs all_nodes_sel old new gr).
Proof.
  intros Hx n Hn _.
  unfold replace_all_inputs, set_nodes, get_nodes in Hn. cbn [_nodes] in Hn.
  apply list_elem_of_fmap in Hn as (m & -> & Hm).
  cbn. apply has_input_replace_self. exact Hx.
Qed.

(** X11.  The time variable workaround: three nodes are made, an
    Unsqueeze of the initial value, an Unsqueeze of the next-iteration
    value and a Squeeze of the current value; the returned variable enters
    and continues through the two Unsqueeze outputs.  Every reader of the
    current-value edge in the graph is rewired to the Squeeze output, so no
    node of the graph reads that edge any more; the Squeeze node, which is
    not yet in the graph, is the one that reads it.  (The current-value
    edge is an edge of the original graph.) *)
Theorem _adapt_time_var_as_workaround_rewires var w var' nodes w' :
  _adapt_time_var_as_workaround var w = (Return (var', nodes), w') ->
  has_counter_mark (switch_true_identity_output_id var) = false ->
  exists n1 n2 n3,
    nodes = [n1; n2; n3] /\
    type n1 = "Unsqueeze" /\ input n1 = [enter_input_id var] /\
    output n1 = [enter_input_id var'] /\
    type n2 = "Unsqueeze" /\ input n2 = [next_iteration_input_id var] /\
    output n2 = [next_iteration_input_id var'] /\
    type n3 = "Squeeze" /\ input n3 = [switch_true_identity_output_id var] /\
    rewired (g w) (g w') /\
    unread all_nodes_sel (switch_true_identity_output_id var) (g w').
Proof.
  intros H Hmark. unfold _adapt_time_var_as_workaround in H.
  step H as n1 w1 H1. pose proof H1 as H1'.
  apply _create_unsqueeze_node_Return in H1 as (s & Hs & Ho1 & ->).
  rewrite Ho1 in H.
  step H as o1 wa Hoa. apply index_first_Return in Hoa as [-> ->].
  step H as n2 w2 H2. pose proof H2 as H2'.
  apply _create_unsqueeze_node_Return in H2 as (s2 & Hs2 & Ho2 & ->).
  rewrite Ho2 in H.
  step H as o2 wb Hob. apply index_first_Return in Hob as [-> ->].
  step H as n3 w3 H3. pose proof H3 as H3'.
  apply _create_squeeze_node_Return in H3 as (s3 & Hs3 & Ho3 & ->).
  rewrite Ho3 in H.
  step H as o3 wc Hoc. apply index_first_Return in Hoc as [-> ->].
  cbn [g context INTERNAL_NAME switch_true_identity_output_id set_next_iteration_input_id
       set_enter_input_id next_iteration_input_id enter_input_id] in *.
  step H as u wd Hu. prim Hu. step H as sh we Hsh. prim Hsh.
  step H as s4 wf H4. prim H4. step H as u2 wg Hu2. prim Hu2.
  apply ret_Return in H as [H ->]. inversion H; subst var' nodes. clear H.
  cbn [g context INTERNAL_NAME switch_true_identity_output_id set_next_iteration_input_id
       set_enter_input_id next_iteration_input_id enter_input_id exit_output_id] in *.
  assert (Hmade : forall t i w n w', _create_unsqueeze_node t i w = (Return n, w') ->
                                     type n = "Unsqueeze" /\ input n = [i]).
  { clear. intros t i w n w' H. unfold _create_unsqueeze_node in H.
    step H as un wa Hn. apply make_onnx_node_Return in Hn as [-> ->].
    step H as sh wb Hsh. prim Hsh. destruct (get_shape _ _); [|discriminate H].
    crunch H. split; reflexivity. }
  assert (Hmade' : forall t i w n w', _create_squeeze_node t i w = (Return n, w') ->
                                      type n = "Squeeze" /\ input n = [i]).
  { clear. intros t i w n w' H. unfold _create_squeeze_node in H.
    step H as un wa Hn. apply make_onnx_node_Return in Hn as [-> ->].
    step H as sh wb Hsh. prim Hsh. destruct (get_shape _ _); [|discriminate H].
    crunch H. split; reflexivity. }
  destruct (Hmade _ _ _ _ _ H1') as [Ht1 Hi1].
  destruct (Hmade _ _ _ _ _ H2') as [Ht2 Hi2].
  destruct (Hmade' _ _ _ _ _ H3') as [Ht3 Hi3].
  exists n1, n2, n3. repeat (split; [first [reflexivity | assumption]|]).
  match goal with
  | |- rewired _ ?G /\ _ =>
      assert (Hn : get_nodes G
                   = get_nodes (replace_all_inputs all_nodes_sel
                                  (switch_true_identity_output_id var)
                                  (port_name (name_at ("time_var_input" +:+ "_" +:+ "Squeeze")
                                                      (S (S (S (INTERNAL_NAME w))))) 0)
                                  (g w))) by reflexivity
  end.
  split.
  - eapply rewired_nodes; [exact Hn | apply rewired_replace].
  - eapply unread_nodes; [exact Hn|]. apply unread_replace_all.
    apply original_not_generated. exact Hmark.
Qed.

Lemma _adapt_time_var_as_workaround_rewires_witness :
  let w := rnn_classified in
  let r := run (_adapt_time_var_as_workaround v_time) w in
  let var' := match fst r with Return x => fst x | Raise _ => v_time end in
  exists n1 n2 n3,
    match fst r with Return x => snd x | Raise _ => [] end = [n1; n2; n3] /\
    type n1 = "Unsqueeze" /\ input n1 = [enter_input_id v_time] /\
    output n1 = [enter_input_id var'] /\
    type n2 = "Unsqueeze" /\ input n2 = [next_iteration_input_id v_time] /\
    output n2 = [next_iteration_input_id var'] /\
    type n3 = "Squeeze" /\ input n3 = [switch_true_identity_output_id v_time] /\
    rewired (g w) (g (snd r)) /\
    unread all_nodes_sel (switch_true_identity_output_id v_time) (g (snd r)).
Proof.
  apply (_adapt_time_var_as_workaround_rewires v_time rnn_classified).
  - vm_compute. reflexivity.
  - vm_compute. reflexivity.
Defined.

(** ** The layout of the Scan node *)

Lemma compose_state_input_layout acc kv w acc' w' :
  compose_state_input acc kv w = (Return acc', w') ->
  snd (fst (fst acc')) = snd (fst (fst acc)) ++ [switch_true_identity_output_id kv.2] /\
  snd (fst acc') = snd (fst acc) ++ [next_iteration_input_id kv.2] /\
  length (snd acc') = S (length (snd acc)) /\
  input_tas (context w') = input_tas (context w) /\
  output_tas (context w') = output_tas (context w).
Proof.
  destruct acc as [[[nta lsi] lso] init], kv as [k v]. unfold compose_state_input.
  intros H. step H as nodes w1 Ha.
  apply _adapt_scan_sequence_input_or_output_spec in Ha
    as (s & c & rn & _ & _ & _ & _ & _ & _ & Hctx & _).
  step H as lastn w2 Hl. prim Hl. step H as o w3 Ho. prim Ho.
  step H as u w4 Hst. prim H. cbn [fst snd]. rewrite length_app. cbn [length].
  split; [reflexivity|]. split; [reflexivity|]. split; [lia|].
  destruct k as [k|]; cbn in Hst; prim Hst; cbn; rewrite Hctx; split; reflexivity.
Qed.

Lemma compose_state_loop_layout l : forall acc w acc' w',
  for_fold l acc compose_state_input w = (Return acc', w') ->
  snd (fst (fst acc'))
  = snd (fst (fst acc)) ++ map (fun kv => switch_true_identity_output_id kv.2) l /\
  snd (fst acc') = snd (fst acc) ++ map (fun kv => next_iteration_input_id kv.2) l /\
  length (snd acc') = (length (snd acc) + length l)%nat /\
  input_tas (context w') = input_tas (context w) /\
  output_tas (context w') = output_tas (context w).
Proof.
  induction l as [|kv l IH]; intros acc w acc' w' H; cbn [for_fold] in H.
  - prim H. cbn [map length]. rewrite !app_nil_r. repeat split; lia.
  - step H as acc1 w1 Hb. apply compose_state_input_layout in Hb as (H1 & H2 & H3 & H4 & H5).
    apply IH in H as (K1 & K2 & K3 & K4 & K5).
    rewrite K1, K2, K3, K4, K5, H1, H2, H3, H4, H5. cbn [map length].
    rewrite <- !app_assoc. cbn [app]. repeat split; lia.
Qed.

Lemma compose_scan_loop_layout l : forall acc w acc' w',
  for_fold l acc compose_scan_input w = (Return acc', w') ->
  (exists outs, snd (fst (fst acc')) = snd (fst (fst acc)) ++ outs /\
                Forall2 (fun ta o => output_id ta = Some o) l outs) /\
  length (snd (fst acc')) = (length (snd (fst acc)) + length l)%nat.
Proof.
  induction l as [|ta l IH]; intros acc w acc' w' H; cbn [for_fold] in H.
  - prim H. split; [exists []; rewrite app_nil_r; split; [reflexivity|constructor]|].
    cbn; lia.
  - step H as acc1 w1 Hb. destruct acc as [[[nta lsci] init] tas].
    unfold compose_scan_input in Hb.
    step Hb as nodes wa Ha. step Hb as lastn wb Hl. prim Hl.
    step Hb as o wc Ho. prim Ho. step Hb as out wd Hout. prim Hout. prim Hb.
    apply IH in H as ((outs & K1 & KF) & K2). cbn [fst snd] in *.
    split.
    + exists (out :: outs). rewrite K1, <- app_assoc. split; [reflexivity|].
      constructor; [cbn in *; congruence | exact KF].
    + rewrite K2, length_app. cbn [length]. lia.
Qed.

(** The layout of the ScanProperties made by the composition. *)
Lemma compose_cell_layout w sp nodes w' :
  _compose_cell_inputs_and_outputs w = (Return (sp, nodes), w') ->
  exists tv time_out,
    time_var (context w) = Some tv /\
    loop_state_inputs sp
    = switch_true_identity_output_id tv
      :: map (fun kv => switch_true_identity_output_id kv.2) (other_loop_vars (context w)) /\
    loop_state_outputs sp
    = time_out
      :: map (fun kv => next_iteration_input_id kv.2) (other_loop_vars (context w)) /\
    length (initial_state_and_scan_inputs sp)
    = (1 + length (other_loop_vars (context w)) + length (input_tas (context w)))%nat /\
    Forall2 (fun ta o => output_id ta = Some o) (input_tas (context w)) (loop_scan_inputs sp) /\
    loop_scan_outputs sp = map data_input_id (output_tas (context w)).
Proof.
  unfold _compose_cell_inputs_and_outputs. intros H.
  step H as ctx w0 Hc. prim Hc. step H as tv w1 Htv. prim Htv.
  step H as r w2 Hw. destruct r as [tv' nta0].
  apply _adapt_time_var_as_workaround_spec in Hw
    as (s & _ & _ & Hsw & _ & _ & Hctx & _).
  step H as u w3 Hst. cbn in Hst. prim Hst.
  step H as acc w4 H1. destruct acc as [[[nta1 lsi] lso] init1].
  apply compose_state_loop_layout in H1 as (K1 & K2 & K3 & _ & _).
  step H as acc2 w5 H2. destruct acc2 as [[[nta2 lsci] init2] tas].
  apply compose_scan_loop_layout in H2 as ((outs & L1 & LF) & L2).
  step H as u2 w6 Hm. prim Hm. apply ret_Return in H as [H ->].
  injection H as Hsp Hn. subst sp nodes.
  cbn [fst snd map length app loop_state_inputs loop_state_outputs loop_scan_inputs
       loop_scan_outputs initial_state_and_scan_inputs] in *.
  exists tv, (next_iteration_input_id tv').
  split; [exact E|].
  rewrite K1, K2, L1, L2, K3, !length_map, !map_map. cbn [fst snd].
  rewrite Hsw. repeat split; first [lia | exact LF].
Qed.

(** X12.  The layout of the ScanProperties that
    [_compose_cell_inputs_and_outputs] returns: the state inputs are the
    current-value edges of the time variable and of the state variables, in
    the order of the context; the state outputs are their next-iteration
    edges, the time variable's one passed through an Unsqueeze node; there
    is one initial input per state input and per input array; the scan
    inputs are the outputs of the input arrays and the scan outputs the
    data edges of the output arrays. *)
Theorem _compose_cell_inputs_and_outputs_layout w sp nodes w' :
  _compose_cell_inputs_and_outputs w = (Return (sp, nodes), w') ->
  exists tv time_out,
    time_var (context w) = Some tv /\
    loop_state_inputs sp
    = switch_true_identity_output_id tv
      :: map (fun kv => switch_true_identity_output_id kv.2) (other_loop_vars (context w)) /\
    loop_state_outputs sp
    = time_out
      :: map (fun kv => next_iteration_input_id kv.2) (other_loop_vars (context w)) /\
    length (initial_state_and_scan_inputs sp)
    = (1 + length (other_loop_vars (context w)) + length (input_tas (context w)))%nat /\
    Forall2 (fun ta o => output_id ta = Some o) (input_tas (context w)) (loop_scan_inputs sp) /\
    loop_scan_outputs sp = map data_input_id (output_tas (context w)).
Proof. intros H. exact (compose_cell_layout _ _ _ _ H). Qed.

Lemma _compose_cell_inputs_and_outputs_layout_witness :
  let w := rnn_classified in
  let sp := match fst (run _compose_cell_inputs_and_outputs w) with
            | Return r => fst r
            | Raise _ => mkScanProperties [] [] [] [] []
            end in
  exists tv time_out,
    time_var (context w) = Some tv /\
    loop_state_inputs sp
    = switch_true_identity_output_id tv
      :: map (fun kv => switch_true_identity_output_id kv.2) (other_loop_vars (context w)) /\
    loop_state_outputs sp
    = time_out
      :: map (fun kv => next_iteration_input_id kv.2) (other_loop_vars (context w)) /\
    length (initial_state_and_scan_inputs sp)
    = (1 + length (other_loop_vars (context w)) + length (input_tas (context w)))%nat /\
    Forall2 (fun ta o => output_id ta = Some o) (input_tas (context w)) (loop_scan_inputs sp) /\
    loop_scan_outputs sp = map data_input_id (output_tas (context w)).
Proof.
  apply (_compose_cell_inputs_and_outputs_layout rnn_classified _
           (match fst (run _compose_cell_inputs_and_outputs rnn_classified) with
            | Return r => snd r
            | Raise _ => []
            end)
           (snd (run _compose_cell_inputs_and_outputs rnn_classified))).
  vm_compute. reflexivity.
Defined.

Lemma _create_scan_node_made sp w scan w' :
  _create_scan_node sp w = (Return scan, w') ->
  scan = mkNode (name_at "Scan" (S (INTERNAL_NAME w))) "Scan"
                ("" :: initial_state_and_scan_inputs sp)
                (map (port_name (name_at "Scan" (S (INTERNAL_NAME w))))
                     (seq 0 (length (loop_state_outputs sp ++ loop_scan_outputs sp))))
                [("num_scan_inputs", attr_i (Z.of_nat (length (loop_scan_inputs sp))))] /\
  (2 <= length (initial_state_and_scan_inputs sp))%nat.
Proof.
  unfold _create_scan_node. intros H.
  step H as sn w1 Hn. apply make_onnx_node_Return in Hn as [-> ->].
  step H as i1 wa Hi1. step H as tsh wb Hts. step H as tdt wc Htd.
  step H as o0 wd Ho0. step H as u1 we Hu1. step H as u2 wf Hu2.
  step H as i2 wg Hi2. prim Hi2. cbn [input] in E.
  step H as ssh wh Hss. step H as sdt wi Hsd. step H as idx2 w2 Hl1.
  step H as il wj Hil. step H as lsh wk Hls. step H as ls wl Hlss.
  step H as batch wm Hb. step H as time wn Ht. step H as idx3 w3 Hl2.
  apply ret_Return in H as [-> _]. split; [reflexivity|].
  apply lookup_lt_Some in E. cbn [length] in E. lia.
Qed.

Section RewriteOutcome.

Variable find_subgraph : SubGraphMetadata -> Graph -> outcome (list Node * list Node).
Variable _extract_sub_graph_nodes : Graph -> option Node -> list Node.

Lemma rewrite_until_scan_node_Return s sp nta scan s1 :
  rewrite_until_scan_node s = (Return (sp, nta, scan), s1) ->
  BODY_GRAPH_DICT s1 = BODY_GRAPH_DICT s /\
  exists w2 w3,
    context w2 = context (world s) /\
    _compose_cell_inputs_and_outputs w2 = (Return (sp, nta), w3) /\
    _create_scan_node sp w3 = (Return scan, world s1).
Proof.
  unfold rewrite_until_scan_node. intros H. apply lift_Return in H as [H Hd].
  split; [exact Hd|].
  step H as to_remove w1 Hcut. apply _cut_off_connection_for_cell_same in Hcut.
  step H as u w2 Hrm. prim Hrm.
  step H as r w3 Hc. destruct r as [sp' nta'].
  step H as scan' w4 Hs. apply ret_Return in H as [H Hw]. cbn [fst snd] in *.
  injection H as -> -> ->. eexists _, w3. split; [|split; [exact Hc|]].
  - cbn. now destruct Hcut as (_ & _ & _ & ->).
  - rewrite Hw. exact Hs.
Qed.

Lemma rewrite_after_scan_node_registers sp nta scan s r s' :
  rewrite_after_scan_node find_subgraph _extract_sub_graph_nodes sp nta scan s
    = (Return r, s') ->
  BODY_GRAPH_DICT s !! name scan = None /\
  exists others,
    BODY_GRAPH_DICT s'
    = <[name scan := mkSubGraphMetadata
                       (loop_state_inputs sp ++ loop_scan_inputs sp)
                       (loop_state_outputs sp ++ loop_scan_outputs sp)
                       (initial_state_and_scan_inputs sp) others]> (BODY_GRAPH_DICT s).
Proof.
  unfold rewrite_after_scan_node. intros H.
  step H as ns s1 H1. step H as ap s2 H2. apply lift_dict in H2.
  step H as u s3 H3. apply lift_dict in H3. prim H.
  unfold _extract_and_register_cell_graph_info in H1.
  step H1 as r1 sa Ha. apply lift_dict in Ha.
  step H1 as acc sb Hb. apply lift_dict in Hb.
  step H1 as u1 sc Hc. prim H1.
  unfold add_body_graph_info in Hc. rewrite Hb, Ha in Hc.
  destruct (BODY_GRAPH_DICT s !! name scan) eqn:Hl; [discriminate Hc|].
  injection Hc as Hsc. subst sc. split; [reflexivity|].
  exists (snd acc). rewrite H3, H2. reflexivity.
Qed.

(** X13.  The signature of the Scan node made by a successful rewrite: its
    inputs are the empty sequence-length input followed by one input per
    state variable (the time variable first) and per input array; it has
    one output per state variable and per output array; its
    [num_scan_inputs] is the number of input arrays.  A successful rewrite
    implies that the loop has a state variable besides the time variable,
    or an input array. *)
Theorem rewrite_scan_node_signature s scan s' :
  rewrite_try find_subgraph _extract_sub_graph_nodes s = (Return OK, Some scan, s') ->
  let c := context (world s) in
  type scan = "Scan" /\
  (exists ins, input scan = "" :: ins /\
               length ins = (1 + length (other_loop_vars c) + length (input_tas c))%nat) /\
  length (output scan) = (1 + length (other_loop_vars c) + length (output_tas c))%nat /\
  get_attr scan "num_scan_inputs" = Some (attr_i (Z.of_nat (length (input_tas c)))) /\
  (1 <= length (other_loop_vars c) + length (input_tas c))%nat.
Proof.
  intros H c. unfold rewrite_try in H.
  destruct (rewrite_until_scan_node s) as [[[[sp nta] sn]|e] s1] eqn:H1;
    [|discriminate H].
  destruct (rewrite_after_scan_node _ _ sp nta sn s1) as [r s2] eqn:H2.
  injection H as -> -> ->.
  apply rewrite_until_scan_node_Return in H1 as (_ & w2 & w3 & Hctx & Hc & Hs).
  apply compose_cell_layout in Hc
    as (tv & tout & _ & Hlsi & Hlso & Hinit & HF & Hlsco).
  apply _create_scan_node_made in Hs as [-> Hge].
  rewrite Hctx in *. fold c in Hlsi, Hlso, Hinit, HF, Hlsco.
  apply Forall2_length in HF.
  split; [reflexivity|]. split; [|split; [|split]].
  - eexists. split; [reflexivity | exact Hinit].
  - cbn [output]. rewrite length_map, length_seq, length_app, Hlso, Hlsco.
    cbn [length]. rewrite !length_map. lia.
  - unfold get_attr. cbn. now rewrite <- HF.
  - lia.
Qed.

(** X14.  A successful rewrite registers the boundary of the cell under
    the name of the Scan node, where no entry stood before, and leaves the
    other entries alone.  The entry's initial inputs are the inputs of the
    Scan node behind the empty first one; it has one input id per initial
    input and one output id per output of the Scan node. *)
Theorem rewrite_registers_scan_node s scan s' :
  rewrite_try find_subgraph _extract_sub_graph_nodes s = (Return OK, Some scan, s') ->
  BODY_GRAPH_DICT s !! name scan = None /\
  exists meta,
    BODY_GRAPH_DICT s' = <[name scan := meta]> (BODY_GRAPH_DICT s) /\
    input scan = "" :: initial_input_ids meta /\
    length (input_ids meta) = length (initial_input_ids meta) /\
    length (output_ids meta) = length (output scan).
Proof.
  intros H. unfold rewrite_try in H.
  destruct (rewrite_until_scan_node s) as [[[[sp nta] sn]|e] s1] eqn:H1;
    [|discriminate H].
  destruct (rewrite_after_scan_node _ _ sp nta sn s1) as [r s2] eqn:H2.
  injection H as -> -> ->.
  apply rewrite_until_scan_node_Return in H1 as (Hd & w2 & w3 & Hctx & Hc & Hs).
  apply rewrite_after_scan_node_registers in H2 as (Hnone & others & Hins).
  apply compose_cell_layout in Hc
    as (tv & tout & _ & Hlsi & Hlso & Hinit & HF & Hlsco).
  apply _create_scan_node_made in Hs as [-> _].
  apply Forall2_length in HF. rewrite Hd in *.
  split; [exact Hnone|]. eexists. split; [exact Hins|].
  cbn [input output input_ids output_ids initial_input_ids].
  split; [reflexivity|]. split.
  - rewrite length_app, Hlsi, Hinit, <- HF. cbn [length]. rewrite length_map. lia.
  - now rewrite length_map, length_seq.
Qed.

(** X15.  A loop without a state variable besides the time variable and
    without an input array is never rewritten: the Scan node would have
    less than two inputs behind the first and the lookup of its second
    state input fails, so [rewrite] reports [FAIL].  The registry is left
    as it was. *)
Theorem rewrite_without_state_or_input_fails s :
  other_loop_vars (context (world s)) = [] ->
  input_tas (context (world s)) = [] ->
  exists s', rewrite find_subgraph _extract_sub_graph_nodes s = (Return FAIL, s') /\
             BODY_GRAPH_DICT s' = BODY_GRAPH_DICT s.
Proof.
  intros Ho Hi. unfold rewrite, rewrite_try.
  destruct (rewrite_until_scan_node s) as [[[[sp nta] sn]|e] s1] eqn:H1.
  - exfalso.
    apply rewrite_until_scan_node_Return in H1 as (_ & w2 & w3 & Hctx & Hc & Hs).
    apply compose_cell_layout in Hc
      as (tv & tout & _ & _ & _ & Hinit & _).
    apply _create_scan_node_made in Hs as [_ Hge].
    rewrite Hctx, Ho, Hi in Hinit. cbn in Hinit. lia.
  - exists s1. split; [reflexivity|].
    unfold rewrite_until_scan_node in H1. now apply lift_dict in H1.
Qed.

End RewriteOutcome.

Lemma rewrite_scan_node_signature_witness :
  let c := context (world rnn_session) in
  type rnn_scan = "Scan" /\
  (exists ins, input rnn_scan = "" :: ins /\
               length ins = (1 + length (other_loop_vars c) + length (input_tas c))%nat) /\
  length (output rnn_scan) = (1 + length (other_loop_vars c) + length (output_tas c))%nat /\
  get_attr rnn_scan "num_scan_inputs" = Some (attr_i (Z.of_nat (length (input_tas c)))) /\
  (1 <= length (other_loop_vars c) + length (input_tas c))%nat.
Proof.
  apply (rewrite_scan_node_signature rnn_find_subgraph no_extract rnn_session rnn_scan
           rnn_rewritten).
  vm_compute. reflexivity.
Defined.

Lemma rewrite_registers_scan_node_witness :
  BODY_GRAPH_DICT rnn_session !! name rnn_scan = None /\
  exists meta,
    BODY_GRAPH_DICT rnn_rewritten = <[name rnn_scan := meta]> (BODY_GRAPH_DICT rnn_session) /\
    input rnn_scan = "" :: initial_input_ids meta /\
    length (input_ids meta) = length (initial_input_ids meta) /\
    length (output_ids meta) = length (output rnn_scan).
Proof.
  apply (rewrite_registers_scan_node rnn_find_subgraph no_extract rnn_session rnn_scan
           rnn_rewritten).
  vm_compute. reflexivity.
Defined.

Lemma rewrite_without_state_or_input_fails_witness :
  exists s', rewrite rnn_find_subgraph no_extract timed_session = (Return FAIL, s') /\
             BODY_GRAPH_DICT s' = BODY_GRAPH_DICT timed_session.
Proof.
  apply (rewrite_without_state_or_input_fails rnn_find_subgraph no_extract timed_session).
  - vm_compute. reflexivity.
  - vm_compute. reflexivity.
Defined.

(** ** Connecting the Scan node with the readers of the loop *)

Lemma unread_all_replace_other x old new gr :
  x <> new -> unread all_nodes_sel x gr ->
  unread all_nodes_sel x (replace_all_inputs all_nodes_sel old new gr).
Proof.
  intros Hx Hu n Hn _.
  unfold replace_all_inputs, set_nodes, get_nodes in Hn. cbn [_nodes] in Hn.
  apply list_elem_of_fmap in Hn as (m & -> & Hm).
  cbn. apply has_input_replace_other; [exact Hx|]. now apply Hu.
Qed.

Lemma rewired_to_fresh_refl gr : rewired_to_fresh gr gr.
Proof. split; [apply rewired_refl | auto]. Qed.

Lemma rewired_to_fresh_trans g1 g2 g3 :
  rewired_to_fresh g1 g2 -> rewired_to_fresh g2 g3 -> rewired_to_fresh g1 g3.
Proof.
  intros [Hr1 Hu1] [Hr2 Hu2]. split; [eapply rewired_trans; eauto | auto].
Qed.

Lemma connect_output_rewires target scan acc out w acc' w' :
  connect_output target scan acc out w = (Return acc', w') ->
  rewired_to_fresh (g w) (g w') /\
  forall e, out = Some e -> e <> "" -> has_counter_mark e = false ->
            unread all_nodes_sel e (g w').
Proof.
  unfold connect_output. intros H. step H as nta w1 Hb. prim H.
  destruct (truthy out) eqn:Ht.
  - step Hb as so wa Hso. prim Hso. step Hb as nodes wb Ha.
    apply _adapt_scan_sequence_input_or_output_spec in Ha
      as (s & c & rn & _ & _ & _ & Hl & Hout & _ & _ & Hnodes & _).
    step Hb as lastn wc Hln. prim Hln. rewrite Hl in E0. injection E0 as <-.
    step Hb as lo wd Hlo. rewrite Hout in Hlo. apply index_first_Return in Hlo as [-> ->].
    step Hb as u we Hm. prim Hm. prim Hb. cbn [g].
    assert (Hn : get_nodes (replace_all_inputs all_nodes_sel (default "" out)
                              (port_name (name_at (target +:+ "_" +:+ "Reshape") c) 0) (g wb))
                 = get_nodes (replace_all_inputs all_nodes_sel (default "" out)
                                (port_name (name_at (target +:+ "_" +:+ "Reshape") c) 0) (g w))).
    { unfold replace_all_inputs, set_nodes, get_nodes. cbn [_nodes].
      unfold same_nodes, get_nodes in Hnodes. now rewrite Hnodes. }
    split; [split|].
    + eapply rewired_nodes; [exact Hn | apply rewired_replace].
    + intros x Hx Hu. eapply unread_nodes; [exact Hn|].
      apply unread_all_replace_other; [|exact Hu]. now apply original_not_generated.
    + intros e -> _ He. eapply unread_nodes; [exact Hn|]. cbn [default].
      apply unread_replace_all. now apply original_not_generated.
  - prim Hb. split; [apply rewired_to_fresh_refl|].
    intros e -> He _. cbn in Ht. apply negb_false_iff, String.eqb_eq in Ht. contradiction.
Qed.

Lemma connect_loop_rewires target scan l : forall acc w acc' w',
  for_fold l acc (connect_output target scan) w = (Return acc', w') ->
  rewired_to_fresh (g w) (g w') /\
  forall e, Some e ∈ l -> e <> "" -> has_counter_mark e = false ->
            unread all_nodes_sel e (g w').
Proof.
  induction l as [|out l IH]; intros acc w acc' w' H; cbn [for_fold] in H.
  - prim H. split; [apply rewired_to_fresh_refl|]. intros e He. elems He.
  - step H as acc1 w1 Hb. apply connect_output_rewires in Hb as [Hr1 Hu1].
    apply IH in H as [Hr2 Hu2]. split; [eapply rewired_to_fresh_trans; eauto|].
    intros e He Hne Hm. apply elem_of_cons in He as [<- | He].
    + destruct Hr2 as [_ Hkeep]. apply Hkeep; [exact Hm|]. now apply Hu1.
    + now apply Hu2.
Qed.

(** X16.  What [_connect_scan_with_output] leaves: the graph has the same
    nodes, rewired at most, and no node of it reads the exit edge of a
    state variable or the gathered output of an output array any more:
    their readers now read the Reshape nodes behind the Scan outputs.
    (Exit edges and gathered outputs are edges of the original graph.) *)
Theorem _connect_scan_with_output_rewires scan w r w' :
  _connect_scan_with_output scan w = (Return r, w') ->
  rewired (g w) (g w') /\
  (forall kv e, kv ∈ other_loop_vars (context w) -> exit_output_id kv.2 = Some e ->
                e <> "" -> has_counter_mark e = false -> unread all_nodes_sel e (g w')) /\
  (forall ta e, ta ∈ output_tas (context w) -> output_id ta = Some e ->
                e <> "" -> has_counter_mark e = false -> unread all_nodes_sel e (g w')).
Proof.
  unfold _connect_scan_with_output. intros H.
  step H as ctx w0 Hc. prim Hc. step H as acc1 w1 H1. step H as acc2 w2 H2. prim H.
  apply connect_loop_rewires in H1 as [Hr1 Hu1].
  apply connect_loop_rewires in H2 as [Hr2 Hu2].
  split; [|split].
  - destruct Hr1, Hr2. eapply rewired_trans; eauto.
  - intros kv e Hkv He Hne Hm. destruct Hr2 as [_ Hkeep]. apply Hkeep; [exact Hm|].
    apply Hu1; [|exact Hne|exact Hm]. rewrite <- He.
    apply list_elem_of_fmap. exists kv. split; [reflexivity | exact Hkv].
  - intros ta e Hta He Hne Hm. apply Hu2; [|exact Hne|exact Hm]. rewrite <- He.
    apply list_elem_of_fmap. exists ta. split; [reflexivity | exact Hta].
Qed.

Lemma _connect_scan_with_output_rewires_witness :
  let w := rnn_scanned in
  let w' := snd (run (_connect_scan_with_output rnn_scan) rnn_scanned) in
  rewired (g w) (g w') /\
  (forall kv e, kv ∈ other_loop_vars (context w) -> exit_output_id kv.2 = Some e ->
                e <> "" -> has_counter_mark e = false -> unread all_nodes_sel e (g w')) /\
  (forall ta e, ta ∈ output_tas (context w) -> output_id ta = Some e ->
                e <> "" -> has_counter_mark e = false -> unread all_nodes_sel e (g w')).
Proof.
  apply (_connect_scan_with_output_rewires rnn_scan rnn_scanned
           (match fst (run (_connect_scan_with_output rnn_scan) rnn_scanned) with
            | Return r => r
            | Raise _ => []
            end)).
  vm_compute. reflexivity.
Defined.

(** ** More on the late rewriter *)

Section LatePass.

Variable find_subgraph : SubGraphMetadata -> Graph -> outcome (list Node * list Node).
Variable topological_sort : list Node -> list Node.

Lemma late_loop_skips pre : forall rest acc s,
  Forall (fun m => type m <> "Scan") pre ->
  for_fold (pre ++ rest) acc (late_rewrite_node find_subgraph topological_sort) s
  = for_fold rest acc (late_rewrite_node find_subgraph topological_sort) s.
Proof.
  induction pre as [|m pre IH]; intros rest acc s Hpre; [reflexivity|].
  apply Forall_cons in Hpre as [Hm Hpre]. cbn [app for_fold].
  assert (Hskip : late_rewrite_node find_subgraph topological_sort acc m s = (Return acc, s)).
  { unfold late_rewrite_node. apply String.eqb_neq in Hm. now rewrite Hm. }
  rewrite (bind_ok _ _ _ _ _ Hskip). now apply IH.
Qed.

(** X17.  The late pass reads [num_scan_inputs] of every Scan node before
    it asks the registry: a Scan node without that attribute ends the pass
    with [AttributeError], whether or not a boundary is registered for it.
    When it is the first Scan node of the graph, nothing has been changed
    by then. *)
Theorem late_rewrite_scan_without_num_scan_inputs s pre n post :
  get_nodes (g (world s)) = pre ++ n :: post ->
  Forall (fun m => type m <> "Scan") pre ->
  type n = "Scan" -> get_attr n "num_scan_inputs" = None ->
  late_rewrite find_subgraph topological_sort s = (Raise AttributeError, s).
Proof.
  intros Hnodes Hpre Ht Ha. unfold late_rewrite.
  rewrite bind_lift_gets. apply bind_fail.
  rewrite Hnodes, late_loop_skips by exact Hpre.
  cbn [for_fold]. apply bind_fail.
  unfold late_rewrite_node. rewrite Ht, Ha. reflexivity.
Qed.

(** X18.  The late pass adds no node and changes none but Scan nodes:
    every node of the list it returns is a node of the graph as the pass
    found it, or a Scan node of that graph with a [body] attribute
    attached. *)
Theorem late_rewrite_returns_known_nodes s ns s' :
  late_rewrite find_subgraph topological_sort s = (Return ns, s') ->
  forall m, m ∈ ns ->
    m ∈ get_nodes (g (world s)) \/
    exists x gp, x ∈ get_nodes (g (world s)) /\ type x = "Scan" /\
                 m = set_attr x "body" (attr_g gp).
Proof.
  intros H m Hm. unfold late_rewrite in H.
  rewrite bind_lift_gets in H. step H as L s1 Hloop.
  rewrite bind_lift_gets in H. apply lift_Return in H as [Hp _].
  apply purge_loop_spec in Hp as [_ Hsub].
  apply late_loop_spec in Hloop as (_ & _ & Hev).
  apply Hsub in Hm. apply list_elem_of_lookup in Hm as [i Hi].
  destruct (Forall2_lookup_r _ _ _ _ _ Hev Hi) as (m0 & Hm0 & [-> | Hbody]).
  - left. apply list_elem_of_lookup. eauto.
  - right. destruct Hbody as (x & gp & Hx & Hty & _ & ->). eauto.
Qed.

End LatePass.

Lemma late_rewrite_scan_without_num_scan_inputs_witness :
  late_rewrite rnn_find_subgraph no_sort
    (mkSession (mkWorld (mkGraph [n_time; nd "Scan__1" "Scan" [] ["Scan__1:0"]] ∅ ∅ ∅)
                        (create_context "rnn/while/" []) 0) ∅)
  = (Raise AttributeError,
     mkSession (mkWorld (mkGraph [n_time; nd "Scan__1" "Scan" [] ["Scan__1:0"]] ∅ ∅ ∅)
                        (create_context "rnn/while/" []) 0) ∅).
Proof.
  apply (late_rewrite_scan_without_num_scan_inputs rnn_find_subgraph no_sort _
           [n_time] (nd "Scan__1" "Scan" [] ["Scan__1:0"]) []).
  - reflexivity.
  - constructor; [discriminate | constructor].
  - reflexivity.
  - reflexivity.
Defined.

Lemma late_rewrite_returns_known_nodes_witness :
  n_time ∈ get_nodes (g (world rnn_rewritten)) \/
  exists x gp, x ∈ get_nodes (g (world rnn_rewritten)) /\ type x = "Scan" /\
               n_time = set_attr x "body" (attr_g gp).
Proof.
  apply (late_rewrite_returns_known_nodes rnn_find_subgraph no_sort rnn_rewritten
           rnn_late_nodes (snd rnn_late)).
  - vm_compute. reflexivity.
  - apply list_elem_of_lookup. exists 0%nat. vm_compute. reflexivity.
Defined.

(** ** The nodes removed by the rewrite *)

Lemma same_node_sym a b : same_node a b = same_node b a.
Proof. unfold same_node. apply String.eqb_sym. Qed.

Lemma filter_all {A} (P : A -> Prop) `{forall x, Decision (P x)} (l : list A) :
  Forall P l -> filter P l = l.
Proof.
  induction l as [|x l IH]; intros Hl; [reflexivity|].
  apply Forall_cons in Hl as [Hx Hl]. rewrite filter_cons, decide_True by exact Hx.
  now rewrite IH.
Qed.

Lemma NoDup_names_filter (P : Node -> Prop) `{forall x, Decision (P x)} (l : list Node) :
  NoDup (map name l) -> NoDup (map name (filter P l)).
Proof.
  induction l as [|x l IH]; intros Hl; [constructor|].
  cbn [map] in Hl. apply NoDup_cons in Hl as [Hx Hl].
  rewrite filter_cons. destruct (decide (P x)); [|now apply IH].
  cbn [map]. apply NoDup_cons. split; [|now apply IH].
  intros Hin. apply Hx. apply list_elem_of_fmap in Hin as (y & Hy & Hyin).
  apply list_elem_of_fmap. exists y. split; [exact Hy|].
  now apply list_elem_of_filter in Hyin as [_ Hyin].
Qed.

Lemma remove_node_filter n l :
  NoDup (map name l) -> remove_node n l = filter (fun m => same_node n m = false) l.
Proof.
  induction l as [|m l IH]; intros Hl; [reflexivity|].
  cbn [map] in Hl. apply NoDup_cons in Hl as [Hm Hl].
  cbn [remove_node]. rewrite filter_cons. destruct (same_node n m) eqn:E.
  - rewrite decide_False by discriminate. symmetry. apply filter_all.
    apply Forall_forall. intros x Hx. unfold same_node in *.
    apply String.eqb_eq in E. apply String.eqb_neq. intros Heq. apply Hm.
    apply list_elem_of_fmap. exists x. split; [congruence | exact Hx].
  - rewrite decide_True by reflexivity. now rewrite IH.
Qed.

Lemma node_in_false n l : node_in n l = false -> Forall (fun m => same_node n m = false) l.
Proof.
  unfold node_in. induction l as [|m l IH]; intros H; [constructor|].
  cbn [existsb] in H. apply orb_false_iff in H as [Hm Hl]. constructor; auto.
Qed.

Lemma remove_step_filter n ns :
  NoDup (map name ns) ->
  (if node_in n ns then remove_node n ns else ns)
  = filter (fun m => same_node n m = false) ns.
Proof.
  intros Hns. destruct (node_in n ns) eqn:E.
  - now apply remove_node_filter.
  - symmetry. apply filter_all. now apply node_in_false.
Qed.

Lemma remove_fold_filter L : forall ns,
  NoDup (map name ns) ->
  fold_left (fun ns n => if node_in n ns then remove_node n ns else ns) L ns
  = filter (fun m => node_in m L = false) ns.
Proof.
  induction L as [|n L IH]; intros ns Hns; cbn [fold_left].
  - symmetry. apply filter_all. apply Forall_forall. reflexivity.
  - rewrite remove_step_filter by exact Hns.
    rewrite IH by (apply NoDup_names_filter; exact Hns).
    rewrite list_filter_filter. apply list_filter_iff. intros m.
    unfold node_in. cbn [existsb]. rewrite (same_node_sym m n).
    rewrite orb_false_iff. tauto.
Qed.

Lemma existsb_filter_other m n l :
  same_node m n = false ->
  existsb (same_node m) (filter (fun x => same_node n x = false) l)
  = existsb (same_node m) l.
Proof.
  intros Hmn. induction l as [|x l IH]; [reflexivity|].
  rewrite filter_cons. destruct (same_node n x) eqn:E.
  - rewrite decide_False by discriminate. cbn [existsb]. rewrite IH.
    assert (same_node m x = false) as ->; [|reflexivity].
    unfold same_node in *. apply String.eqb_eq in E. apply String.eqb_neq in Hmn.
    apply String.eqb_neq. congruence.
  - rewrite decide_True by reflexivity. cbn [existsb]. now rewrite IH.
Qed.

Lemma node_in_node_set m L : node_in m (node_set L) = node_in m L.
Proof.
  unfold node_in. induction L as [|n L IH]; [reflexivity|].
  cbn [node_set existsb]. destruct (same_node m n) eqn:E; [reflexivity|].
  cbn [orb]. now rewrite existsb_filter_other.
Qed.

(** X19.  Which nodes [rewrite] takes out of the graph before it composes
    the Scan node: in a graph whose node names are distinct, exactly the
    nodes returned by [_cut_off_connection_for_cell]; a [None] among them
    counts for nothing, and the nodes that stay keep their order. *)
Theorem remove_present_filter to_remove all_nodes :
  NoDup (map name all_nodes) ->
  remove_present to_remove all_nodes
  = filter (fun m => node_in m (omap id to_remove) = false) all_nodes.
Proof.
  intros Hall. unfold remove_present. rewrite remove_fold_filter by exact Hall.
  apply list_filter_iff. intros m. now rewrite node_in_node_set.
Qed.

Lemma remove_present_filter_witness :
  remove_present [Some n_id_t; None; Some n_read; Some n_id_t] (get_nodes rnn_graph)
  = filter (fun m => node_in m (omap id [Some n_id_t; None; Some n_read; Some n_id_t]) = false)
           (get_nodes rnn_graph).
Proof.
  apply (remove_present_filter [Some n_id_t; None; Some n_read; Some n_id_t]
           (get_nodes rnn_graph)).
  apply (bool_decide_unpack _). vm_compute. reflexivity.
Defined.

(** ** The body graph of a Scan node *)

Lemma prepare_inputs_loop cnt k l : forall acc w acc' w',
  for_fold l acc
    (fun (acc : Z * list (string * option Z * list Z)) p =>
       let i := fst acc in
       let input_name := fst p in
       let init_input_id := snd p in
       shape <- shape_of input_name ;;
       dtype <- dtype_of input_name ;;
       loop_input_shape <-
         (match shape with
          | None =>
              shape <- shape_of init_input_id ;;
              s <- from_option TypeError shape ;;
              if Z.geb i (cnt - k)
              then ret (slice2 s)
              else ret s
          | Some s => ret s
          end) ;;
       ret (i + 1, snd acc ++ [(input_name, dtype, loop_input_shape)])) w
  = (Return acc', w') ->
  w' = w /\
  exists new,
    snd acc' = snd acc ++ new /\ length new = length l /\
    forall j p, l !! j = Some p ->
      exists entry, new !! j = Some entry /\
                    body_input_for (g w) cnt k (fst acc + Z.of_nat j) p entry.
Proof.
  induction l as [|p l IH]; intros acc w acc' w' H; cbn [for_fold] in H.
  - prim H. split; [reflexivity|]. exists []. rewrite app_nil_r.
    split; [reflexivity|]. split; [reflexivity|]. intros j q Hq. discriminate.
  - step H as acc1 w1 Hb.
    assert (Hstep : w1 = w /\ exists entry,
              acc1 = (fst acc + 1, snd acc ++ [entry]) /\
              body_input_for (g w) cnt k (fst acc) p entry).
    { cbn zeta in Hb. step Hb as sh wa Hsh. prim Hsh. step Hb as dt wb Hdt. prim Hdt.
      step Hb as ls wc Hls. prim Hb.
      destruct (get_shape (g w) p.1) as [s|] eqn:Es.
      - prim Hls. split; [reflexivity|]. eexists. split; [reflexivity|].
        unfold body_input_for. cbn [fst snd]. rewrite Es. repeat split.
      - step Hls as sh2 wd H5. prim H5. step Hls as s2 we H6. prim H6.
        assert (wc = w /\ ls = if Z.geb (fst acc) (cnt - k) then slice2 s2 else s2)
          as [-> ->].
        { destruct (Z.geb _ _); prim Hls; auto. }
        split; [reflexivity|]. eexists. split; [reflexivity|].
        unfold body_input_for. cbn [fst snd]. rewrite Es. repeat split. eauto. }
    destruct Hstep as (-> & entry & -> & Hentry).
    apply IH in H as (-> & new & Hnew & Hlen & Hall). cbn [fst snd] in *.
    split; [reflexivity|]. exists (entry :: new). split; [|split].
    + rewrite Hnew, <- app_assoc. reflexivity.
    + cbn [length]. now rewrite Hlen.
    + intros j q Hq. destruct j as [|j].
      * cbn in Hq. injection Hq as <-. exists entry. split; [reflexivity|].
        now rewrite Z.add_0_r.
      * cbn in Hq. destruct (Hall j q Hq) as (e & He & Hb').
        exists e. split; [exact He|].
        replace (fst acc + Z.of_nat (S j)) with (fst acc + 1 + Z.of_nat j) by lia.
        exact Hb'.
Qed.



Section BodyAttached.

Variable find_subgraph : SubGraphMetadata -> Graph -> outcome (list Node * list Node).
Variable topological_sort : list Node -> list Node.

(** X21.  What the late pass does with a Scan node whose boundary is
    registered: the entry is popped, the nodes found by the frontier walk
    are queued for removal, and the Scan node of the graph gets a [body]
    graph.  The body declares one input per pair of an input id and an
    initial input id and one output per declared output id, and its
    output names are pairwise distinct. *)
Theorem late_rewrite_node_attaches_body nodes_to_remove scan_node s L s1 meta :
  type scan_node = "Scan" ->
  BODY_GRAPH_DICT s !! name scan_node = Some meta ->
  late_rewrite_node find_subgraph topological_sort nodes_to_remove scan_node s
    = (Return L, s1) ->
  exists onnx_nodes enter_nodes body,
    find_subgraph meta (g (world s)) = Return (onnx_nodes, enter_nodes) /\
    L = nodes_to_remove ++ onnx_nodes /\
    BODY_GRAPH_DICT s1 = delete (name scan_node) (BODY_GRAPH_DICT s) /\
    (scan_node ∈ get_nodes (g (world s)) ->
     set_attr scan_node "body" (attr_g body) ∈ get_nodes (g (world s1))) /\
    length (graph_input body) = length (zip (input_ids meta) (initial_input_ids meta)) /\
    length (graph_output body) = length (output_ids meta) /\
    NoDup (graph_output body).
Proof.
  intros Et Hlook H. unfold late_rewrite_node in H.
  rewrite Et in H. cbn [String.eqb negb] in H.
  replace (negb ("Scan" =? "Scan")%string) with false in H by reflexivity.
  step H as a s2 Ha. prim Ha. step H as has s3 Hh. unfold has_body_graph_info in Hh. prim Hh.
  rewrite bool_decide_true in H by (rewrite Hlook; eauto). cbn [negb] in H.
  step H as meta' s4 Hpop. unfold pop_body_graph_info in Hpop. rewrite Hlook in Hpop.
  inversion Hpop; subst meta' s4. clear Hpop.
  step H as r s5 Hf. apply lift_Return in Hf as [Hf Hd5]. cbn [world] in Hf.
  assert (Hw5 : world s5 = world s /\ find_subgraph meta (g (world s)) = Return r).
  { destruct (find_subgraph meta (g (world s))); inversion Hf; auto. }
  destruct Hw5 as [Hw5 Hfind]. clear Hf.
  step H as ci s6 Hci. apply lift_Return in Hci as [Hci Hd6].
  apply collect_initializers_nodes in Hci.
  step H as ins s7 Hin. apply lift_Return in Hin as [Hin Hd7].
  pose proof (prepare_inputs_nodes _ _ _ _ _ Hin) as Hinn.
  unfold prepare_inputs in Hin. step Hin as accI wI HlI.
  apply ret_Return in Hin as [Hins _].
  apply prepare_inputs_loop in HlI as (_ & newI & HnewI & Hinlen & _).
  cbn [snd app] in HnewI.
  step H as outs s8 Hout. apply lift_Return in Hout as [Hout Hd8].
  pose proof (prepare_outputs_nodes _ _ _ _ _ Hout) as Houtn.
  unfold prepare_outputs in Hout.
  destruct (prepare_outputs_loop (output_ids meta) ([], node_set (snd ci)) (world s7))
    as (w8 & Hloop).
  rewrite Hloop in Hout. injection Hout as <- _. cbn [fst snd app] in *.
  step H as u s9 Hup. apply lift_Return in Hup as [Hup Hd9]. prim H.
  apply modify_Return in Hup.
  assert (Hnodes : get_nodes (g (world s8)) = get_nodes (g (world s))).
  { unfold same_nodes in *. rewrite Houtn, Hinn, Hci, Hw5. reflexivity. }
  destruct r as [onnx_nodes enter_nodes]. cbn [fst snd] in *.
  eexists onnx_nodes, enter_nodes, _.
  split; [exact Hfind|]. split; [reflexivity|]. split.
  { rewrite Hd9, Hd8, Hd7, Hd6, Hd5. reflexivity. }
  split; [|split; [|split]].
  - intros Hx. rewrite Hup. cbn [g get_nodes set_nodes _nodes].
    fold (get_nodes (g (world s8))). rewrite Hnodes. unfold update_node.
    apply list_elem_of_fmap. exists scan_node. split; [|exact Hx].
    unfold same_node. cbn [name set_attr].
    now rewrite String.eqb_refl.
  - cbn [graph_input]. rewrite Hins, HnewI. exact Hinlen.
  - cbn [graph_output]. rewrite length_map. unfold identity_nodes. apply length_imap.
  - cbn [graph_output]. apply identity_outputs_NoDup.
Qed.

End BodyAttached.

Lemma late_rewrite_node_attaches_body_witness :
  exists onnx_nodes enter_nodes body,
    rnn_find_subgraph
      (mkSubGraphMetadata
         ["rnn/while/Identity:0"; "rnn/while/Identity_2:0"; "rnn/while/Identity_3:0";
          "rnn/while/read:0"]
         ["time_var_output_Unsqueeze__2:0"; "rnn/while/cell:0"; "rnn/while/cell2:0";
          "rnn/while/cell:0"]
         ["input_Reshape__6:0"; "input_Reshape__9:0"; "input_Reshape__12:0";
          "input_ta_Reshape__15:0"] [])
      (g (world rnn_rewritten)) = Return (onnx_nodes, enter_nodes) /\
    match fst (run (late_rewrite_node rnn_find_subgraph no_sort [] rnn_scan) rnn_rewritten)
    with Return L => L | Raise _ => [] end = [] ++ onnx_nodes /\
    BODY_GRAPH_DICT (snd (run (late_rewrite_node rnn_find_subgraph no_sort [] rnn_scan)
                              rnn_rewritten))
    = delete (name rnn_scan) (BODY_GRAPH_DICT rnn_rewritten) /\
    (rnn_scan ∈ get_nodes (g (world rnn_rewritten)) ->
     set_attr rnn_scan "body" (attr_g body)
     ∈ get_nodes (g (world (snd (run (late_rewrite_node rnn_find_subgraph no_sort []
                                        rnn_scan) rnn_rewritten))))) /\
    length (graph_input body)
    = length (zip ["rnn/while/Identity:0"; "rnn/while/Identity_2:0";
                   "rnn/while/Identity_3:0"; "rnn/while/read:0"]
                  ["input_Reshape__6:0"; "input_Reshape__9:0"; "input_Reshape__12:0";
                   "input_ta_Reshape__15:0"]) /\
    length (graph_output body) = 4%nat /\
    NoDup (graph_output body).
Proof.
  apply (late_rewrite_node_attaches_body rnn_find_subgraph no_sort [] rnn_scan
           rnn_rewritten).
  - reflexivity.
  - vm_compute. reflexivity.
  - vm_compute. reflexivity.
Defined.

(** ** The state slots of the Scan node *)

Lemma state_output_loop_shapes b c scan_node k sh dt :
  output scan_node = map (port_name (name_at b c)) (seq 0 k) ->
  forall l idx w idx' w',
  for_fold l idx (set_state_output scan_node sh dt) w = (Return idx', w') ->
  forall j, (idx <= j < idx + length l)%nat ->
    get_shape (g w') (port_name (name_at b c) j) = sh /\
    get_dtype (g w') (port_name (name_at b c) j) = dt.
Proof.
  intros Hout. induction l as [|i l IH]; intros idx w idx' w' H j Hj;
    cbn [for_fold length] in *; [lia|].
  step H as idx1 w1 H1.
  pose proof (set_state_output_spec b c scan_node k Hout _ _ _ _ _ _ _ H1) as [-> _].
  destruct (decide (j = idx)) as [->|Hne].
  - apply (state_output_loop b c scan_node k Hout) in H as [_ (_ & _ & Hkeep)].
    destruct (Hkeep (port_name (name_at b c) idx)) as [-> ->].
    { intros p Hp Heq. apply port_name_inj in Heq. lia. }
    unfold set_state_output in H1. rewrite Hout in H1.
    step H1 as o wa Ho. prim Ho. apply lookup_ports in E. subst o.
    step H1 as u1 wb Hu1. prim Hu1. step H1 as u2 wc Hu2. prim Hu2.
    apply ret_Return in H1 as [_ ->]. cbn [g]. split.
    + unfold get_shape, set_dtype, set_shape. cbn. now rewrite lookup_insert_eq.
    + apply get_dtype_set_dtype_eq.
  - apply (IH _ _ _ _ H). lia.
Qed.

Lemma _create_scan_node_state_slots sp w scan w' i2 :
  _create_scan_node sp w = (Return scan, w') ->
  initial_state_and_scan_inputs sp !! 1%nat = Some i2 ->
  ~ generated_after (INTERNAL_NAME w) i2 ->
  forall j, (1 <= j < length (loop_state_outputs sp))%nat ->
    get_shape (g w') (port_name (name_at "Scan" (S (INTERNAL_NAME w))) j)
    = get_shape (g w) i2 /\
    get_dtype (g w') (port_name (name_at "Scan" (S (INTERNAL_NAME w))) j)
    = get_dtype (g w) i2.
Proof.
  intros H Hi2 Hgen j Hj. unfold _create_scan_node in H.
  set (c := INTERNAL_NAME w) in *. set (nm := name_at "Scan" (S c)) in *.
  step H as sn w1 Hn. apply make_onnx_node_Return in Hn as [-> ->].
  fold c in H. fold nm in H.
  set (k := length (loop_state_outputs sp ++ loop_scan_outputs sp)) in *.
  set (sn := mkNode nm "Scan" ("" :: initial_state_and_scan_inputs sp)
                    (map (port_name nm) (seq 0 k))
                    [("num_scan_inputs",
                      attr_i (Z.of_nat (length (loop_scan_inputs sp))))]) in *.
  assert (Hout : output sn = map (port_name (name_at "Scan" (S c))) (seq 0 k))
    by reflexivity.
  step H as i1 wa Hi1. prim Hi1.
  step H as tsh wb Hts. prim Hts. step H as tdt wc Htd. prim Htd.
  step H as o0 wd Ho0. prim Ho0. rewrite Hout in E0. apply lookup_ports in E0. subst o0.
  fold nm in H.
  step H as u1 we Hu1. prim Hu1. step H as u2 wf Hu2. prim Hu2.
  cbn [g context INTERNAL_NAME] in H.
  step H as i2' wg Hi2'. apply index_Return in Hi2' as [Hi2' ->].
  assert (i2' = i2) as ->.
  { change (initial_state_and_scan_inputs sp !! 1%nat = Some i2') in Hi2'. congruence. }
  step H as ssh wh Hss. prim Hss. step H as sdt wi Hsd. prim Hsd.
  cbn [g] in H.
  assert (Hne : port_name nm 0 <> i2).
  { intros Heq. apply Hgen. exists "Scan", (S c), 0%nat. split; [unfold c; lia|].
    symmetry. exact Heq. }
  assert (Hsh2 : get_shape (set_dtype (port_name nm 0) (get_dtype (g w) i1)
                              (set_shape (port_name nm 0) (get_shape (g w) i1) (g w))) i2
                 = get_shape (g w) i2).
  { unfold get_shape, set_dtype, set_shape. cbn. now rewrite lookup_insert_ne. }
  assert (Hdt2 : get_dtype (set_dtype (port_name nm 0) (get_dtype (g w) i1)
                              (set_shape (port_name nm 0) (get_shape (g w) i1) (g w))) i2
                 = get_dtype (g w) i2).
  { rewrite get_dtype_set_dtype_ne by exact Hne. reflexivity. }
  rewrite Hsh2, Hdt2 in H.
  step H as idx2 w2 Hl1.
  pose proof (state_output_loop_shapes "Scan" (S c) sn k _ _ Hout _ _ _ _ _ Hl1 j) as Hslots.
  apply (state_output_loop "Scan" (S c) sn k Hout) in Hl1 as [-> _].
  rewrite length_seq in H, Hslots.
  step H as il wj Hil. step H as lsh wk Hls. step H as ls wl Hlss.
  step H as batch wm Hb. step H as time wn Ht. step H as idx3 w3 Hl2.
  apply ret_Return in H as [_ ->].
  prim Hil. prim Hls. prim Hlss. prim Hb. prim Ht.
  apply (scan_output_loop "Scan" (S c) sn k Hout) in Hl2 as [(_ & _ & Hkeep) _].
  destruct (Hkeep (port_name nm j)) as [-> ->].
  { intros p Hp Heq. apply port_name_inj in Heq. lia. }
  apply Hslots. lia.
Qed.

Section StateSlots.

Variable find_subgraph : SubGraphMetadata -> Graph -> outcome (list Node * list Node).
Variable _extract_sub_graph_nodes : Graph -> option Node -> list Node.

(** X22.  The state slots as the code fills them: after a successful
    rewrite, every state output slot of the Scan node (slots 1 to the
    number of state variables) bears the shape and the element type
    recorded for the Scan node's input 2, the initial value of the first
    state variable, whichever state variable the slot belongs to. *)
Theorem scan_state_outputs_take_first_state_input s scan s' tv :
  rewrite_try find_subgraph _extract_sub_graph_nodes s = (Return OK, Some scan, s') ->
  time_var (context (world s)) = Some tv ->
  exists i2,
    input scan !! 2%nat = Some i2 /\
    forall j o, (1 <= j <= length (other_loop_vars (context (world s))))%nat ->
      output scan !! j = Some o ->
      get_shape (g (world s')) o = get_shape (g (world s')) i2 /\
      get_dtype (g (world s')) o = get_dtype (g (world s')) i2.
Proof.
  intros H Htv.
  apply rewrite_try_OK in H as (w1 & w2 & sp & nta & w3 & w4 & H1 & H2 & Hc & Hs & Hext & Hin).
  pose proof (same_tables_trans _ _ _ H1 H2) as H12.
  assert (Hctx : context w2 = context (world s)) by (destruct H12 as (_ & _ & _ & ->); auto).
  apply (_compose_cell_inputs_and_outputs_spec _ _ _ _ tv) in Hc;
    [|rewrite Hctx; exact Htv].
  rewrite Hctx in Hc. destruct Hc as (_ & _ & Hlen & Hgen & _).
  pose proof (_create_scan_node_made _ _ _ _ Hs) as [Hscan Hge].
  destruct (initial_state_and_scan_inputs sp) as [|i1 [|i2 rest]] eqn:Hinit;
    cbn [length] in Hge; try lia.
  assert (Hi2 : generated_upto (INTERNAL_NAME w3) i2).
  { apply Forall_cons in Hgen as [_ Hgen]. now apply Forall_cons in Hgen as [Hgen _]. }
  pose proof (_create_scan_node_spec _ _ _ _ Hs) as (_ & _ & Hout & Hc4 & Hext34 & _).
  exists i2. split; [rewrite Hscan; reflexivity|].
  intros j o Hj Ho. rewrite Hout in Ho. apply lookup_ports in Ho. subst o.
  assert (Hnot : ~ generated_after (INTERNAL_NAME w3) i2)
    by (eapply generated_upto_not_after; [|exact Hi2]; lia).
  destruct (_create_scan_node_state_slots sp w3 scan w4 i2 Hs) with (j := j)
    as [Hsh Hdt]; [rewrite Hinit; reflexivity | exact Hnot | lia |].
  assert (Ho4 : ~ generated_after (INTERNAL_NAME w4)
                  (port_name (name_at "Scan" (S (INTERNAL_NAME w3))) j))
    by (apply generated_before; lia).
  assert (Hi4 : ~ generated_after (INTERNAL_NAME w4) i2)
    by (eapply generated_upto_not_after; [|exact Hi2]; lia).
  destruct (extends_untouched _ _ _ Hext Ho4) as [-> ->].
  destruct (extends_untouched _ _ _ Hext Hi4) as [-> ->].
  destruct (extends_untouched _ _ _ Hext34 Hnot) as [-> ->].
  split; [exact Hsh | exact Hdt].
Qed.

End StateSlots.

Lemma scan_state_outputs_take_first_state_input_witness :
  exists i2,
    input rnn_scan !! 2%nat = Some i2 /\
    forall j o, (1 <= j <= length (other_loop_vars (context (world rnn_session))))%nat ->
      output rnn_scan !! j = Some o ->
      get_shape (g (world rnn_rewritten)) o = get_shape (g (world rnn_rewritten)) i2 /\
      get_dtype (g (world rnn_rewritten)) o = get_dtype (g (world rnn_rewritten)) i2.
Proof.
  apply (scan_state_outputs_take_first_state_input rnn_find_subgraph no_extract
           rnn_session rnn_scan rnn_rewritten v_time).
  - vm_compute. reflexivity.
  - vm_compute. reflexivity.
Defined.

(** ** Registering the boundary of the cell *)

Section EnterNodes.

Variable _extract_sub_graph_nodes : Graph -> option Node -> list Node.

Lemma extract_enter_loop l : forall acc w acc' w',
  for_fold l acc
    (fun (acc : list Node * list string) enter_node =>
       eo <- index (output enter_node) 0 ;;
       ei <- index (input enter_node) 0 ;;
       modify_g (replace_all_inputs all_nodes_sel eo ei) ;;;
       nodes <- gets (fun w => _extract_sub_graph_nodes (g w) (get_node_by_name (g w) ei)) ;;
       ret (nodes, snd acc ++ [ei])) w = (Return acc', w') ->
  rewired (g w) (g w') /\
  (exists ins, snd acc' = snd acc ++ ins /\
               Forall2 (fun e i => input e !! 0%nat = Some i) l ins) /\
  (forall x, (forall e, e ∈ l -> input e !! 0%nat <> Some x) ->
             unread all_nodes_sel x (g w) -> unread all_nodes_sel x (g w')) /\
  (forall e o, e ∈ l -> output e !! 0%nat = Some o ->
               (forall e', e' ∈ l -> input e' !! 0%nat <> Some o) ->
               unread all_nodes_sel o (g w')).
Proof.
  induction l as [|en l IH]; intros acc w acc' w' H; cbn [for_fold] in H.
  - prim H. split; [apply rewired_refl|]. split; [|split].
    + exists []. rewrite app_nil_r. split; [reflexivity | constructor].
    + auto.
    + intros e o He. elems He.
  - step H as acc1 w1 Hb.
    step Hb as eo wa Heo. prim Heo. step Hb as ei wb Hei. prim Hei.
    step Hb as u wc Hm. prim Hm. step Hb as ns wd Hns. prim Hns. prim Hb.
    apply IH in H as (Hr & (ins & Hins & HF) & Hkeep & Hun).
    cbn [g fst snd] in *.
    split; [eapply rewired_trans; [apply rewired_replace | exact Hr]|].
    split; [|split].
    + exists (ei :: ins). rewrite Hins, <- app_assoc. split; [reflexivity|].
      constructor; [assumption | exact HF].
    + intros x Hx Hu. apply Hkeep.
      * intros e He. apply Hx. now right.
      * apply unread_all_replace_other; [|exact Hu].
        intros ->. apply (Hx en); [left | assumption].
    + intros e o He Ho Hnot. apply elem_of_cons in He as [-> | He].
      * apply Hkeep.
        -- intros e' He'. apply Hnot. now right.
        -- assert (o = eo) as -> by congruence.
           apply unread_replace_all. intros ->. apply (Hnot en); [left | assumption].
      * apply (Hun e o He Ho). intros e' He'. apply Hnot. now right.
Qed.

Variable find_subgraph : SubGraphMetadata -> Graph -> outcome (list Node * list Node).

(** X23.  The boundary of the cell as registered.  The frontier walk is
    asked once, with the state and scan inputs and outputs of the cell.
    For every Enter node it reports, the readers of the Enter's output are
    rewired to the Enter's input, in the order reported, and these inputs
    are recorded as the entry's [other_enter_input_ids].  Afterwards no
    node of the graph reads the output of such an Enter node, unless that
    output is itself the input of one of them.  The entry stands under the
    name of the Scan node. *)
Theorem _extract_and_register_cell_graph_info_rewires scan_props scan_node s r s' :
  _extract_and_register_cell_graph_info find_subgraph _extract_sub_graph_nodes
    scan_props scan_node s = (Return r, s') ->
  let sub_graph_inputs := loop_state_inputs scan_props ++ loop_scan_inputs scan_props in
  let sub_graph_outputs := loop_state_outputs scan_props ++ loop_scan_outputs scan_props in
  exists nodes enter_nodes ins,
    find_subgraph (mkSubGraphMetadata sub_graph_inputs sub_graph_outputs
                     (initial_state_and_scan_inputs scan_props) [])
                  (g (world s)) = Return (nodes, enter_nodes) /\
    Forall2 (fun e i => input e !! 0%nat = Some i) enter_nodes ins /\
    BODY_GRAPH_DICT s'
    = <[name scan_node := mkSubGraphMetadata sub_graph_inputs sub_graph_outputs
                            (initial_state_and_scan_inputs scan_props) ins]>
        (BODY_GRAPH_DICT s) /\
    rewired (g (world s)) (g (world s')) /\
    (forall e o, e ∈ enter_nodes -> output e !! 0%nat = Some o ->
                 (forall e', e' ∈ enter_nodes -> input e' !! 0%nat <> Some o) ->
                 unread all_nodes_sel o (g (world s'))).
Proof.
  intros H si so. unfold _extract_and_register_cell_graph_info in H.
  fold si in H. fold so in H.
  step H as r1 s1 H1. apply lift_Return in H1 as [H1 Hd1].
  assert (Hw1 : world s1 = world s /\
                find_subgraph (mkSubGraphMetadata si so
                                 (initial_state_and_scan_inputs scan_props) [])
                              (g (world s)) = Return r1).
  { destruct (find_subgraph _ (g (world s))); inversion H1; auto. }
  destruct Hw1 as [Hw1 Hfind]. clear H1.
  step H as acc s2 H2. apply lift_Return in H2 as [H2 Hd2]. rewrite Hw1 in H2.
  apply extract_enter_loop in H2 as (Hr & (ins & Hins & HF) & _ & Hun).
  step H as u s3 H3. prim H.
  unfold add_body_graph_info in H3. rewrite Hd2, Hd1 in H3.
  destruct (BODY_GRAPH_DICT s !! name scan_node) eqn:Hl; [discriminate H3|].
  injection H3 as Hs3. subst s3. cbn [world BODY_GRAPH_DICT snd app] in *.
  destruct r1 as [nodes enter_nodes]. cbn [fst snd] in *.
  exists nodes, enter_nodes, ins.
  split; [exact Hfind|]. split; [exact HF|]. split; [now rewrite Hins|].
  split; [exact Hr | exact Hun].
Qed.

End EnterNodes.

Lemma _extract_and_register_cell_graph_info_rewires_witness :
  let sp := mkScanProperties ["w0:0"] ["rnn/while/Identity_2:0"] ["rnn/while/mul:0"] [] [] in
  let s' := snd (run (_extract_and_register_cell_graph_info enter_find_subgraph no_extract
                        sp rnn_scan) enter_session) in
  let sub_graph_inputs := loop_state_inputs sp ++ loop_scan_inputs sp in
  let sub_graph_outputs := loop_state_outputs sp ++ loop_scan_outputs sp in
  exists nodes enter_nodes ins,
    enter_find_subgraph (mkSubGraphMetadata sub_graph_inputs sub_graph_outputs
                           (initial_state_and_scan_inputs sp) [])
                        (g (world enter_session)) = Return (nodes, enter_nodes) /\
    Forall2 (fun e i => input e !! 0%nat = Some i) enter_nodes ins /\
    BODY_GRAPH_DICT s'
    = <[name rnn_scan := mkSubGraphMetadata sub_graph_inputs sub_graph_outputs
                           (initial_state_and_scan_inputs sp) ins]>
        (BODY_GRAPH_DICT enter_session) /\
    rewired (g (world enter_session)) (g (world s')) /\
    (forall e o, e ∈ enter_nodes -> output e !! 0%nat = Some o ->
                 (forall e', e' ∈ enter_nodes -> input e' !! 0%nat <> Some o) ->
                 unread all_nodes_sel o (g (world s'))).
Proof.
  apply (_extract_and_register_cell_graph_info_rewires no_extract enter_find_subgraph
           (mkScanProperties ["w0:0"] ["rnn/while/Identity_2:0"] ["rnn/while/mul:0"] [] [])
           rnn_scan enter_session
           (match fst (run (_extract_and_register_cell_graph_info enter_find_subgraph
                              no_extract
                              (mkScanProperties ["w0:0"] ["rnn/while/Identity_2:0"]
                                                ["rnn/while/mul:0"] [] [])
                              rnn_scan) enter_session) with
            | Return r => r
            | Raise _ => []
            end)).
  vm_compute. reflexivity.
Defined.
